(** * Dynamic route optimisation and emission estimation

    A shallow embedding of [models.py], [route_optimizer.py], the provider
    clients of [api_clients.py] and the routing system, the loaders and
    the writer of [app.py], with the properties of the emission formula
    and of the route optimiser proved on it.

    Python [float]s are IEEE 754 binary64 numbers: they are embedded as
    Rocq's primitive floats, whose operations are the same binary64
    operations (round to nearest, ties to even).  Values decoded from JSON
    are embedded as [pyval]; dictionaries are [gmap]s with string keys. *)

From Stdlib Require Import ZArith Floats Lia.
From stdpp Require Import gmap strings list fin_maps.

#[local] Set Warnings "-inexact-float,-register-all".

(** ** Python values, exceptions and the operators the code applies *)

Module Py.

(** The exceptions the modelled code can raise, by class.  [OtherError]
    stands for any other exception class, by name. *)
Variant exn :=
  | KeyError
  | IndexError
  | TypeError
  | AttributeError
  | ZeroDivisionError
  | OtherError (cls : string).

(** The classes of the interpreter that derive from [BaseException] and
    not from [Exception].  The classes that [requests], [urllib3] and
    [json] define all derive from [Exception], as every other built-in
    class does. *)
Definition outside_Exception : list string :=
  ["BaseException"; "BaseExceptionGroup"; "GeneratorExit"; "KeyboardInterrupt";
   "SystemExit"].

(** Whether the clause [except Exception] catches an exception: whether
    its class derives from [Exception]. *)
Definition is_Exception (e : exn) : bool :=
  match e with
  | OtherError cls => bool_decide (cls ∉ outside_Exception)
  | _ => true
  end.

(** The outcome of evaluating a Python expression: a value, or a raised
    exception. *)
Variant result (A : Type) :=
  | Ok (a : A)
  | Raise (e : exn).
Arguments Ok {A} a.
Arguments Raise {A} e.

#[global] Instance result_ret : MRet result := @Ok.
#[global] Instance result_bind : MBind result := λ A B f r,
  match r with
  | Ok a => f a
  | Raise e => Raise e
  end.

(** A value as [json] decoding produces it.  A number is held at its
    binary64 value: the integers of these payloads (metres, seconds,
    indices of air quality) are far below 2^53, where Python's integer and
    float arithmetic agree. *)
Inductive pyval :=
  | PyNone
  | PyBool (b : bool)
  | PyNum (x : float)
  | PyStr (s : string)
  | PyList (l : list pyval)
  | PyDict (d : gmap string pyval).

(** The numeric value of an operand of [/], [*] or [>]; [bool] is a
    subclass of [int] in Python. *)
Definition as_number (v : pyval) : option float :=
  match v with
  | PyNum x => Some x
  | PyBool true => Some 1%float
  | PyBool false => Some 0%float
  | _ => None
  end.

(** [v[k]] for a string key [k]. *)
Definition subscript_key (v : pyval) (k : string) : result pyval :=
  match v with
  | PyDict d =>
      match d !! k with
      | Some x => Ok x
      | None => Raise KeyError
      end
  | _ => Raise TypeError
  end.

(** [v[0]]. *)
Definition subscript_0 (v : pyval) : result pyval :=
  match v with
  | PyList l =>
      match l with
      | x :: _ => Ok x
      | [] => Raise IndexError
      end
  | PyStr s =>
      match s with
      | String c _ => Ok (PyStr (String c EmptyString))
      | EmptyString => Raise IndexError
      end
  | PyDict _ => Raise KeyError
  | _ => Raise TypeError
  end.

(** [v.get(k, dflt)]: only dictionaries have a [get] method. *)
Definition dict_get (v : pyval) (k : string) (dflt : pyval) : result pyval :=
  match v with
  | PyDict d => Ok (default dflt (d !! k))
  | _ => Raise AttributeError
  end.

(** [x / y] on floats: Python raises on a zero divisor, and otherwise
    divides as IEEE 754 does. *)
Definition float_div (x y : float) : result float :=
  if (y =? 0)%float then Raise ZeroDivisionError else Ok (x / y)%float.

(** [v / y] for a decoded value [v]. *)
Definition true_div (v : pyval) (y : float) : result float :=
  match as_number v with
  | Some x => float_div x y
  | None => Raise TypeError
  end.

(** [v > y] for a decoded value [v] and a number [y]. *)
Definition py_gt (v : pyval) (y : float) : result bool :=
  match as_number v with
  | Some x => Ok (y <? x)%float
  | None => Raise TypeError
  end.

(** [any(c > t for c, t in pairs)]: the generator stops at the first
    comparison that holds. *)
Fixpoint any_gt (pairs : list (pyval * float)) : result bool :=
  match pairs with
  | [] => Ok false
  | (c, t) :: rest =>
      b ← py_gt c t;
      if b : bool then Ok true else any_gt rest
  end.

(** [sum(xs)]: the additions start from the integer 0 and go from left to
    right.  (From Python 3.12 on a compensation term is added at the end;
    it is zero for the sum of a single number.) *)
Definition py_sum (xs : list float) : float :=
  fold_left (λ acc x, (acc + x)%float) xs 0%float.

(** A dictionary whose values are all numbers, as the annotation
    [Dict[str, float]] describes it. *)
Definition float_dict (m : gmap string float) : pyval :=
  PyDict (PyNum <$> m).

End Py.
Import Py.

(** ** models.py *)

Module Models.

Record Vehicle := {
  id : string;
  type : string;
  fuel_type : string;
  fuel_efficiency : float;
  cargo_capacity : float;
  current_load : float
}.

Record Location := {
  lat : float;
  lon : float;
  address : string
}.

Record RouteSegment := {
  seg_start : Location;
  seg_end : Location;
  distance : float;
  duration : float;
  traffic_delay : float;
  emissions : float
}.

Record Route := {
  segments : list RouteSegment;
  total_distance : float;
  total_duration : float;
  total_emissions : float;
  weather_conditions : pyval;
  air_quality : pyval
}.

(** [segment.emissions = e] *)
Definition set_emissions (segment : RouteSegment) (e : float) : RouteSegment :=
  {| seg_start := seg_start segment;
     seg_end := seg_end segment;
     distance := distance segment;
     duration := duration segment;
     traffic_delay := traffic_delay segment;
     emissions := e |}.

End Models.
Import Models.

(** ** route_optimizer.py: EmissionCalculator *)

Module EmissionCalculator.

(** Emission factors by vehicle and fuel type (kg CO2/km). *)
Definition emission_factors : gmap string float :=
  {[ "diesel_truck" := 0.9%float;
     "electric_truck" := 0.0%float;
     "hybrid_truck" := 0.6%float ]}.

(** [distance * self.emission_factors.get(f"{vehicle.fuel_type}_truck", 0)] *)
Definition base_emission (vehicle : Vehicle) (distance : float) : float :=
  (distance * default 0 (emission_factors !! (fuel_type vehicle +:+ "_truck")))%float.

(** The adjustment for weather conditions. *)
Definition weather_factor (weather_conditions : pyval) : result float :=
  precipitation ← dict_get weather_conditions "precipitation" (PyNum 0);
  rain ← py_gt precipitation 0;
  let weather_factor := if rain : bool then (1.0 * 1.1)%float else 1.0%float in
  wind_speed ← dict_get weather_conditions "wind_speed" (PyNum 0);
  wind ← py_gt wind_speed 20;
  Ok (if wind : bool then (weather_factor * 1.15)%float else weather_factor).

(** The adjustment for vehicle load. *)
Definition load_factor (vehicle : Vehicle) : result float :=
  ratio ← float_div (current_load vehicle) (cargo_capacity vehicle);
  Ok (1.0 + ratio * 0.2)%float.

Definition calculate_emissions (vehicle : Vehicle) (distance : float)
    (weather_conditions : pyval) : result float :=
  let base_emission := base_emission vehicle distance in
  weather_factor ← weather_factor weather_conditions;
  load_factor ← load_factor vehicle;
  Ok (base_emission * weather_factor * load_factor)%float.

End EmissionCalculator.

(** ** api_clients.py *)

Module ApiClients.

(** What a client asks of its HTTP session: a route between two locations
    (TomTom), or the conditions nearest to a location (weather and air
    quality). *)
Variant request :=
  | CalculateRoute (start end_ : Location)
  | Nearest (location : Location).

(** How [session.get], [raise_for_status] and [response.json] end: with a
    [requests.exceptions.Timeout], with another [RequestException] (a
    connection error, an error status, retries exhausted), with an
    exception of another class, or with the decoded body. *)
Variant outcome :=
  | Timeout
  | RequestException
  | Raised (cls : string)
  | Json (body : pyval).

(** A client's session, with its retry strategy mounted, over the state
    [World] of the network and of the remote services. *)
Definition session (World : Type) : Type := request → World → outcome * World.

Module TomTomAPI.

(** Simulated data for when the API is unavailable. *)
Definition _get_simulated_route_data (start end_ : Location) : pyval :=
  PyDict {[ "routes" :=
    PyList [ PyDict {[ "summary" :=
      PyDict {[ "lengthInMeters" := PyNum 50000;
                "travelTimeInSeconds" := PyNum 3600;
                "trafficDelayInSeconds" := PyNum 300 ]} ]} ] ]}.

Definition get_data {World} (self : session World) (start end_ : Location)
    (w : World) : result pyval * World :=
  let '(r, w') := self (CalculateRoute start end_) w in
  match r with
  | Json body => (Ok body, w')
  | Timeout => (Ok (_get_simulated_route_data start end_), w')
  | RequestException => (Ok (_get_simulated_route_data start end_), w')
  | Raised cls => (Raise (OtherError cls), w')
  end.

End TomTomAPI.

Module WeatherAPI.

(** Simulated data for when the API is unavailable. *)
Definition _get_simulated_weather_data : pyval :=
  PyDict {[ "weather" :=
              PyDict {[ "precipitation" := PyNum 0;
                        "wind_speed" := PyNum 10;
                        "temperature" := PyNum 25 ]};
            "air" := PyDict {[ "aqi" := PyNum 50 ]} ]}.

Definition get_data {World} (self : session World) (location : Location)
    (w : World) : result pyval * World :=
  let '(r, w') := self (Nearest location) w in
  match r with
  | Json body => (Ok body, w')
  | Timeout => (Ok _get_simulated_weather_data, w')
  | RequestException => (Ok _get_simulated_weather_data, w')
  | Raised cls => (Raise (OtherError cls), w')
  end.

End WeatherAPI.

End ApiClients.

(** ** route_optimizer.py: RouteOptimizer *)

Module RouteOptimizer.
Import EmissionCalculator.

(** A call of [get_data] on one of the two providers. *)
Variant lookup :=
  | TrafficLookup (start end_ : Location)
  | WeatherLookup (location : Location).

Section Optimizer.

Context {World : Type}.

(** The optimizer holds a traffic client and a weather client; all it uses
    of either is its [get_data] method. *)
Record RouteOptimizer := {
  traffic_api : Location → Location → World → result pyval * World;
  weather_api : Location → World → result pyval * World
}.

(** The state a run threads: the world the providers talk to, and the
    lookups issued so far, oldest first. *)
Record state := {
  world : World;
  lookups : list lookup
}.

(** A computation that may raise and that threads the state. *)
Definition M (A : Type) : Type := state → result A * state.

#[global] Instance M_ret : MRet M := λ A a σ, (Ok a, σ).
#[global] Instance M_bind : MBind M := λ A B f m σ,
  match m σ with
  | (Ok a, σ') => f a σ'
  | (Raise e, σ') => (Raise e, σ')
  end.

(** A pure expression evaluated inside a run. *)
Definition lift {A} (r : result A) : M A := λ σ, (r, σ).

(** [self.traffic_api.get_data(start, end)] *)
Definition traffic_get_data (self : RouteOptimizer) (start end_ : Location) : M pyval :=
  λ σ, let '(r, w') := traffic_api self start end_ (world σ) in
       (r, {| world := w'; lookups := lookups σ ++ [TrafficLookup start end_] |}).

(** [self.weather_api.get_data(location)] *)
Definition weather_get_data (self : RouteOptimizer) (location : Location) : M pyval :=
  λ σ, let '(r, w') := weather_api self location (world σ) in
       (r, {| world := w'; lookups := lookups σ ++ [WeatherLookup location] |}).

(** [traffic_data["routes"][0]["summary"][field] / divisor] *)
Definition summary_field (traffic_data : pyval) (field : string) (divisor : float) : result float :=
  routes ← subscript_key traffic_data "routes";
  route ← subscript_0 routes;
  summary ← subscript_key route "summary";
  x ← subscript_key summary field;
  true_div x divisor.

(** The part of an iteration that follows the two lookups: the segment and
    the route built from the data the providers returned. *)
Definition build_route (vehicle : Vehicle) (current_location destination : Location)
    (traffic_data weather_data : pyval) : result Route :=
  distance ← summary_field traffic_data "lengthInMeters" 1000;
  duration ← summary_field traffic_data "travelTimeInSeconds" 60;
  traffic_delay ← summary_field traffic_data "trafficDelayInSeconds" 60;
  let segment :=
    {| seg_start := current_location;
       seg_end := destination;
       distance := distance;
       duration := duration;
       traffic_delay := traffic_delay;
       emissions := 0 |} in
  weather ← subscript_key weather_data "weather";
  e ← calculate_emissions vehicle (Models.distance segment) weather;
  let segment := set_emissions segment e in
  weather_conditions ← subscript_key weather_data "weather";
  air_quality ← subscript_key weather_data "air";
  Ok {| segments := [segment];
        total_distance := Models.distance segment;
        total_duration := Models.duration segment;
        total_emissions := Models.emissions segment;
        weather_conditions := weather_conditions;
        air_quality := air_quality |}.

(** One iteration of the loop of [optimize_route]: the route for
    [destination], reached from [current_location]. *)
Definition route_to (self : RouteOptimizer) (vehicle : Vehicle)
    (current_location destination : Location) : M Route :=
  traffic_data ← traffic_get_data self current_location destination;
  weather_data ← weather_get_data self destination;
  lift (build_route vehicle current_location destination traffic_data weather_data).

(** The loop of [optimize_route], from the cursor [current_location] and
    the routes collected so far. *)
Fixpoint optimize_loop (self : RouteOptimizer) (vehicle : Vehicle)
    (current_location : Location) (destinations : list Location)
    (possible_routes : list Route) : M (list Route) :=
  match destinations with
  | [] => mret possible_routes
  | destination :: rest =>
      route ← route_to self vehicle current_location destination;
      optimize_loop self vehicle destination rest (possible_routes ++ [route])
  end.

Definition optimize_route (self : RouteOptimizer) (vehicle : Vehicle)
    (start : Location) (destinations : list Location) : M (list Route) :=
  optimize_loop self vehicle start destinations [].

End Optimizer.
Arguments RouteOptimizer World : clear implicits.
Arguments state World : clear implicits.
Arguments M World A : clear implicits.

End RouteOptimizer.

(** ** app.py: DynamicRoutingSystem *)

Module DynamicRoutingSystem.
Import RouteOptimizer.

(** The dictionary [get_route_summary] returns; its keys are fixed. *)
Record summary := {
  total_distance_km : float;
  total_duration_mins : float;
  total_emissions_kg : float;
  weather_alerts : bool;
  air_quality_alerts : bool
}.

(** The body of the [try] block of [get_route_summary]. *)
Definition build_summary (route : Route) : result summary :=
  precipitation ← dict_get (weather_conditions route) "precipitation" (PyNum 0);
  wind_speed ← dict_get (weather_conditions route) "wind_speed" (PyNum 0);
  weather ← any_gt [(precipitation, 10%float); (wind_speed, 30%float)];
  aqi ← dict_get (air_quality route) "aqi" (PyNum 0);
  air ← py_gt aqi 100;
  Ok {| total_distance_km := total_distance route;
        total_duration_mins := total_duration route;
        total_emissions_kg := total_emissions route;
        weather_alerts := weather;
        air_quality_alerts := air |}.

(** Generate a summary of the given route. *)
Definition get_route_summary (route : Route) : summary :=
  match build_summary route with
  | Ok s => s
  | Raise _ =>
      {| total_distance_km := 0;
         total_duration_mins := 0;
         total_emissions_kg := 0;
         weather_alerts := false;
         air_quality_alerts := false |}
  end.

(** Plan routes for the given vehicle and destinations.  The handler is
    [except Exception]: an exception of the optimizer whose class derives
    from [Exception] is logged and an empty list returned; an exception of
    another class ([KeyboardInterrupt], [SystemExit]) is not caught and
    leaves [plan_route] as it left the optimizer. *)
Definition plan_route {World} (route_optimizer : RouteOptimizer World)
    (vehicle : Vehicle) (start : Location) (destinations : list Location)
    : M World (list Route) := λ σ,
  match optimize_route route_optimizer vehicle start destinations σ with
  | (Ok routes, σ') => (Ok routes, σ')
  | (Raise e, σ') => if is_Exception e then (Ok [], σ') else (Raise e, σ')
  end.

End DynamicRoutingSystem.

(** ** The emission formula as the specification words it *)

Module Spec.

(** The factor table: diesel 0.9, electric 0.0, hybrid 0.6 kg CO2/km, and
    0 for any other fuel type. *)
Definition emission_factor (fuel_type : string) : float :=
  if decide (fuel_type = "diesel") then 0.9%float
  else if decide (fuel_type = "electric") then 0.0%float
  else if decide (fuel_type = "hybrid") then 0.6%float
  else 0%float.

(** The weather multiplier: starts at 1.0, multiplied by 1.10 if
    precipitation > 0, multiplied by 1.15 if wind_speed > 20. *)
Definition weather_multiplier (precipitation wind_speed : float) : float :=
  let m := 1.0%float in
  let m := if (0 <? precipitation)%float then (m * 1.10)%float else m in
  if (20 <? wind_speed)%float then (m * 1.15)%float else m.

(** The load multiplier: 1.0 + (current_load / cargo_capacity) * 0.2. *)
Definition load_multiplier (vehicle : Vehicle) : float :=
  (1.0 + (current_load vehicle / cargo_capacity vehicle) * 0.2)%float.

(** A weather metric of a mapping; a missing key defaults to 0. *)
Definition metric (weather : gmap string float) (key : string) : float :=
  default 0%float (weather !! key).

(** distance_km * emission_factor(fuel_type) * weather_multiplier *
    load_multiplier. *)
Definition emissions (vehicle : Vehicle) (distance_km : float)
    (weather : gmap string float) : float :=
  (distance_km * emission_factor (fuel_type vehicle)
   * weather_multiplier (metric weather "precipitation") (metric weather "wind_speed")
   * load_multiplier vehicle)%float.

End Spec.

(** ** Notions the properties are stated with *)

(** Two floats are the same number: equal as [==] has it (so the two zeros
    are), or both not a number. *)
Definition same_number (x y : float) : bool :=
  (x =? y)%float || (is_nan x && is_nan y).

(** A float is a signed zero. *)
Definition is_zero_float (x : float) : Prop := ∃ s, Prim2SF x = S754_zero s.

(** The number [d.get(key, 0)] is, when it is one. *)
Definition reading (d : gmap string pyval) (key : string) : option float :=
  as_number (default (PyNum 0) (d !! key)).

Module Trace.
Import RouteOptimizer.

(** The stops of an itinerary paired with their successors:
    (start, D1), (D1, D2), ..., (Dn-1, Dn). *)
Fixpoint consecutive_pairs (start : Location) (destinations : list Location)
    : list (Location * Location) :=
  match destinations with
  | [] => []
  | d :: rest => (start, d) :: consecutive_pairs d rest
  end.



Section Run.
Context {World : Type} (self : RouteOptimizer World) (vehicle : Vehicle).

(** A run of the loop that completes: from a cursor and a state, through
    the destinations, to the routes it appends and the final state. *)
Inductive completes : Location → list Location → state World →
    list Route → state World → Prop :=
  | completes_nil cur σ : completes cur [] σ [] σ
  | completes_cons cur d rest σ r σ1 rs σ2 :
      route_to self vehicle cur d σ = (Ok r, σ1) →
      completes d rest σ1 rs σ2 →
      completes cur (d :: rest) σ (r :: rs) σ2.

End Run.

(** A traffic payload the optimizer can read: its first route has a
    summary that holds a number under each of the three keys. *)
Definition readable_traffic (payload : pyval) : Prop :=
  ∃ p r others s,
    payload = PyDict p ∧
    p !! "routes" = Some (PyList (PyDict r :: others)) ∧
    r !! "summary" = Some (PyDict s) ∧
    ∀ field, field ∈ ["lengthInMeters"; "travelTimeInSeconds"; "trafficDelayInSeconds"] →
      ∃ v, s !! field = Some v ∧ is_Some (as_number v).

(** A weather payload the optimizer can read: a weather dictionary whose
    precipitation and wind speed, when present, are numbers, and an air
    entry. *)
Definition readable_weather (payload : pyval) : Prop :=
  ∃ p w air,
    payload = PyDict p ∧
    p !! "weather" = Some (PyDict w) ∧
    is_Some (reading w "precipitation") ∧
    is_Some (reading w "wind_speed") ∧
    p !! "air" = Some air.

End Trace.

Module Properties.
Import EmissionCalculator.

Definition ConfigurationError : exn := OtherError "ConfigurationError".

(** The guard the specification asks for around the division by the cargo
    capacity: the call fails with a [ConfigurationError], or it returns
    the emission with the load multiplier taken as 1.0. *)
Definition capacity_guarded (vehicle : Vehicle) (distance : float)
    (weather_conditions : pyval) : Prop :=
  calculate_emissions vehicle distance weather_conditions = Raise ConfigurationError
  ∨ calculate_emissions vehicle distance weather_conditions
    = (weather_factor ← weather_factor weather_conditions;
       Ok (base_emission vehicle distance * weather_factor * 1.0)%float).

(** The emission is non-decreasing in the distance, for a fixed vehicle and
    fixed weather conditions. *)
Definition nondecreasing_in_distance (vehicle : Vehicle) (weather_conditions : pyval)
    : Prop :=
  ∀ d1 d2 : float,
    (0 <=? d1)%float = true → (d1 <=? d2)%float = true →
    ∃ e1 e2,
      calculate_emissions vehicle d1 weather_conditions = Ok e1
      ∧ calculate_emissions vehicle d2 weather_conditions = Ok e2
      ∧ (e1 <=? e2)%float = true.

(** The exceptions of Python's own lookups and arithmetic. *)
Definition builtin (e : exn) : Prop :=
  match e with
  | OtherError _ => False
  | _ => True
  end.

End Properties.

(** ** Sample data *)

Module Sample.
Import ApiClients RouteOptimizer.

Definition diesel_truck : Vehicle :=
  {| id := "TRUCK-1"; type := "truck"; fuel_type := "diesel"; fuel_efficiency := 8;
     cargo_capacity := 1000; current_load := 500 |}.

Definition depot : Location := {| lat := 17.385; lon := 78.4867; address := "depot" |}.
Definition stop1 : Location := {| lat := 17.44; lon := 78.35; address := "stop 1" |}.
Definition stop2 : Location := {| lat := 17.5; lon := 78.4; address := "stop 2" |}.
Definition stop3 : Location := {| lat := 17.3; lon := 78.55; address := "stop 3" |}.

(** A session over a network that is down: every request times out. *)
Definition offline : session unit := λ _ w, (Timeout, w).

(** A session whose every request is answered with the same body. *)
Definition answering (body : pyval) : session unit := λ _ w, (Json body, w).

(** The optimizer of [DynamicRoutingSystem], over the two sessions. *)
Definition optimizer (traffic weather : session unit) : RouteOptimizer unit :=
  {| traffic_api := TomTomAPI.get_data traffic;
     weather_api := WeatherAPI.get_data weather |}.

Definition fresh : state unit := {| world := tt; lookups := [] |}.


(** An electric truck with no load, and one whose load is so far above its
    capacity that their ratio overflows. *)
Definition electric_truck : Vehicle :=
  {| id := "TRUCK-2"; type := "truck"; fuel_type := "electric"; fuel_efficiency := 8;
     cargo_capacity := 1000; current_load := 0 |}.
Definition overloaded_electric_truck : Vehicle :=
  {| id := "TRUCK-3"; type := "truck"; fuel_type := "electric"; fuel_efficiency := 8;
     cargo_capacity := 1e-308; current_load := 1e308 |}.

(** A traffic response whose length is the literal NaN, which the [json]
    module decodes to the float that is not a number. *)
Definition nan_length : pyval :=
  PyDict {[ "routes" :=
    PyList [ PyDict {[ "summary" :=
      PyDict {[ "lengthInMeters" := PyNum nan;
                "travelTimeInSeconds" := PyNum 3600;
                "trafficDelayInSeconds" := PyNum 300 ]} ]} ] ]}.

(** A weather response whose air quality index is a string, as sent for a
    station without a reading. *)
Definition no_aqi_reading : pyval :=
  PyDict {[ "weather" := PyDict {[ "precipitation" := PyNum 0;
                                   "wind_speed" := PyNum 10 ]};
            "air" := PyDict {[ "aqi" := PyStr "-" ]} ]}.

End Sample.

(** ** Rounding to nearest, ties to even, on integers *)

Module Rounding.

(** [v / 2^n] rounded to the nearest integer, a tie going to the even
    one: what binary64 rounding does to a mantissa that is [n] bits too
    long. *)
Definition rne (v n : Z) : Z :=
  let q := (v / 2 ^ n)%Z in
  let r := (v mod 2 ^ n)%Z in
  match (2 * r ?= 2 ^ n)%Z with
  | Lt => q
  | Eq => if Z.even q then q else (q + 1)%Z
  | Gt => (q + 1)%Z
  end.

(** The state of a right shift by [k] bits of [v]: the quotient, the bit
    shifted out last, and whether any bit shifted out before it was set. *)
Definition shifted (k v : Z) (mrs : shr_record) : Prop :=
  ∃ l b, (0 ≤ l < 2 ^ (k - 1))%Z
         ∧ v = (l + (Z.b2z b + 2 * shr_m mrs) * 2 ^ (k - 1))%Z
         ∧ shr_r mrs = b
         ∧ shr_s mrs = negb (l =? 0)%Z.

(** The float a rounded mantissa [m] at exponent [e] stands for: zero
    when nothing is left, the next binade when the rounding carried into
    bit 53, infinity beyond the largest exponent. *)
Definition round_result (s : bool) (m e : Z) : spec_float :=
  if (m =? 0)%Z then S754_zero s
  else if (m =? 2 ^ 53)%Z then
    if (e + 1 <=? 971)%Z then S754_finite s (Z.to_pos (2 ^ 52)) (e + 1)
    else S754_infinity s
  else
    if (e <=? 971)%Z then S754_finite s (Z.to_pos m) e
    else S754_infinity s.

(** The value [m1 * 2^e1] is at most [m2 * 2^e2]. *)
Definition value_le (m1 e1 m2 e2 : Z) : Prop :=
  (m1 * 2 ^ (e1 - Z.min e1 e2) ≤ m2 * 2 ^ (e2 - Z.min e1 e2))%Z.

End Rounding.

(** ** app.py: construction of the system, the loaders and the writer *)

Module App.

Definition ValueError : exn := OtherError "ValueError".
Definition FileNotFoundError : exn := OtherError "FileNotFoundError".

(** *** DynamicRoutingSystem.__init__ *)

(** A provider client as its constructor leaves it: the key it was given
    and its base URL. *)
Record client := {
  api_key : option string;
  base_url : string
}.

(** [TomTomAPI(api_key)] and [WeatherAPI(api_key)]. *)
Definition new_TomTomAPI (api_key : option string) : client :=
  {| api_key := api_key; base_url := "https://api.tomtom.com/routing/1" |}.
Definition new_WeatherAPI (api_key : option string) : client :=
  {| api_key := api_key; base_url := "https://api.aqicn.org/v2" |}.

(** The attributes of a constructed system; the route optimizer is held
    by the two clients it was given, traffic first. *)
Record system := {
  tomtom_api_key : option string;
  aqicn_api_key : option string;
  tomtom_api : client;
  weather_api : client;
  route_optimizer : client * client
}.

(** The truth value of what [os.getenv] returns: [None] and the empty
    string are false. *)
Definition truthy (v : option string) : bool :=
  match v with
  | Some (String _ _) => true
  | _ => false
  end.

(** The constructor, over the environment as [load_dotenv] leaves it. *)
Definition __init__ (environ : gmap string string) : result system :=
  let tomtom_api_key := environ !! "TOMTOM_API_KEY" in
  let aqicn_api_key := environ !! "AQICN_API_KEY" in
  if negb (forallb truthy [tomtom_api_key; aqicn_api_key]) then Raise ValueError
  else
    let tomtom_api := new_TomTomAPI tomtom_api_key in
    let weather_api := new_WeatherAPI aqicn_api_key in
    Ok {| tomtom_api_key := tomtom_api_key;
          aqicn_api_key := aqicn_api_key;
          tomtom_api := tomtom_api;
          weather_api := weather_api;
          route_optimizer := (tomtom_api, weather_api) |}.

(** *** Objects built from decoded JSON *)

(** An object of a dataclass, by its attributes.  The decorator checks no
    annotation, so an attribute holds whatever value the constructor was
    given. *)
Definition instance : Type := gmap string pyval.

(** [cls( **data)] for a dataclass [cls] none of whose fields has a
    default: [data] has to be a mapping, and its keys exactly the fields;
    a missing and an unexpected keyword both raise [TypeError]. *)
Definition dataclass_call (fields : list string) (data : pyval) : result instance :=
  match data with
  | PyDict kwargs =>
      if decide (dom kwargs =@{gset string} list_to_set fields)
      then Ok kwargs
      else Raise TypeError
  | _ => Raise TypeError
  end.

Definition Vehicle_fields : list string :=
  ["id"; "type"; "fuel_type"; "fuel_efficiency"; "cargo_capacity"; "current_load"].
Definition Location_fields : list string := ["lat"; "lon"; "address"].

(** [Vehicle( **data)] and [Location( **loc)]. *)
Definition new_Vehicle (data : pyval) : result instance :=
  dataclass_call Vehicle_fields data.
Definition new_Location (loc : pyval) : result instance :=
  dataclass_call Location_fields loc.

Definition as_str (v : pyval) : option string :=
  match v with
  | PyStr s => Some s
  | _ => None
  end.

Definition as_float (v : pyval) : option float :=
  match v with
  | PyNum x => Some x
  | _ => None
  end.

(** The record an object stands for when its attributes have the types
    the dataclass annotates. *)
Definition Vehicle_of (o : instance) : option Vehicle :=
  i ← o !! "id" ≫= as_str;
  t ← o !! "type" ≫= as_str;
  f ← o !! "fuel_type" ≫= as_str;
  fe ← o !! "fuel_efficiency" ≫= as_float;
  c ← o !! "cargo_capacity" ≫= as_float;
  l ← o !! "current_load" ≫= as_float;
  Some {| id := i; type := t; fuel_type := f; fuel_efficiency := fe;
          cargo_capacity := c; current_load := l |}.

Definition Location_of (o : instance) : option Location :=
  la ← o !! "lat" ≫= as_float;
  lo ← o !! "lon" ≫= as_float;
  a ← o !! "address" ≫= as_str;
  Some {| lat := la; lon := lo; address := a |}.

(** *** The loaders *)

(** How [open(file_path, 'r')] followed by [json.load] ends: with the
    [FileNotFoundError] of [open], with the [JSONDecodeError] of
    [json.load], with an exception of another class (a permission error, a
    decoding error of the text), or with the decoded document. *)
Variant read_outcome :=
  | FileNotFound
  | JSONDecodeError
  | ReadRaised (cls : string)
  | Decoded (data : pyval).

(** [for loc in data]: the items of a list, the characters of a string,
    the keys of a dictionary; nothing else that [json] decodes can be
    iterated. *)
Definition py_iter (data : pyval) : result (list pyval) :=
  match data with
  | PyList l => Ok l
  | PyStr s => Ok ((λ c, PyStr (String c EmptyString)) <$> String.list_ascii_of_string s)
  | PyDict d => Ok (PyStr <$> (map_to_list d).*1)
  | _ => Raise TypeError
  end.

(** Load vehicle data from a JSON file.  The [TypeError] of the
    constructor is not among the exceptions handled. *)
Definition load_vehicle_data (read : string → read_outcome) (file_path : string)
    : result instance :=
  match read file_path with
  | Decoded data => new_Vehicle data
  | FileNotFound => Raise FileNotFoundError
  | JSONDecodeError => Raise ValueError
  | ReadRaised cls => Raise (OtherError cls)
  end.

(** Load location data from a JSON file. *)
Definition load_locations (read : string → read_outcome) (file_path : string)
    : result (list instance) :=
  match read file_path with
  | Decoded data =>
      locs ← py_iter data;
      mapM new_Location locs
  | FileNotFound => Raise FileNotFoundError
  | JSONDecodeError => Raise ValueError
  | ReadRaised cls => Raise (OtherError cls)
  end.

(** *** The writer *)

(** [{"lat": l.lat, "lon": l.lon, "address": l.address}] *)
Definition location_dict (l : Location) : pyval :=
  PyDict {[ "lat" := PyNum (lat l);
            "lon" := PyNum (lon l);
            "address" := PyStr (address l) ]}.

(** The dictionary written for a segment. *)
Definition segment_dict (seg : RouteSegment) : pyval :=
  PyDict {[ "start" := location_dict (seg_start seg);
            "end" := location_dict (seg_end seg);
            "distance" := PyNum (distance seg);
            "duration" := PyNum (duration seg);
            "emissions" := PyNum (emissions seg) ]}.

(** The dictionary written for a route. *)
Definition route_dict (route : Route) : pyval :=
  PyDict {[ "total_distance" := PyNum (total_distance route);
            "total_duration" := PyNum (total_duration route);
            "total_emissions" := PyNum (total_emissions route);
            "segments" := PyList (segment_dict <$> segments route) ]}.

(** The list [route_data] that is handed to [json.dump]. *)
Definition route_data (routes : list Route) : pyval :=
  PyList (route_dict <$> routes).

(** Save route data to a JSON file.  [open_w] tells whether
    [open(file_path, 'w')] raises, and with which class; the files are
    held by the documents written to them. *)
Definition save_route_data (open_w : string → option string)
    (routes : list Route) (file_path : string) (files : gmap string pyval)
    : result unit * gmap string pyval :=
  let route_data := route_data routes in
  match open_w file_path with
  | Some cls => (Raise (OtherError cls), files)
  | None => (Ok (), <[file_path := route_data]> files)
  end.

End App.

(** ** Notions the further properties are stated with *)

Module Variations.
Import ApiClients RouteOptimizer.

(** A traffic response cut down to the first of its routes. *)
Definition first_route_only (traffic_data : pyval) : pyval :=
  match traffic_data with
  | PyDict p =>
      match p !! "routes" with
      | Some (PyList (r :: _)) => PyDict (<["routes" := PyList [r]]> p)
      | _ => traffic_data
      end
  | _ => traffic_data
  end.

(** The optimizer whose traffic provider answers as that of [self] does,
    each answer passed through [f]. *)
Definition with_traffic {World} (f : pyval → pyval) (self : RouteOptimizer World)
    : RouteOptimizer World :=
  {| traffic_api := λ s e w,
       match traffic_api self s e w with
       | (Ok payload, w') => (Ok (f payload), w')
       | (Raise e, w') => (Raise e, w')
       end;
     weather_api := weather_api self |}.

(** A session none of whose requests gets through: each ends with a
    [Timeout] or with another [RequestException]. *)
Definition unreachable {World} (s : session World) : Prop :=
  ∀ req w, (s req w).1 = Timeout ∨ (s req w).1 = RequestException.

(** The summary [get_route_summary] returns from its [except] branch. *)
Definition zero_summary : DynamicRoutingSystem.summary :=
  {| DynamicRoutingSystem.total_distance_km := 0;
     DynamicRoutingSystem.total_duration_mins := 0;
     DynamicRoutingSystem.total_emissions_kg := 0;
     DynamicRoutingSystem.weather_alerts := false;
     DynamicRoutingSystem.air_quality_alerts := false |}.

End Variations.

(** ** Documents the loaders and the writer are described with *)

Module Documents.
Import App.

(** A vehicle as a JSON object holds it, a member for each field. *)
Definition vehicle_json (v : Vehicle) : gmap string pyval :=
  {[ "id" := PyStr (id v);
     "type" := PyStr (type v);
     "fuel_type" := PyStr (fuel_type v);
     "fuel_efficiency" := PyNum (fuel_efficiency v);
     "cargo_capacity" := PyNum (cargo_capacity v);
     "current_load" := PyNum (current_load v) ]}.

(** A route without what [save_route_data] leaves out: the traffic delay
    of its segments, its weather conditions and its air quality. *)
Definition without_unsaved (route : Route) : Route :=
  {| segments :=
       (λ seg, {| seg_start := seg_start seg;
                  seg_end := seg_end seg;
                  distance := distance seg;
                  duration := duration seg;
                  traffic_delay := 0;
                  emissions := emissions seg |}) <$> segments route;
     total_distance := total_distance route;
     total_duration := total_duration route;
     total_emissions := total_emissions route;
     weather_conditions := PyNone;
     air_quality := PyNone |}.

End Documents.

(** ** Rounding a quotient *)

Module Quotients.

(** [a / d] rounded to the nearest integer, a tie going to the even one. *)
Definition rq (a d : Z) : Z :=
  let q := (a / d)%Z in
  let r := (a mod d)%Z in
  match (2 * r ?= d)%Z with
  | Lt => q
  | Eq => if Z.even q then q else (q + 1)%Z
  | Gt => (q + 1)%Z
  end.

(** Where a value lies between a mantissa and its successor, in quarters:
    on the mantissa, below the middle, on the middle, above it. *)
Definition loc_code (l : location) : Z :=
  match l with
  | loc_Exact => 0
  | loc_Inexact Lt => 1
  | loc_Inexact Eq => 2
  | loc_Inexact Gt => 3
  end.

(** A mantissa with its location, as a mantissa with two more bits. *)
Definition coded (m : Z) (l : location) : Z := (4 * m + loc_code l)%Z.

(** The division of the positive finite floats [mx * 2^ex] and
    [mc * 2^ec]: the exponent the quotient is computed at, the dividend
    shifted to it, the integer quotient, and the exponent of its binade. *)
Definition e_div (mx : positive) (ex : Z) (mc : positive) (ec : Z) : Z :=
  Z.min (fexp prec emax (Z.pos (digits2_pos mx) + ex - (Z.pos (digits2_pos mc) + ec)))
        (ex - ec).
Definition dividend (mx : positive) (ex : Z) (mc : positive) (ec : Z) : Z :=
  (Z.pos mx * 2 ^ (ex - ec - e_div mx ex mc ec))%Z.
Definition quotient (mx : positive) (ex : Z) (mc : positive) (ec : Z) : Z :=
  (dividend mx ex mc ec / Z.pos mc)%Z.
Definition e_quot (mx : positive) (ex : Z) (mc : positive) (ec : Z) : Z :=
  fexp prec emax (Zdigits2 (quotient mx ex mc ec) + e_div mx ex mc ec).

End Quotients.

(** * Proofs *)

(** ** Binary64 facts *)

Module FloatFacts.

(** The specification view of a primitive float determines it. *)
Lemma Prim2SF_inj (x y : float) : Prim2SF x = Prim2SF y → x = y.
Proof.
  intros H. rewrite <- (SF2Prim_Prim2SF x), <- (SF2Prim_Prim2SF y).
  by rewrite H.
Qed.

Lemma SFcompare_refl_finite s m e :
  SFcompare (S754_finite s m e) (S754_finite s m e) = Some Eq.
Proof.
  simpl. rewrite Z.compare_refl.
  assert (Pos.compare_cont Eq m m = Eq) as -> by apply Pos.compare_refl.
  by destruct s.
Qed.

(** [x == x] unless [x] is not a number. *)
Lemma SFeqb_refl (x : spec_float) : x ≠ S754_nan → SFeqb x x = true.
Proof.
  destruct x as [s|s| |s m e]; intros H; try done.
  - by destruct s.
  - unfold SFeqb. by rewrite SFcompare_refl_finite.
Qed.

Lemma is_nan_spec (x : float) : is_nan x = true ↔ Prim2SF x = S754_nan.
Proof.
  unfold is_nan. rewrite FloatAxioms.eqb_spec. split.
  - intros H. destruct (Prim2SF x) as [s|s| |s m e] eqn:E; try done;
      rewrite SFeqb_refl in H; done.
  - by intros ->.
Qed.

(** Adding a float to zero leaves the same number. *)
Lemma add_zero_l (x : float) : same_number (0 + x) x = true.
Proof.
  unfold same_number.
  destruct (is_nan x) eqn:E.
  - apply is_nan_spec in E.
    assert (is_nan (0 + x) = true) as ->.
    { apply is_nan_spec. rewrite FloatAxioms.add_spec, E. reflexivity. }
    apply orb_true_iff; by right.
  - rewrite FloatAxioms.eqb_spec, FloatAxioms.add_spec.
    assert (Prim2SF x ≠ S754_nan) as Hx.
    { intros H. pose proof (proj2 (is_nan_spec x) H). congruence. }
    change (Prim2SF 0) with (S754_zero false).
    destruct (Prim2SF x) as [s|s| |s m e] eqn:Ex; try done.
    + by destruct s.
    + by destruct s.
    + unfold SF64add, SFadd, SFeqb. by rewrite SFcompare_refl_finite.
Qed.

Lemma SFeqb_sym (x y : spec_float) : SFeqb x y = SFeqb y x.
Proof.
  unfold SFeqb.
  destruct x as [s|s| |s m e], y as [s'|s'| |s' m' e']; try done;
    try (by destruct s); try (by destruct s'); try (by destruct s, s').
  destruct s, s'; simpl; try done;
    change (Pos.compare_cont Eq m' m) with (Pos.compare m' m);
    change (Pos.compare_cont Eq m m') with (Pos.compare m m');
    rewrite (Z.compare_antisym e e'), (Pos.compare_antisym m m');
    destruct (e ?= e')%Z; simpl; try done;
    destruct (m ?= m')%positive; done.
Qed.

Lemma same_number_sym (x y : float) : same_number x y = same_number y x.
Proof.
  unfold same_number.
  by rewrite !FloatAxioms.eqb_spec, SFeqb_sym, (andb_comm (is_nan x)).
Qed.

(** The sum of a single number is that number. *)
Lemma py_sum_singleton (x : float) : same_number x (py_sum [x]) = true.
Proof. rewrite same_number_sym. apply add_zero_l. Qed.

(** A positive float is not zero, so dividing by it raises nothing. *)
Lemma positive_nonzero (c : float) : (0 <? c)%float = true → (c =? 0)%float = false.
Proof.
  rewrite FloatAxioms.ltb_spec, FloatAxioms.eqb_spec. change (Prim2SF 0) with (S754_zero false).
  destruct (Prim2SF c) as [s|s| |s m e]; try done; by destruct s.
Qed.

Lemma negative_nonzero (c : float) : (c <? 0)%float = true → (c =? 0)%float = false.
Proof.
  rewrite FloatAxioms.ltb_spec, FloatAxioms.eqb_spec. change (Prim2SF 0) with (S754_zero false).
  destruct (Prim2SF c) as [s|s| |s m e]; try done; by destruct s.
Qed.

(** Zero divided by a positive float is zero. *)
Lemma zero_div_positive (c : float) : (0 <? c)%float = true → (0 / c = 0)%float.
Proof.
  intros H. apply Prim2SF_inj. rewrite FloatAxioms.div_spec.
  rewrite FloatAxioms.ltb_spec in H. change (Prim2SF 0) with (S754_zero false) in *.
  destruct (Prim2SF c) as [s|s| |s m e]; try done; by destruct s.
Qed.

(** Two floats that are the same number and are numbers are equal as [==]
    has it. *)
Lemma same_number_eqb (x y : float) :
  same_number x y = true → is_nan x = false → (x =? y)%float = true.
Proof.
  unfold same_number. intros H Hn. rewrite Hn in H. by rewrite orb_false_r in H.
Qed.

(** The shape of a finite float. *)
Lemma is_finite_spec (x : float) :
  is_finite x = true ↔
  match Prim2SF x with
  | S754_zero _ | S754_finite _ _ _ => True
  | _ => False
  end.
Proof.
  unfold is_finite, is_infinity.
  rewrite negb_true_iff, orb_false_iff, FloatAxioms.eqb_spec, abs_spec.
  change (Prim2SF infinity) with (S754_infinity false).
  destruct (is_nan x) eqn:En.
  - apply is_nan_spec in En. rewrite En. intuition discriminate.
  - assert (Prim2SF x ≠ S754_nan) as Hn.
    { intros H. pose proof (proj2 (is_nan_spec x) H). congruence. }
    destruct (Prim2SF x) as [s|s| |s m e]; try done; simpl; intuition discriminate.
Qed.

Lemma zero_eqb (x : float) : is_zero_float x → (x =? 0)%float = true.
Proof.
  intros [s Hs]. rewrite FloatAxioms.eqb_spec, Hs.
  change (Prim2SF 0) with (S754_zero false). by destruct s.
Qed.

(** A finite float times a zero is a zero, on either side. *)
Lemma finite_mul_zero (x y : float) :
  is_finite x = true → is_zero_float y → is_zero_float (x * y).
Proof.
  intros Hx [s Hs]. apply is_finite_spec in Hx. unfold is_zero_float.
  rewrite FloatAxioms.mul_spec, Hs.
  destruct (Prim2SF x) as [s'|s'| |s' m e]; try done; simpl; eauto.
Qed.

Lemma zero_mul_finite (x y : float) :
  is_zero_float x → is_finite y = true → is_zero_float (x * y).
Proof.
  intros [s Hs] Hy. apply is_finite_spec in Hy. unfold is_zero_float.
  rewrite FloatAxioms.mul_spec, Hs.
  destruct (Prim2SF y) as [s'|s'| |s' m e]; try done; simpl; eauto.
Qed.

End FloatFacts.

(** ** Binary64 rounding *)

Module RoundingFacts.
Import Rounding.
#[local] Open Scope Z_scope.

Lemma iter_pos_nat {A} (f : A → A) (p : positive) (x : A) :
  SpecFloat.iter_pos f p x = Nat.iter (Pos.to_nat p) f x.
Proof.
  revert x. induction p as [p IH|p IH|]; intros x; cbn [SpecFloat.iter_pos].
  - rewrite !IH, Pos2Nat.inj_xI, Nat.iter_succ_r.
    replace (2 * Pos.to_nat p)%nat with (Pos.to_nat p + Pos.to_nat p)%nat by lia.
    by rewrite Nat.iter_add.
  - rewrite !IH, Pos2Nat.inj_xO.
    replace (2 * Pos.to_nat p)%nat with (Pos.to_nat p + Pos.to_nat p)%nat by lia.
    by rewrite Nat.iter_add.
  - done.
Qed.

(** One step of the shift halves the mantissa, keeps the bit that falls
    off, and remembers the bits that fell off before. *)
Lemma shr_1_spec (m : Z) (r s : bool) :
  0 ≤ m →
  shr_1 {| shr_m := m; shr_r := r; shr_s := s |}
  = {| shr_m := Z.div2 m; shr_r := Z.odd m; shr_s := r || s |}.
Proof. intros Hm. destruct m as [|[p|p|]|p]; simpl; try done; lia. Qed.

Lemma shifted_first (v : Z) :
  0 ≤ v → shifted 1 v (shr_1 {| shr_m := v; shr_r := false; shr_s := false |}).
Proof.
  intros Hv. rewrite shr_1_spec by done.
  exists 0, (Z.odd v). simpl. repeat split; try done.
  rewrite Z.mul_1_r, Z.add_0_l, Z.add_comm. apply Z.div2_odd.
Qed.

Lemma shifted_nonneg k v mrs : 1 ≤ k → 0 ≤ v → shifted k v mrs → 0 ≤ shr_m mrs.
Proof.
  intros Hk Hv (l & b & Hl & -> & _ & _).
  assert (0 < 2 ^ (k - 1)) by (apply Z.pow_pos_nonneg; lia).
  destruct (Z.le_gt_cases 0 (shr_m mrs)) as [|Hneg]; [done|].
  assert (Z.b2z b ≤ 1) by (by destruct b).
  nia.
Qed.

Lemma shifted_step k v mrs :
  1 ≤ k → 0 ≤ v → shifted k v mrs → shifted (k + 1) v (shr_1 mrs).
Proof.
  intros Hk Hv Hs. pose proof (shifted_nonneg k v mrs Hk Hv Hs) as Hm.
  destruct Hs as (l & b & Hl & Hvl & Hr & Hss).
  destruct mrs as [m r s]. cbn [shr_m shr_r shr_s] in *. rewrite shr_1_spec by done.
  exists (l + Z.b2z b * 2 ^ (k - 1)), (Z.odd m). simpl.
  replace (k + 1 - 1) with (Z.succ (k - 1)) by lia.
  rewrite Z.pow_succ_r by lia.
  assert (0 < 2 ^ (k - 1)) by (apply Z.pow_pos_nonneg; lia).
  pose proof (Z.div2_odd m) as Hdiv. subst r s.
  repeat split.
  - destruct b; simpl; lia.
  - destruct b; simpl; lia.
  - rewrite Hvl. rewrite Hdiv at 1. ring.
  - destruct b; simpl.
    + symmetry. apply negb_true_iff, Z.eqb_neq. lia.
    + by rewrite Z.add_0_r.
Qed.

(** After [k] steps the record describes the shift by [k] bits. *)
Lemma shifted_iter (k : nat) (v : Z) :
  0 ≤ v →
  shifted (Z.of_nat (S k)) v
    (Nat.iter (S k) shr_1 {| shr_m := v; shr_r := false; shr_s := false |}).
Proof.
  intros Hv. induction k as [|k IH].
  - by apply shifted_first.
  - replace (Z.of_nat (S (S k))) with (Z.of_nat (S k) + 1) by lia.
    rewrite Nat.iter_succ. apply shifted_step; [lia|done|done].
Qed.

(** The shifted mantissa, rounded by what the record remembers, is the
    integer rounding of the quotient. *)
Lemma shifted_round k v mrs :
  1 ≤ k → 0 ≤ v → shifted k v mrs →
  round_nearest_even (shr_m mrs) (loc_of_shr_record mrs) = rne v k.
Proof.
  intros Hk Hv (l & b & Hl & Hvl & Hr & Hs).
  destruct mrs as [m r s]. simpl in *. subst r s.
  assert (0 < 2 ^ (k - 1)) as Hp by (apply Z.pow_pos_nonneg; lia).
  assert (2 ^ k = 2 * 2 ^ (k - 1)) as Hk2.
  { replace k with (Z.succ (k - 1)) at 1 by lia. by rewrite Z.pow_succ_r by lia. }
  assert (Z.b2z b ≤ 1 ∧ 0 ≤ Z.b2z b) as Hb by (by destruct b).
  assert (v = m * 2 ^ k + (l + Z.b2z b * 2 ^ (k - 1))) as Hdm by (rewrite Hvl, Hk2; ring).
  assert (0 ≤ l + Z.b2z b * 2 ^ (k - 1) < 2 ^ k) as Hrem by (destruct b; simpl in *; lia).
  unfold rne.
  rewrite <- (Z.div_unique v (2 ^ k) m _ (or_introl Hrem)) by (rewrite Hdm; ring).
  rewrite <- (Z.mod_unique v (2 ^ k) m _ (or_introl Hrem)) by (rewrite Hdm; ring).
  destruct b; simpl.
  - destruct (l =? 0) eqn:El; simpl.
    + apply Z.eqb_eq in El. subst l.
      assert ((2 * (0 + 1 * 2 ^ (k - 1)) ?= 2 ^ k) = Eq) as -> by (apply Z.compare_eq_iff; lia).
      done.
    + apply Z.eqb_neq in El.
      assert ((2 * (l + 1 * 2 ^ (k - 1)) ?= 2 ^ k) = Gt) as -> by (apply Z.compare_gt_iff; lia).
      done.
  - assert ((2 * (l + 0 * 2 ^ (k - 1)) ?= 2 ^ k) = Lt) as -> by (apply Z.compare_lt_iff; lia).
    by destruct (l =? 0).
Qed.

(** *** Integer rounding *)

Lemma rne_0 (v : Z) : rne v 0 = v.
Proof.
  unfold rne. rewrite Z.pow_0_r, Z.div_1_r, Z.mod_1_r. done.
Qed.

(** The rounded quotient is the quotient or its successor. *)
Lemma rne_bounds (v n : Z) : v / 2 ^ n ≤ rne v n ≤ v / 2 ^ n + 1.
Proof.
  unfold rne. destruct (2 * (v mod 2 ^ n) ?= 2 ^ n); [destruct (Z.even _)|..]; lia.
Qed.

(** Rounding does not depend on the scale the value is written at. *)
Lemma rne_scale (v n k : Z) : 0 ≤ n → 0 ≤ k → rne (v * 2 ^ k) (n + k) = rne v n.
Proof.
  intros Hn Hk. unfold rne.
  assert (0 < 2 ^ k) by (apply Z.pow_pos_nonneg; lia).
  assert (0 < 2 ^ n) by (apply Z.pow_pos_nonneg; lia).
  rewrite Z.pow_add_r by done.
  rewrite Z.div_mul_cancel_r by lia.
  rewrite Z.mul_mod_distr_r by lia.
  replace (2 * (v mod 2 ^ n * 2 ^ k)) with (2 * (v mod 2 ^ n) * 2 ^ k) by ring.
  rewrite <- Zmult_compare_compat_r by lia. done.
Qed.

(** Rounding is monotone. *)
Lemma rne_mono (v1 v2 n : Z) : 0 ≤ n → v1 ≤ v2 → rne v1 n ≤ rne v2 n.
Proof.
  intros Hn Hv.
  assert (0 < 2 ^ n) as Hp by (apply Z.pow_pos_nonneg; lia).
  pose proof (Z.div_le_mono v1 v2 (2 ^ n) Hp Hv) as Hq.
  destruct (Z.eq_dec (v1 / 2 ^ n) (v2 / 2 ^ n)) as [Heq|Hne].
  - pose proof (Z.div_mod v1 (2 ^ n) ltac:(lia)) as H1.
    pose proof (Z.div_mod v2 (2 ^ n) ltac:(lia)) as H2.
    assert (v1 mod 2 ^ n ≤ v2 mod 2 ^ n) as Hr by (rewrite Heq in H1; lia).
    unfold rne. rewrite Heq.
    destruct (Z.compare_spec (2 * (v1 mod 2 ^ n)) (2 ^ n));
      destruct (Z.compare_spec (2 * (v2 mod 2 ^ n)) (2 ^ n));
      destruct (Z.even (v2 / 2 ^ n)); lia.
  - pose proof (rne_bounds v1 n). pose proof (rne_bounds v2 n). lia.
Qed.

(** *** The number of digits of a mantissa *)

Lemma digits2_bounds (p : positive) :
  2 ^ (Z.pos (digits2_pos p) - 1) ≤ Z.pos p < 2 ^ Z.pos (digits2_pos p).
Proof.
  induction p as [p IH|p IH|]; cbn [digits2_pos].
  - rewrite Pos2Z.inj_succ, (Pos2Z.inj_xI p).
    replace (Z.succ (Z.pos (digits2_pos p)) - 1) with (Z.succ (Z.pos (digits2_pos p) - 1)) by lia.
    rewrite !Z.pow_succ_r by lia. lia.
  - rewrite Pos2Z.inj_succ, (Pos2Z.inj_xO p).
    replace (Z.succ (Z.pos (digits2_pos p)) - 1) with (Z.succ (Z.pos (digits2_pos p) - 1)) by lia.
    rewrite !Z.pow_succ_r by lia. lia.
  - done.
Qed.

(** A positive number below [2^k] has at most [k] digits, and one that
    is at least [2^k] has more. *)
Lemma digits2_le (p : positive) (k : Z) :
  0 ≤ k → Z.pos p < 2 ^ k → Z.pos (digits2_pos p) ≤ k.
Proof.
  intros Hk Hp. pose proof (digits2_bounds p) as [Hlo _].
  destruct (Z.le_gt_cases (Z.pos (digits2_pos p)) k) as [|Hgt]; [done|].
  assert (2 ^ k ≤ 2 ^ (Z.pos (digits2_pos p) - 1)) by (apply Z.pow_le_mono_r; lia).
  lia.
Qed.

Lemma digits2_gt (p : positive) (k : Z) :
  2 ^ k ≤ Z.pos p → k < Z.pos (digits2_pos p).
Proof.
  intros Hp. pose proof (digits2_bounds p) as [_ Hhi].
  destruct (Z.lt_ge_cases k (Z.pos (digits2_pos p))) as [|Hge]; [done|].
  assert (2 ^ Z.pos (digits2_pos p) ≤ 2 ^ k) by (apply Z.pow_le_mono_r; lia).
  lia.
Qed.

(** *** Rounding a mantissa to binary64 *)

Lemma fexp64_eq (e : Z) : fexp prec emax e = Z.max (e - 53) (-1074).
Proof. reflexivity. Qed.

(** The first shift of the rounding: to the exponent of the binade, the
    mantissa rounded there being the integer rounding. *)
Lemma shr_fexp_round (M : positive) (E : Z) :
  E ≤ fexp prec emax (Z.pos (digits2_pos M) + E) →
  ∃ mrs,
    shr_fexp prec emax (Z.pos M) E loc_Exact
      = (mrs, fexp prec emax (Z.pos (digits2_pos M) + E))
    ∧ round_nearest_even (shr_m mrs) (loc_of_shr_record mrs)
      = rne (Z.pos M) (fexp prec emax (Z.pos (digits2_pos M) + E) - E).
Proof.
  intros Hpre. unfold shr_fexp. cbn [Zdigits2 shr_record_of_loc].
  set (e' := fexp prec emax (Z.pos (digits2_pos M) + E)) in *.
  unfold shr. destruct (e' - E) as [|n|n] eqn:En; [| |lia].
  - eexists. split; [f_equal; lia|]. by rewrite rne_0.
  - eexists. split; [f_equal; lia|].
    rewrite iter_pos_nat.
    destruct (Pos2Nat.is_succ n) as [k Hk]. rewrite Hk.
    rewrite <- (positive_nat_Z n), Hk.
    apply shifted_round; [lia|lia|]. by apply shifted_iter.
Qed.

(** The rounded mantissa has at most 53 bits, or is [2^53]; above the
    smallest exponent it has all of its bits. *)
Lemma rne_mantissa_bounds (M : positive) (E : Z) :
  let e' := fexp prec emax (Z.pos (digits2_pos M) + E) in
  E ≤ e' →
  0 ≤ rne (Z.pos M) (e' - E) ≤ 2 ^ 53
  ∧ (-1074 < e' → 2 ^ 52 ≤ rne (Z.pos M) (e' - E)).
Proof.
  intros e' Hpre. subst e'. rewrite fexp64_eq in *.
  set (D := Z.pos (digits2_pos M)) in *.
  set (n := Z.max (D + E - 53) (-1074) - E) in *.
  pose proof (digits2_bounds M) as [Hlo Hhi]. fold D in Hlo, Hhi.
  assert (0 ≤ n) as Hn by lia.
  assert (0 < 2 ^ n) as Hp by (apply Z.pow_pos_nonneg; lia).
  pose proof (rne_bounds (Z.pos M) n) as [Hq1 Hq2].
  assert (0 ≤ Z.pos M / 2 ^ n) by (apply Z.div_pos; lia).
  assert (Z.pos M / 2 ^ n < 2 ^ 53) as Hq.
  { apply Z.div_lt_upper_bound; [done|].
    rewrite <- Z.pow_add_r by lia.
    assert (2 ^ D ≤ 2 ^ (n + 53)) by (apply Z.pow_le_mono_r; lia). lia. }
  split; [lia|]. intros He.
  assert (n = D - 53) as Hn' by lia.
  assert (2 ^ 52 ≤ Z.pos M / 2 ^ n); [|lia].
  apply Z.div_le_lower_bound; [done|].
  rewrite <- Z.pow_add_r by lia.
  replace (n + 52) with (D - 1) by lia. done.
Qed.

(** What rounding a mantissa at an exponent returns, when the mantissa
    needs no shift to the left. *)
Lemma binary_round_aux_exact (s : bool) (M : positive) (E : Z) :
  let e' := fexp prec emax (Z.pos (digits2_pos M) + E) in
  E ≤ e' →
  binary_round_aux prec emax s (Z.pos M) E loc_Exact
  = round_result s (rne (Z.pos M) (e' - E)) e'.
Proof.
  intros e' Hpre.
  destruct (rne_mantissa_bounds M E Hpre) as [Hb _]. fold e' in Hb.
  destruct (shr_fexp_round M E Hpre) as (mrs & Hshr & Hround). fold e' in Hshr, Hround.
  unfold binary_round_aux. rewrite Hshr, Hround.
  set (m1 := rne (Z.pos M) (e' - E)) in *.
  assert (-1074 ≤ e') as He by (unfold e'; rewrite fexp64_eq; lia).
  unfold round_result, shr_fexp. cbn [shr_record_of_loc].
  destruct (Z.eqb_spec m1 0) as [->|Hm0].
  - cbn [Zdigits2]. rewrite fexp64_eq. unfold shr.
    destruct (Z.max (0 + e' - 53) (-1074) - e') eqn:En; [done| lia |done].
  - destruct (Z.eqb_spec m1 (2 ^ 53)) as [->|Hm53].
    + change (Zdigits2 (2 ^ 53)) with 54. rewrite fexp64_eq.
      replace (Z.max (54 + e' - 53) (-1074) - e') with 1 by lia.
      reflexivity.
    + destruct m1 as [|p|p]; [done| |lia]. cbn [Zdigits2].
      assert (Z.pos (digits2_pos p) ≤ 53) by (apply digits2_le; lia).
      rewrite fexp64_eq. unfold shr.
      destruct (Z.max (Z.pos (digits2_pos p) + e' - 53) (-1074) - e') eqn:En;
        [done| lia |done].
Qed.

(** *** Rounding is monotone *)

Lemma SFleb_finite (a b : positive) (ea eb : Z) :
  ea < eb ∨ (ea = eb ∧ (a ≤ b)%positive) →
  SFleb (S754_finite false a ea) (S754_finite false b eb) = true.
Proof.
  unfold SFleb, SFcompare. intros [Hlt|[-> Hle]].
  - apply Z.compare_lt_iff in Hlt. by rewrite Hlt.
  - rewrite Z.compare_refl.
    change (Pos.compare_cont Eq a b) with (a ?= b)%positive.
    destruct (Pos.compare_spec a b); [done|done|lia].
Qed.

(** Two rounded mantissas in the order of their binades, and of their
    values within a binade, stand for floats in that order. *)
Lemma round_result_le (m1 e1 m2 e2 : Z) :
  0 ≤ m1 ≤ 2 ^ 53 → 0 ≤ m2 ≤ 2 ^ 53 →
  (-1074 < e2 → 2 ^ 52 ≤ m2) →
  -1074 ≤ e1 →
  e1 < e2 ∨ (e1 = e2 ∧ m1 ≤ m2) →
  SFleb (round_result false m1 e1) (round_result false m2 e2) = true.
Proof.
  intros Hm1 Hm2 Hnorm He1 Hord. unfold round_result.
  assert (2 ^ 52 < 2 ^ 53) as Hpow by done.
  assert (0 < 2 ^ 52) as Hpow' by done.
  destruct (Z.eqb_spec m1 0) as [->|Hz1].
  { repeat case_match; done. }
  destruct (Z.eqb_spec m2 0) as [->|Hz2]; [lia|].
  destruct (Z.eqb_spec m1 (2 ^ 53)) as [->|Hc1];
    destruct (Z.eqb_spec m2 (2 ^ 53)) as [->|Hc2];
    repeat (match goal with
            | |- context [(?a <=? ?b)] => destruct (Z.leb_spec a b)
            end);
    try done; try lia;
    apply SFleb_finite; lia.
Qed.

(** The exponent of the binade grows with the value. *)
Lemma binade_mono (M1 M2 : positive) (E1 E2 : Z) :
  value_le (Z.pos M1) E1 (Z.pos M2) E2 →
  Z.pos (digits2_pos M1) + E1 ≤ Z.pos (digits2_pos M2) + E2.
Proof.
  unfold value_le. intros Hv.
  set (K := Z.min E1 E2) in *.
  set (D1 := Z.pos (digits2_pos M1)). set (D2 := Z.pos (digits2_pos M2)).
  pose proof (digits2_bounds M1) as [Hlo1 _]. pose proof (digits2_bounds M2) as [_ Hhi2].
  fold D1 in Hlo1. fold D2 in Hhi2.
  destruct (Z.le_gt_cases (D1 + E1) (D2 + E2)) as [|Hgt]; [done|exfalso].
  assert (0 < 2 ^ (E1 - K)) by (apply Z.pow_pos_nonneg; lia).
  assert (0 < 2 ^ (E2 - K)) by (apply Z.pow_pos_nonneg; lia).
  assert (2 ^ (D1 - 1) * 2 ^ (E1 - K) ≤ Z.pos M1 * 2 ^ (E1 - K)) as H1 by nia.
  assert (Z.pos M2 * 2 ^ (E2 - K) < 2 ^ D2 * 2 ^ (E2 - K)) as H2 by nia.
  rewrite <- Z.pow_add_r in H1 by lia. rewrite <- Z.pow_add_r in H2 by lia.
  assert (2 ^ (D2 + (E2 - K)) ≤ 2 ^ (D1 - 1 + (E1 - K))) by (apply Z.pow_le_mono_r; lia).
  lia.
Qed.

(** Rounding to binary64 is monotone in the value rounded. *)
Lemma binary_round_aux_mono (M1 M2 : positive) (E1 E2 : Z) :
  E1 ≤ fexp prec emax (Z.pos (digits2_pos M1) + E1) →
  E2 ≤ fexp prec emax (Z.pos (digits2_pos M2) + E2) →
  value_le (Z.pos M1) E1 (Z.pos M2) E2 →
  SFleb (binary_round_aux prec emax false (Z.pos M1) E1 loc_Exact)
        (binary_round_aux prec emax false (Z.pos M2) E2 loc_Exact) = true.
Proof.
  intros Hpre1 Hpre2 Hv.
  rewrite !binary_round_aux_exact by done.
  destruct (rne_mantissa_bounds M1 E1 Hpre1) as [Hb1 _].
  destruct (rne_mantissa_bounds M2 E2 Hpre2) as [Hb2 Hn2].
  pose proof (binade_mono M1 M2 E1 E2 Hv) as Hd.
  set (e1 := fexp prec emax (Z.pos (digits2_pos M1) + E1)) in *.
  set (e2 := fexp prec emax (Z.pos (digits2_pos M2) + E2)) in *.
  assert (-1074 ≤ e1) by (unfold e1; rewrite fexp64_eq; lia).
  assert (e1 ≤ e2) as He by (unfold e1, e2; rewrite !fexp64_eq; lia).
  apply round_result_le; try done.
  destruct (Z.eq_dec e1 e2) as [Heq|Hne]; [right|left; lia].
  split; [done|]. rewrite <- Heq.
  unfold value_le in Hv. set (K := Z.min E1 E2) in *.
  rewrite <- (rne_scale (Z.pos M1) (e1 - E1) (E1 - K)) by lia.
  rewrite <- (rne_scale (Z.pos M2) (e1 - E2) (E2 - K)) by lia.
  replace (e1 - E1 + (E1 - K)) with (e1 - K) by lia.
  replace (e1 - E2 + (E2 - K)) with (e1 - K) by lia.
  apply rne_mono; [lia|done].
Qed.

(** *** Multiplication *)

(** The mantissa and exponent of a valid finite float: at most 53 bits, all
    of them above the smallest exponent. *)
Lemma valid_finite (s : bool) (m : positive) (e : Z) :
  valid_binary (S754_finite s m e) = true →
  e = Z.max (Z.pos (digits2_pos m) + e - 53) (-1074) ∧ e ≤ 971.
Proof.
  unfold valid_binary, bounded, canonical_mantissa.
  rewrite andb_true_iff, Z.eqb_eq, Z.leb_le, fexp64_eq.
  change (emax - prec) with 971. lia.
Qed.

Lemma valid_mantissa_bounds (s : bool) (m : positive) (e : Z) :
  valid_binary (S754_finite s m e) = true →
  Z.pos m < 2 ^ 53 ∧ (-1074 < e → 2 ^ 52 ≤ Z.pos m).
Proof.
  intros [He _]%valid_finite. pose proof (digits2_bounds m) as [Hlo Hhi].
  set (D := Z.pos (digits2_pos m)) in *. split.
  - assert (2 ^ D ≤ 2 ^ 53) by (apply Z.pow_le_mono_r; lia). lia.
  - intros Hn. by replace 52 with (D - 1) by lia.
Qed.

(** The product of two valid mantissas needs no shift to the left before
    it is rounded. *)
Lemma mul_no_left_shift (s1 s2 : bool) (m1 m2 : positive) (e1 e2 : Z) :
  valid_binary (S754_finite s1 m1 e1) = true →
  valid_binary (S754_finite s2 m2 e2) = true →
  e1 + e2 ≤ fexp prec emax (Z.pos (digits2_pos (m1 * m2)) + (e1 + e2)).
Proof.
  intros [H1 _]%valid_finite [H2 _]%valid_finite. rewrite fexp64_eq.
  pose proof (digits2_bounds m1) as [Hlo1 _]. pose proof (digits2_bounds m2) as [Hlo2 _].
  set (D1 := Z.pos (digits2_pos m1)) in *. set (D2 := Z.pos (digits2_pos m2)) in *.
  assert (1 ≤ D1) by (unfold D1; lia). assert (1 ≤ D2) by (unfold D2; lia).
  assert (D1 + D2 - 2 < Z.pos (digits2_pos (m1 * m2))) as HD.
  { apply digits2_gt. rewrite Pos2Z.inj_mul.
    replace (D1 + D2 - 2) with ((D1 - 1) + (D2 - 1)) by lia.
    rewrite Z.pow_add_r by lia.
    assert (0 < 2 ^ (D1 - 1)) by (apply Z.pow_pos_nonneg; lia).
    assert (0 < 2 ^ (D2 - 1)) by (apply Z.pow_pos_nonneg; lia).
    nia. }
  lia.
Qed.

(** The order of two valid positive floats is the order of their values,
    and multiplying both by a mantissa and shifting both exponents keeps
    it. *)
Lemma value_le_mul (m1 m2 mc : positive) (e1 e2 ec : Z) :
  valid_binary (S754_finite false m1 e1) = true →
  valid_binary (S754_finite false m2 e2) = true →
  SFleb (S754_finite false m1 e1) (S754_finite false m2 e2) = true →
  value_le (Z.pos (m1 * mc)) (e1 + ec) (Z.pos (m2 * mc)) (e2 + ec).
Proof.
  intros Hv1 Hv2 Hle.
  destruct (valid_mantissa_bounds _ _ _ Hv1) as [Hhi1 _].
  destruct (valid_mantissa_bounds _ _ _ Hv2) as [_ Hlo2].
  destruct (valid_finite _ _ _ Hv1) as [He1 _].
  unfold SFleb, SFcompare in Hle. unfold value_le. rewrite !Pos2Z.inj_mul.
  destruct (Z.compare_spec e1 e2) as [->|Hlt|Hgt]; [| |done].
  - change (Pos.compare_cont Eq m1 m2) with (m1 ?= m2)%positive in Hle.
    rewrite Z.min_id, Z.sub_diag, Z.pow_0_r.
    destruct (Pos.compare_spec m1 m2); [nia|nia|done].
  - rewrite Z.min_l by lia. rewrite Z.sub_diag, Z.pow_0_r.
    replace (e2 + ec - (e1 + ec)) with (Z.succ (e2 - e1 - 1)) by lia.
    rewrite Z.pow_succ_r by lia.
    assert (0 < 2 ^ (e2 - e1 - 1)) by (apply Z.pow_pos_nonneg; lia).
    assert (2 ^ 52 ≤ Z.pos m2) as Hm2 by (apply Hlo2; lia).
    change (2 ^ 53) with (2 * 2 ^ 52) in Hhi1.
    generalize dependent (2 ^ 52). generalize dependent (2 ^ (e2 - e1 - 1)).
    intros P HP T HT1 HT2.
    assert (Z.pos m1 ≤ Z.pos m2 * (2 * P)) as Hm by nia.
    pose proof (Z.mul_le_mono_nonneg_r _ _ (Z.pos mc) ltac:(lia) Hm). lia.
Qed.

(** A rounded mantissa stands for a float that is zero or positive. *)
Lemma round_result_nonneg (m e : Z) :
  0 ≤ m → SFleb (S754_zero false) (round_result false m e) = true.
Proof. intros Hm. unfold round_result. repeat case_match; done. Qed.

Lemma round_result_le_infinity (m e : Z) :
  SFleb (round_result false m e) (S754_infinity false) = true.
Proof. unfold round_result. repeat case_match; done. Qed.

(** Multiplying by a positive finite float keeps the order of two floats
    that are zero or positive, and keeps them so. *)
Lemma SFmul_mono (x1 x2 : spec_float) (mc : positive) (ec : Z) :
  valid_binary x1 = true →
  valid_binary x2 = true →
  valid_binary (S754_finite false mc ec) = true →
  SFleb (S754_zero false) x1 = true →
  SFleb x1 x2 = true →
  SFleb (SFmul prec emax x1 (S754_finite false mc ec))
        (SFmul prec emax x2 (S754_finite false mc ec)) = true
  ∧ SFleb (S754_zero false) (SFmul prec emax x1 (S754_finite false mc ec)) = true.
Proof.
  intros Hv1 Hv2 Hvc H0 Hle.
  assert (∀ s m e, valid_binary (S754_finite s m e) = true →
            binary_round_aux prec emax false (Z.pos (m * mc)) (e + ec) loc_Exact
            = round_result false
                (rne (Z.pos (m * mc))
                   (fexp prec emax (Z.pos (digits2_pos (m * mc)) + (e + ec)) - (e + ec)))
                (fexp prec emax (Z.pos (digits2_pos (m * mc)) + (e + ec)))
            ∧ 0 ≤ rne (Z.pos (m * mc))
                    (fexp prec emax (Z.pos (digits2_pos (m * mc)) + (e + ec)) - (e + ec)))
    as Hshape.
  { intros s m e Hv. pose proof (mul_no_left_shift _ _ _ _ _ _ Hv Hvc) as Hpre.
    split; [by apply binary_round_aux_exact|].
    by destruct (rne_mantissa_bounds _ _ Hpre) as [[? _] _]. }
  destruct x1 as [s1|s1| |s1 m1 e1], x2 as [s2|s2| |s2 m2 e2];
    try done; try (by destruct s1); try (by destruct s2);
    try (by destruct s1, s2); cbn [SFmul xorb].
  - (* zero, finite *)
    destruct s2; [by destruct s1|]. cbn [xorb].
    destruct (Hshape _ _ _ Hv2) as [-> Hn].
    split; [|by destruct s1]. destruct s1; by apply round_result_nonneg.
  - (* finite, infinity *)
    destruct s1; [done|]. destruct s2; [done|]. cbn [xorb].
    destruct (Hshape _ _ _ Hv1) as [-> Hn].
    split; [apply round_result_le_infinity|by apply round_result_nonneg].
  - (* finite, finite *)
    destruct s1; [done|]. destruct s2; [done|]. cbn [xorb].
    split.
    + apply binary_round_aux_mono; try by eapply mul_no_left_shift.
      by apply value_le_mul.
    + destruct (Hshape _ _ _ Hv1) as [-> Hn]. by apply round_result_nonneg.
Qed.

(** *** On primitive floats *)

(** Multiplying by a positive finite float keeps the order of two floats
    that are zero or positive, and keeps them so. *)
Lemma mul_le_mono (x1 x2 c : float) :
  (0 <=? x1)%float = true → (x1 <=? x2)%float = true →
  (0 <? c)%float = true → is_finite c = true →
  (x1 * c <=? x2 * c)%float = true ∧ (0 <=? x1 * c)%float = true.
Proof.
  rewrite !FloatAxioms.leb_spec, FloatAxioms.ltb_spec, !FloatAxioms.mul_spec.
  change (Prim2SF 0) with (S754_zero false).
  intros H0 Hle Hc Hfin. apply FloatFacts.is_finite_spec in Hfin.
  pose proof (Prim2SF_valid c) as Hvc.
  destruct (Prim2SF c) as [sc|sc| |sc mc ec]; try done.
  destruct sc; [done|].
  apply SFmul_mono; auto using Prim2SF_valid.
Qed.

(** Below a finite float, the floats that are zero or positive are
    finite. *)
Lemma nonneg_le_finite (x y : float) :
  (0 <=? x)%float = true → (x <=? y)%float = true →
  is_finite y = true → is_finite x = true.
Proof.
  rewrite !FloatAxioms.leb_spec, !FloatFacts.is_finite_spec.
  change (Prim2SF 0) with (S754_zero false).
  destruct (Prim2SF x) as [s|s| |s m e], (Prim2SF y) as [s'|s'| |s' m' e'];
    try done; by destruct s.
Qed.

Lemma zero_leb_zero (x y : float) :
  is_zero_float x → is_zero_float y → (x <=? y)%float = true.
Proof. intros [s Hs] [s' Hs']. by rewrite FloatAxioms.leb_spec, Hs, Hs'. Qed.

End RoundingFacts.

(** ** The emission calculator *)

Module EmissionProps.
Import EmissionCalculator FloatFacts Properties.

Lemma string_app_length (s t : string) :
  String.length (s +:+ t) = String.length s + String.length t.
Proof. induction s as [|c s IH]; simpl; [done|]. by rewrite IH. Qed.

(** A common suffix can be cancelled. *)
Lemma string_app_inj_r (t s1 s2 : string) : s1 +:+ t = s2 +:+ t → s1 = s2.
Proof.
  revert s2. induction s1 as [|c s1 IH]; intros [|c' s2] H.
  - done.
  - apply (f_equal String.length) in H.
    rewrite !string_app_length in H. simpl in H. lia.
  - apply (f_equal String.length) in H.
    rewrite !string_app_length in H. simpl in H. lia.
  - simpl in H. injection H as -> H. f_equal. by apply IH.
Qed.

(** The table lookup under the key [f"{fuel_type}_truck"], with its
    default, is the factor table of the specification. *)
Lemma emission_factor_lookup (fuel : string) :
  default 0%float (emission_factors !! (fuel +:+ "_truck")) = Spec.emission_factor fuel.
Proof.
  unfold Spec.emission_factor, emission_factors.
  destruct (decide (fuel = "diesel")) as [->|Hd]; [done|].
  rewrite lookup_insert_ne
    by (intros H; apply Hd; symmetry; exact (string_app_inj_r "_truck" "diesel" fuel H)).
  destruct (decide (fuel = "electric")) as [->|He]; [done|].
  rewrite lookup_insert_ne
    by (intros H; apply He; symmetry; exact (string_app_inj_r "_truck" "electric" fuel H)).
  destruct (decide (fuel = "hybrid")) as [->|Hh]; [done|].
  rewrite lookup_singleton_ne
    by (intros H; apply Hh; symmetry; exact (string_app_inj_r "_truck" "hybrid" fuel H)).
  done.
Qed.

Lemma dict_get_float_dict (m : gmap string float) (key : string) :
  dict_get (float_dict m) key (PyNum 0) = Ok (PyNum (Spec.metric m key)).
Proof.
  unfold dict_get, float_dict, Spec.metric. rewrite lookup_fmap.
  by destruct (m !! key).
Qed.

(** On a mapping of numbers the weather adjustment raises nothing and is
    the multiplier of the specification. *)
Lemma weather_factor_float_dict (m : gmap string float) :
  weather_factor (float_dict m)
  = Ok (Spec.weather_multiplier (Spec.metric m "precipitation") (Spec.metric m "wind_speed")).
Proof.
  unfold weather_factor. rewrite !dict_get_float_dict. simpl.
  unfold Spec.weather_multiplier.
  by destruct (0 <? Spec.metric m "precipitation")%float,
              (20 <? Spec.metric m "wind_speed")%float.
Qed.

(** The four values the weather multiplier takes. *)
Lemma weather_multiplier_cases (p w : float) :
  Spec.weather_multiplier p w ∈ [1.0; 1.1; 1.15; 1.265]%float.
Proof.
  unfold Spec.weather_multiplier.
  destruct (0 <? p)%float, (20 <? w)%float.
  - assert (1.0 * 1.10 * 1.15 = 1.265)%float as -> by reflexivity. set_solver.
  - assert (1.0 * 1.10 = 1.1)%float as -> by reflexivity. set_solver.
  - assert (1.0 * 1.15 = 1.15)%float as -> by reflexivity. set_solver.
  - set_solver.
Qed.

Lemma load_factor_nonzero (vehicle : Vehicle) :
  (cargo_capacity vehicle =? 0)%float = false →
  load_factor vehicle = Ok (Spec.load_multiplier vehicle).
Proof. intros H. unfold load_factor, float_div. by rewrite H. Qed.

Lemma load_factor_zero (vehicle : Vehicle) :
  (cargo_capacity vehicle =? 0)%float = true →
  load_factor vehicle = Raise ZeroDivisionError.
Proof. intros H. unfold load_factor, float_div. by rewrite H. Qed.

(** With a non-zero capacity and a mapping of numbers, the calculator
    returns the product of the specification. *)
Lemma calculate_emissions_nonzero (vehicle : Vehicle) (distance : float)
    (weather : gmap string float) :
  (cargo_capacity vehicle =? 0)%float = false →
  calculate_emissions vehicle distance (float_dict weather)
  = Ok (Spec.emissions vehicle distance weather).
Proof.
  intros H. unfold calculate_emissions, base_emission.
  rewrite weather_factor_float_dict, (load_factor_nonzero _ H), emission_factor_lookup.
  reflexivity.
Qed.

End EmissionProps.

Module EmissionTheorems.
Import EmissionCalculator FloatFacts RoundingFacts Properties EmissionProps.

(** C1 fails at an electric truck of positive capacity: over an infinite
    distance, and over 100 km under a load whose ratio to the capacity
    overflows, the product has a factor 0 and an infinite factor, and is
    not a number instead of 0. *)
Lemma electric_zero_counterexample :
  (0 <? cargo_capacity Sample.electric_truck)%float = true
  ∧ (0 <=? infinity)%float = true
  ∧ calculate_emissions Sample.electric_truck infinity (float_dict ∅) = Ok nan
  ∧ (0 <? cargo_capacity Sample.overloaded_electric_truck)%float = true
  ∧ (0 <=? 100)%float = true
  ∧ calculate_emissions Sample.overloaded_electric_truck 100 (float_dict ∅) = Ok nan
  ∧ (nan =? 0)%float = false.
Proof. repeat apply conj; vm_compute; reflexivity. Qed.

(** C1, as the code has it.  For every vehicle with a positive cargo
    capacity, every distance at least 0 and every weather mapping,
    [calculate_emissions] returns
    distance_km * emission_factor(fuel_type) * weather_multiplier *
    (1.0 + (current_load / cargo_capacity) * 0.2), the factor table being
    diesel 0.9, electric 0.0, hybrid 0.6 and 0 for any other fuel type.  In
    particular a diesel truck over 100 km, with no weather adjustment (no
    precipitation above 0, no wind speed above 20) and no load, yields
    exactly 90 kg; and an electric truck yields 0 kg over every finite
    distance, provided that the load multiplier is finite as well. *)
Theorem calculate_emissions_formula (vehicle : Vehicle) (distance_km : float)
    (weather : gmap string float) :
  (0 <? cargo_capacity vehicle)%float = true →
  (0 <=? distance_km)%float = true →
  calculate_emissions vehicle distance_km (float_dict weather)
    = Ok (distance_km * Spec.emission_factor (fuel_type vehicle)
          * Spec.weather_multiplier (Spec.metric weather "precipitation")
                                    (Spec.metric weather "wind_speed")
          * (1.0 + (current_load vehicle / cargo_capacity vehicle) * 0.2))%float
  ∧ Spec.emission_factor "diesel" = 0.9%float
  ∧ Spec.emission_factor "electric" = 0.0%float
  ∧ Spec.emission_factor "hybrid" = 0.6%float
  ∧ (fuel_type vehicle ∉ ["diesel"; "electric"; "hybrid"] →
     Spec.emission_factor (fuel_type vehicle) = 0%float)
  ∧ (fuel_type vehicle = "diesel" → distance_km = 100%float →
     (0 <? Spec.metric weather "precipitation")%float = false →
     (20 <? Spec.metric weather "wind_speed")%float = false →
     current_load vehicle = 0%float →
     calculate_emissions vehicle distance_km (float_dict weather) = Ok 90%float)
  ∧ (fuel_type vehicle = "electric" → is_finite distance_km = true →
     is_finite (Spec.load_multiplier vehicle) = true →
     ∃ e, calculate_emissions vehicle distance_km (float_dict weather) = Ok e
          ∧ (e =? 0)%float = true).
Proof.
  intros Hcap Hd.
  pose proof (calculate_emissions_nonzero vehicle distance_km weather
                (positive_nonzero _ Hcap)) as Hcalc.
  split; [exact Hcalc|].
  do 3 (split; [reflexivity|]).
  split; [|split].
  - intros Hother. unfold Spec.emission_factor.
    repeat case_decide; try done; set_solver.
  - intros Hfuel -> Hp Hw Hload. rewrite Hcalc.
    unfold Spec.emissions, Spec.weather_multiplier, Spec.load_multiplier.
    rewrite Hfuel, Hp, Hw, Hload, (zero_div_positive _ Hcap). reflexivity.
  - intros Hfuel Hfin Hlfin. eexists; split; [exact Hcalc|].
    unfold Spec.emissions. rewrite Hfuel. apply zero_eqb.
    apply zero_mul_finite; [|done].
    apply zero_mul_finite.
    + apply finite_mul_zero; [done|]. by exists false.
    + pose proof (weather_multiplier_cases (Spec.metric weather "precipitation")
                    (Spec.metric weather "wind_speed")) as Hc.
      repeat (apply elem_of_cons in Hc as [->|Hc]; [reflexivity|]).
      by apply elem_of_nil in Hc.
Qed.

(** C1, at a diesel truck with no load, 100 km and no weather readings, and
    at an electric truck. *)
Lemma calculate_emissions_formula_witness :
  calculate_emissions
    {| id := "T1"; type := "truck"; fuel_type := "diesel"; fuel_efficiency := 8;
       cargo_capacity := 1000; current_load := 0 |} 100 (float_dict ∅) = Ok 90%float
  ∧ ∃ e, calculate_emissions
           {| id := "T2"; type := "truck"; fuel_type := "electric"; fuel_efficiency := 8;
              cargo_capacity := 1000; current_load := 500 |} 250 (float_dict ∅) = Ok e
         ∧ (e =? 0)%float = true.
Proof.
  split.
  - apply (calculate_emissions_formula
             {| id := "T1"; type := "truck"; fuel_type := "diesel"; fuel_efficiency := 8;
                cargo_capacity := 1000; current_load := 0 |} 100 ∅);
      reflexivity.
  - apply (calculate_emissions_formula
             {| id := "T2"; type := "truck"; fuel_type := "electric"; fuel_efficiency := 8;
                cargo_capacity := 1000; current_load := 500 |} 250 ∅);
      reflexivity.
Defined.

(** C6.  The weather multiplier starts at 1.0, is multiplied by 1.10 when
    precipitation > 0 and by 1.15 when wind_speed > 20, the two composing
    by multiplication: at precipitation 5 and wind speed 25 the multiplier
    applied to the base emission is exactly 1.10 * 1.15 = 1.265, and at
    precipitation 0 and wind speed 0 it is exactly 1.0; a missing key
    counts as 0. *)
Theorem weather_multiplier_composition (weather : gmap string float)
    (vehicle : Vehicle) (distance : float) :
  let precipitation := default 0%float (weather !! "precipitation") in
  let wind_speed := default 0%float (weather !! "wind_speed") in
  weather_factor (float_dict weather)
    = Ok (let m := 1.0 in
          let m := if 0 <? precipitation then m * 1.10 else m in
          if 20 <? wind_speed then m * 1.15 else m)%float
  ∧ (1.0 * 1.10 * 1.15 = 1.265)%float
  ∧ (1.10 * 1.15 = 1.265)%float
  ∧ (precipitation = 5%float → wind_speed = 25%float →
     weather_factor (float_dict weather) = Ok 1.265%float
     ∧ ∀ lf, load_factor vehicle = Ok lf →
         calculate_emissions vehicle distance (float_dict weather)
         = Ok (base_emission vehicle distance * 1.265 * lf)%float)
  ∧ (precipitation = 0%float → wind_speed = 0%float →
     weather_factor (float_dict weather) = Ok 1.0%float
     ∧ ∀ lf, load_factor vehicle = Ok lf →
         calculate_emissions vehicle distance (float_dict weather)
         = Ok (base_emission vehicle distance * 1.0 * lf)%float).
Proof.
  intros precipitation wind_speed.
  pose proof (weather_factor_float_dict weather) as Hw.
  fold precipitation wind_speed in Hw. unfold Spec.metric in Hw.
  fold precipitation wind_speed in Hw.
  split; [exact Hw|]. do 2 (split; [reflexivity|]).
  split; intros Hp Hs; rewrite Hp, Hs in Hw.
  - split; [exact Hw|]. intros l Hl.
    unfold calculate_emissions. by rewrite Hw, Hl.
  - split; [exact Hw|]. intros l Hl.
    unfold calculate_emissions. by rewrite Hw, Hl.
Qed.

(** C6, at precipitation 5 and wind speed 25, and at a mapping without
    either key. *)
Lemma weather_multiplier_composition_witness :
  weather_factor (float_dict {[ "precipitation" := 5%float; "wind_speed" := 25%float ]})
    = Ok 1.265%float
  ∧ weather_factor (float_dict ∅) = Ok 1.0%float.
Proof.
  split.
  - apply (weather_multiplier_composition
             {[ "precipitation" := 5%float; "wind_speed" := 25%float ]}
             {| id := "T1"; type := "truck"; fuel_type := "diesel"; fuel_efficiency := 8;
                cargo_capacity := 1000; current_load := 0 |} 100); reflexivity.
  - apply (weather_multiplier_composition ∅
             {| id := "T1"; type := "truck"; fuel_type := "diesel"; fuel_efficiency := 8;
                cargo_capacity := 1000; current_load := 0 |} 100); reflexivity.
Defined.

(** C4 fails at a vehicle whose cargo capacity is zero, where the division
    raises [ZeroDivisionError], and at one whose capacity is negative,
    where the load multiplier is computed from the negative ratio. *)
Lemma capacity_guard_counterexample :
  ¬ capacity_guarded
      {| id := "T3"; type := "truck"; fuel_type := "diesel"; fuel_efficiency := 8;
         cargo_capacity := 0; current_load := 500 |} 100 (float_dict ∅)
  ∧ ¬ capacity_guarded
      {| id := "T4"; type := "truck"; fuel_type := "diesel"; fuel_efficiency := 8;
         cargo_capacity := -1000; current_load := 500 |} 100 (float_dict ∅).
Proof. split; intros [H|H]; vm_compute in H; discriminate H. Qed.

(** C4, as the code has it.  With a cargo capacity of zero the division
    raises [ZeroDivisionError], unguarded; with a negative capacity nothing
    is raised and the load multiplier is the same 1.0 + (current_load /
    cargo_capacity) * 0.2, on the negative ratio. *)
Theorem nonpositive_capacity_unguarded (vehicle : Vehicle) (distance : float)
    (weather : gmap string float) :
  ((cargo_capacity vehicle =? 0)%float = true →
   calculate_emissions vehicle distance (float_dict weather) = Raise ZeroDivisionError)
  ∧ ((cargo_capacity vehicle <? 0)%float = true →
     calculate_emissions vehicle distance (float_dict weather)
     = Ok (distance * Spec.emission_factor (fuel_type vehicle)
           * Spec.weather_multiplier (Spec.metric weather "precipitation")
                                     (Spec.metric weather "wind_speed")
           * (1.0 + (current_load vehicle / cargo_capacity vehicle) * 0.2))%float).
Proof.
  split; intros H.
  - unfold calculate_emissions.
    by rewrite weather_factor_float_dict, (load_factor_zero _ H).
  - apply calculate_emissions_nonzero. by apply negative_nonzero.
Qed.

(** C4 as the code has it, at the two vehicles above. *)
Lemma nonpositive_capacity_unguarded_witness :
  calculate_emissions
    {| id := "T3"; type := "truck"; fuel_type := "diesel"; fuel_efficiency := 8;
       cargo_capacity := 0; current_load := 500 |} 100 (float_dict ∅)
    = Raise ZeroDivisionError
  ∧ calculate_emissions
      {| id := "T4"; type := "truck"; fuel_type := "diesel"; fuel_efficiency := 8;
         cargo_capacity := -1000; current_load := 500 |} 100 (float_dict ∅)
    = Ok 81%float.
Proof.
  split.
  - apply (proj1 (nonpositive_capacity_unguarded
             {| id := "T3"; type := "truck"; fuel_type := "diesel"; fuel_efficiency := 8;
                cargo_capacity := 0; current_load := 500 |} 100 ∅)).
    reflexivity.
  - etrans.
    + apply (proj2 (nonpositive_capacity_unguarded
               {| id := "T4"; type := "truck"; fuel_type := "diesel"; fuel_efficiency := 8;
                  cargo_capacity := -1000; current_load := 500 |} 100 ∅)).
      reflexivity.
    + vm_compute. reflexivity.
Defined.

(** The weather multiplier is positive and finite. *)
Lemma weather_multiplier_positive (p w : float) :
  (0 <? Spec.weather_multiplier p w)%float = true
  ∧ is_finite (Spec.weather_multiplier p w) = true.
Proof.
  pose proof (weather_multiplier_cases p w) as Hc.
  repeat (apply elem_of_cons in Hc as [->|Hc]; [done|]).
  by apply elem_of_nil in Hc.
Qed.

(** C7 fails at a vehicle whose load multiplier is negative, where a longer
    distance gives a smaller emission, and at a vehicle whose cargo
    capacity is zero, where no emission is returned. *)
Lemma nondecreasing_counterexample :
  ¬ nondecreasing_in_distance
      {| id := "T5"; type := "truck"; fuel_type := "diesel"; fuel_efficiency := 8;
         cargo_capacity := 1000; current_load := -6000 |} (float_dict ∅)
  ∧ ¬ nondecreasing_in_distance
      {| id := "T3"; type := "truck"; fuel_type := "diesel"; fuel_efficiency := 8;
         cargo_capacity := 0; current_load := 500 |} (float_dict ∅).
Proof.
  split; intros H; destruct (H 1%float 2%float eq_refl eq_refl) as (e1 & e2 & H1 & H2 & Hle).
  - vm_compute in H1, H2. injection H1 as <-. injection H2 as <-.
    vm_compute in Hle. discriminate Hle.
  - vm_compute in H1. discriminate H1.
Qed.

(** C7, as the code has it.  For a vehicle whose load multiplier
    1.0 + (current_load / cargo_capacity) * 0.2 is defined, positive and
    finite, and a fixed weather mapping, [calculate_emissions] is
    non-decreasing in the distance: for finite distances d1 and d2 with
    0 <= d1 <= d2 the emission over d1 is at most the emission over d2. *)
Theorem emissions_nondecreasing_in_distance (vehicle : Vehicle)
    (weather : gmap string float) (d1 d2 lf : float) :
  load_factor vehicle = Ok lf →
  (0 <? lf)%float = true → is_finite lf = true →
  (0 <=? d1)%float = true → (d1 <=? d2)%float = true → is_finite d2 = true →
  ∃ e1 e2,
    calculate_emissions vehicle d1 (float_dict weather) = Ok e1
    ∧ calculate_emissions vehicle d2 (float_dict weather) = Ok e2
    ∧ (e1 <=? e2)%float = true.
Proof.
  intros Hlf Hpos Hfin H0 Hle Hfin2.
  unfold calculate_emissions, base_emission.
  rewrite weather_factor_float_dict, Hlf, emission_factor_lookup. simpl.
  eexists _, _. split; [done|]. split; [done|].
  set (wm := Spec.weather_multiplier _ _).
  destruct (weather_multiplier_positive (Spec.metric weather "precipitation")
              (Spec.metric weather "wind_speed")) as [Hwpos Hwfin]. fold wm in Hwpos, Hwfin.
  assert (∀ f, (0 <? f)%float = true → is_finite f = true →
               (d1 * f * wm * lf <=? d2 * f * wm * lf)%float = true) as Hpositive.
  { intros f Hf Hffin.
    destruct (mul_le_mono d1 d2 f H0 Hle Hf Hffin) as [Ha Ha0].
    destruct (mul_le_mono _ _ wm Ha0 Ha Hwpos Hwfin) as [Hb Hb0].
    by destruct (mul_le_mono _ _ lf Hb0 Hb Hpos Hfin) as [Hc _]. }
  assert (∀ f, is_zero_float f →
               (d1 * f * wm * lf <=? d2 * f * wm * lf)%float = true) as Hzero.
  { intros f Hf.
    pose proof (nonneg_le_finite d1 d2 H0 Hle Hfin2) as Hfin1.
    apply zero_leb_zero;
      (apply zero_mul_finite; [apply zero_mul_finite; [by apply finite_mul_zero|done]|done]). }
  unfold Spec.emission_factor. repeat case_decide.
  - by apply Hpositive.
  - apply Hzero. by exists false.
  - by apply Hpositive.
  - apply Hzero. by exists false.
Qed.

(** C7 as the code has it, at a half-loaded diesel truck in the rain. *)
Lemma emissions_nondecreasing_in_distance_witness :
  ∃ e1 e2,
    calculate_emissions
      {| id := "T1"; type := "truck"; fuel_type := "diesel"; fuel_efficiency := 8;
         cargo_capacity := 1000; current_load := 500 |} 12.5
      (float_dict {[ "precipitation" := 3%float ]}) = Ok e1
    ∧ calculate_emissions
        {| id := "T1"; type := "truck"; fuel_type := "diesel"; fuel_efficiency := 8;
           cargo_capacity := 1000; current_load := 500 |} 80
        (float_dict {[ "precipitation" := 3%float ]}) = Ok e2
    ∧ (e1 <=? e2)%float = true.
Proof.
  apply (emissions_nondecreasing_in_distance
           {| id := "T1"; type := "truck"; fuel_type := "diesel"; fuel_efficiency := 8;
              cargo_capacity := 1000; current_load := 500 |}
           {[ "precipitation" := 3%float ]} 12.5 80 (1.0 + (500 / 1000) * 0.2));
    reflexivity.
Defined.

End EmissionTheorems.

(** ** The route optimizer *)

Module OptimizerProps.
Import EmissionCalculator RouteOptimizer Trace Properties FloatFacts EmissionProps.

Lemma last_cons {A} (l : list A) (a b : A) : List.last (a :: l) b = List.last l a.
Proof.
  revert a b. induction l as [|x l IH]; intros a b; [done|].
  change (List.last (a :: x :: l) b) with (List.last (x :: l) b).
  by rewrite !IH.
Qed.

(** *** The pure part of an iteration *)

Lemma result_bind_Ok {A B} (r : result A) (f : A → result B) b :
  r ≫= f = Ok b ↔ ∃ a, r = Ok a ∧ f a = Ok b.
Proof.
  destruct r as [a|e]; simpl; split.
  - intros H. by exists a.
  - by intros (a' & [= ->] & H).
  - done.
  - by intros (a' & [=] & _).
Qed.

Lemma result_bind_Raise {A B} (r : result A) (f : A → result B) e :
  r ≫= f = Raise e ↔ r = Raise e ∨ ∃ a, r = Ok a ∧ f a = Raise e.
Proof.
  destruct r as [a|e']; simpl; split.
  - intros H. right. by exists a.
  - intros [[=]|(a' & [= ->] & H)]. done.
  - intros [= ->]. by left.
  - intros [[= ->]|(a' & [=] & _)]. done.
Qed.

Lemma result_bind_eq {A B} (r : result A) (f : A → result B) a :
  r = Ok a → r ≫= f = f a.
Proof. by intros ->. Qed.

(** What a route that was built holds: the three fields of the traffic
    summary, the emission computed from them, and the weather and air
    entries, around a single segment. *)
Lemma build_route_Ok vehicle cur d traffic_data weather_data r :
  build_route vehicle cur d traffic_data weather_data = Ok r ↔
  ∃ dist dur delay weather e air,
    summary_field traffic_data "lengthInMeters" 1000 = Ok dist ∧
    summary_field traffic_data "travelTimeInSeconds" 60 = Ok dur ∧
    summary_field traffic_data "trafficDelayInSeconds" 60 = Ok delay ∧
    subscript_key weather_data "weather" = Ok weather ∧
    calculate_emissions vehicle dist weather = Ok e ∧
    subscript_key weather_data "air" = Ok air ∧
    r = {| segments := [ {| seg_start := cur; seg_end := d; distance := dist;
                            duration := dur; traffic_delay := delay;
                            emissions := e |} ];
           total_distance := dist;
           total_duration := dur;
           total_emissions := e;
           weather_conditions := weather;
           air_quality := air |}.
Proof.
  unfold build_route. split.
  - intros H.
    apply result_bind_Ok in H as (dist & Hdist & H).
    apply result_bind_Ok in H as (dur & Hdur & H).
    apply result_bind_Ok in H as (delay & Hdelay & H).
    apply result_bind_Ok in H as (weather & Hweather & H).
    apply result_bind_Ok in H as (e & He & H).
    apply result_bind_Ok in H as (weather' & Hweather' & H).
    apply result_bind_Ok in H as (air & Hair & H).
    injection H as <-.
    rewrite Hweather in Hweather'. injection Hweather' as <-.
    by exists dist, dur, delay, weather, e, air.
  - intros (dist & dur & delay & weather & e & air & H1 & H2 & H3 & Hw & He & Ha & ->).
    rewrite (result_bind_eq _ _ _ H1), (result_bind_eq _ _ _ H2),
      (result_bind_eq _ _ _ H3), (result_bind_eq _ _ _ Hw).
    cbn [Models.distance]. rewrite (result_bind_eq _ _ _ He),
      (result_bind_eq _ _ _ Hw), (result_bind_eq _ _ _ Ha).
    reflexivity.
Qed.

Lemma subscript_key_builtin v k e : subscript_key v k = Raise e → builtin e.
Proof. destruct v; simpl; repeat case_match; by intros [= <-]. Qed.

Lemma subscript_0_builtin v e : subscript_0 v = Raise e → builtin e.
Proof. destruct v; simpl; repeat case_match; by intros [= <-]. Qed.

Lemma true_div_builtin v y e : true_div v y = Raise e → builtin e.
Proof.
  unfold true_div, float_div. repeat case_match; by intros [= <-].
Qed.

Lemma dict_get_builtin v k dflt e : dict_get v k dflt = Raise e → builtin e.
Proof. destruct v; simpl; by intros [= <-]. Qed.

Lemma py_gt_builtin v y e : py_gt v y = Raise e → builtin e.
Proof. unfold py_gt. case_match; by intros [= <-]. Qed.

Create HintDb raises discriminated.
#[local] Hint Resolve subscript_key_builtin subscript_0_builtin true_div_builtin
  dict_get_builtin py_gt_builtin : raises.

(** In a sequence that raises, find the step that did: each step before
    the last is settled by the lemmas of [raises]. *)
Ltac raising_step H :=
  repeat (apply result_bind_Raise in H as [H|(? & _ & H)];
          [by eauto with raises|]).

Lemma summary_field_builtin traffic_data field divisor e :
  summary_field traffic_data field divisor = Raise e → builtin e.
Proof. unfold summary_field. intros H. raising_step H. eauto with raises. Qed.

Lemma weather_factor_builtin weather e : weather_factor weather = Raise e → builtin e.
Proof. unfold weather_factor. intros H. raising_step H. done. Qed.

Lemma load_factor_builtin vehicle e : load_factor vehicle = Raise e → builtin e.
Proof.
  unfold load_factor, float_div. intros H.
  apply result_bind_Raise in H as [H|(? & _ & H)]; [|done].
  case_match; [|done]. by injection H as <-.
Qed.

#[local] Hint Resolve weather_factor_builtin load_factor_builtin : raises.

Lemma calculate_emissions_builtin vehicle distance weather e :
  calculate_emissions vehicle distance weather = Raise e → builtin e.
Proof. unfold calculate_emissions. intros H. raising_step H. done. Qed.

#[local] Hint Resolve summary_field_builtin calculate_emissions_builtin : raises.

(** Building a route raises nothing but the exceptions of the lookups and
    of the arithmetic it performs. *)
Lemma build_route_builtin vehicle cur d traffic_data weather_data e :
  build_route vehicle cur d traffic_data weather_data = Raise e → builtin e.
Proof.
  unfold build_route. intros H. raising_step H. done.
Qed.

(** A field of a readable traffic payload is read without error. *)
Lemma summary_field_readable traffic_data field divisor :
  readable_traffic traffic_data →
  field ∈ ["lengthInMeters"; "travelTimeInSeconds"; "trafficDelayInSeconds"] →
  (divisor =? 0)%float = false →
  ∃ x, summary_field traffic_data field divisor = Ok x.
Proof.
  intros (p & r & others & s & -> & Hp & Hr & Hs) Hf Hdiv.
  destruct (Hs field Hf) as (v & Hv & [x Hx]).
  exists (x / divisor)%float.
  unfold summary_field. simpl. rewrite Hp. simpl. rewrite Hr. simpl. rewrite Hv. simpl.
  unfold true_div, float_div. by rewrite Hx, Hdiv.
Qed.

(** From readable payloads, and with a non-zero cargo capacity, a route is
    built. *)
Lemma build_route_readable vehicle cur d traffic_data weather_data :
  readable_traffic traffic_data →
  readable_weather weather_data →
  (cargo_capacity vehicle =? 0)%float = false →
  ∃ r, build_route vehicle cur d traffic_data weather_data = Ok r.
Proof.
  intros Ht (p & w & air & -> & Hw & [pr Hpr] & [ws Hws] & Hair) Hcap.
  destruct (summary_field_readable traffic_data "lengthInMeters" 1000 Ht) as [dist Hdist];
    [set_solver|done|].
  destruct (summary_field_readable traffic_data "travelTimeInSeconds" 60 Ht) as [dur Hdur];
    [set_solver|done|].
  destruct (summary_field_readable traffic_data "trafficDelayInSeconds" 60 Ht)
    as [delay Hdelay]; [set_solver|done|].
  assert (∃ e, calculate_emissions vehicle dist (PyDict w) = Ok e) as [e He].
  { unfold calculate_emissions, weather_factor. simpl.
    unfold reading in Hpr, Hws. unfold py_gt. rewrite Hpr. simpl. rewrite Hws. simpl.
    rewrite (load_factor_nonzero _ Hcap). simpl. eauto. }
  eexists. apply build_route_Ok. exists dist, dur, delay, (PyDict w), e, air.
  simpl. rewrite Hw, Hair. done.
Qed.

Section Run.
Context {World : Type} (self : RouteOptimizer World) (vehicle : Vehicle).

(** Sequencing completes exactly when both parts do. *)
Lemma bind_Ok {A B} (m : M World A) (f : A → M World B) σ b σ' :
  (m ≫= f) σ = (Ok b, σ') ↔ ∃ a σ1, m σ = (Ok a, σ1) ∧ f a σ1 = (Ok b, σ').
Proof.
  unfold mbind, M_bind. destruct (m σ) as [[a|e] σ1]; split.
  - intros H. by exists a, σ1.
  - by intros (a' & σ1' & [= -> ->] & H).
  - done.
  - by intros (a' & σ1' & [=] & _).
Qed.

(** What an iteration does: it asks the traffic provider, then the weather
    provider, and builds the route from their answers; an exception of
    either provider or of the construction is its outcome. *)
Lemma route_to_unfold cur d (σ : state World) :
  route_to self vehicle cur d σ =
  match traffic_api self cur d (world σ) with
  | (Raise e, w1) =>
      (Raise e, {| world := w1; lookups := lookups σ ++ [TrafficLookup cur d] |})
  | (Ok traffic_data, w1) =>
      match weather_api self d w1 with
      | (Raise e, w2) =>
          (Raise e, {| world := w2;
                       lookups := lookups σ ++ [TrafficLookup cur d; WeatherLookup d] |})
      | (Ok weather_data, w2) =>
          (build_route vehicle cur d traffic_data weather_data,
           {| world := w2;
              lookups := lookups σ ++ [TrafficLookup cur d; WeatherLookup d] |})
      end
  end.
Proof.
  unfold route_to, mbind, M_bind, traffic_get_data, weather_get_data, lift.
  destruct (traffic_api self cur d (world σ)) as [[td|e] w1]; [|done]. simpl.
  destruct (weather_api self d w1) as [[wd|e] w2]; rewrite <- app_assoc; done.
Qed.

(** The loop completes exactly along a chain of completed iterations, and
    appends their routes in order. *)
Lemma optimize_loop_Ok cur destinations acc σ routes σ' :
  optimize_loop self vehicle cur destinations acc σ = (Ok routes, σ') ↔
  ∃ new, routes = acc ++ new ∧ completes self vehicle cur destinations σ new σ'.
Proof.
  revert cur acc σ. induction destinations as [|d rest IH]; intros cur acc σ; simpl.
  - split.
    + intros [= <- <-]. exists []. split; [by rewrite app_nil_r|constructor].
    + intros (new & -> & Hc). inversion Hc; subst. by rewrite app_nil_r.
  - rewrite bind_Ok. split.
    + intros (r & σ1 & Hr & Hloop). apply IH in Hloop as (new & -> & Hc).
      exists (r :: new). split; [by rewrite <- app_assoc|].
      by econstructor.
    + intros (new & -> & Hc). inversion Hc; subst.
      eexists _, _. split; [done|]. apply IH.
      eexists. split; [|done]. by rewrite <- app_assoc.
Qed.

Lemma optimize_route_Ok start destinations σ routes σ' :
  optimize_route self vehicle start destinations σ = (Ok routes, σ') ↔
  completes self vehicle start destinations σ routes σ'.
Proof.
  unfold optimize_route. rewrite optimize_loop_Ok. split.
  - by intros (new & -> & H).
  - intros H. by exists routes.
Qed.

(** After iterations that complete, the loop goes on from where they
    ended. *)
Lemma optimize_loop_app cur done_ d rest acc σ new σ1 :
  completes self vehicle cur done_ σ new σ1 →
  optimize_loop self vehicle cur (done_ ++ d :: rest) acc σ
  = optimize_loop self vehicle (List.last done_ cur) (d :: rest) (acc ++ new) σ1.
Proof.
  intros Hc. revert acc.
  induction Hc as [|cur d0 rest0 σ r σ1 rs σ2 Hr Hc IH]; intros acc.
  - by rewrite app_nil_r.
  - change ((d0 :: rest0) ++ d :: rest) with (d0 :: (rest0 ++ d :: rest)).
    cbn [optimize_loop]. unfold mbind at 1, M_bind at 1. rewrite Hr.
    by rewrite IH, <- app_assoc, last_cons.
Qed.


(** A completed iteration issued both of its lookups. *)
Lemma route_to_Ok cur d (σ : state World) r σ1 :
  route_to self vehicle cur d σ = (Ok r, σ1) →
  ∃ traffic_data w1 weather_data,
    traffic_api self cur d (world σ) = (Ok traffic_data, w1) ∧
    weather_api self d w1 = (Ok weather_data, world σ1) ∧
    lookups σ1 = lookups σ ++ [TrafficLookup cur d; WeatherLookup d] ∧
    build_route vehicle cur d traffic_data weather_data = Ok r.
Proof.
  rewrite route_to_unfold.
  destruct (traffic_api self cur d (world σ)) as [[td|e] w1]; [|done].
  destruct (weather_api self d w1) as [[wd|e] w2] eqn:Ew; [|done].
  intros [= H <-]. by exists td, w1, wd.
Qed.


Lemma completes_length cur destinations σ new σ' :
  completes self vehicle cur destinations σ new σ' →
  length new = length destinations.
Proof. induction 1; simpl; congruence. Qed.

(** The i-th route of a completed run was built for the i-th leg, from
    what the two providers answered for it. *)
Lemma completes_lookup cur destinations σ new σ' i r :
  completes self vehicle cur destinations σ new σ' →
  new !! i = Some r →
  ∃ leg traffic_data weather_data w w1 w2,
    consecutive_pairs cur destinations !! i = Some leg ∧
    traffic_api self leg.1 leg.2 w = (Ok traffic_data, w1) ∧
    weather_api self leg.2 w1 = (Ok weather_data, w2) ∧
    build_route vehicle leg.1 leg.2 traffic_data weather_data = Ok r.
Proof.
  intros Hc. revert i. induction Hc as [|cur d rest σ r0 σ1 rs σ2 Hr _ IH]; intros i Hi.
  - done.
  - destruct i as [|i]; simpl in *.
    + injection Hi as ->. apply route_to_Ok in Hr as (td & w1 & wd & Ht & Hw & _ & Hb).
      by exists (cur, d), td, wd, (world σ), w1, (world σ1).
    + by apply IH.
Qed.


(** With providers that always answer, and readably, and a non-zero cargo
    capacity, the loop completes. *)
Lemma optimize_loop_completes cur destinations (σ : state World) :
  (∀ s e w, ∃ payload w', traffic_api self s e w = (Ok payload, w')
                          ∧ readable_traffic payload) →
  (∀ l w, ∃ payload w', weather_api self l w = (Ok payload, w')
                        ∧ readable_weather payload) →
  (cargo_capacity vehicle =? 0)%float = false →
  ∃ new σ', completes self vehicle cur destinations σ new σ'.
Proof.
  intros Ht Hw Hcap. revert cur σ.
  induction destinations as [|d rest IH]; intros cur σ.
  - eexists _, _. constructor.
  - destruct (Ht cur d (world σ)) as (td & w1 & Etd & Rtd).
    destruct (Hw d w1) as (wd & w2 & Ewd & Rwd).
    destruct (build_route_readable vehicle cur d td wd Rtd Rwd Hcap) as [r Hr].
    destruct (IH d {| world := w2;
                      lookups := lookups σ ++ [TrafficLookup cur d; WeatherLookup d] |})
      as (new & σ' & Hc).
    exists (r :: new), σ'. econstructor; [|exact Hc].
    by rewrite route_to_unfold, Etd, Ewd, Hr.
Qed.

End Run.
End OptimizerProps.

Module OptimizerTheorems.
Import EmissionCalculator ApiClients RouteOptimizer Trace Properties Sample.
Import FloatFacts EmissionProps OptimizerProps.

(** C9.  On an empty sequence of destinations [optimize_route] returns an
    empty list of routes and leaves the state as it was: no lookup is
    issued and neither provider is called. *)
Theorem optimize_route_empty {World} (self : RouteOptimizer World)
    (vehicle : Vehicle) (start : Location) (σ : state World) :
  optimize_route self vehicle start [] σ = (Ok [], σ).
Proof. reflexivity. Qed.

(** C2 fails at a route whose total is not a number, which [==] holds to
    differ from every number and from itself: the total distance and the
    total emissions of the route for a traffic response of length NaN, and
    the total emissions of the route of an electric truck whose load
    multiplier overflows. *)
Lemma route_totals_counterexample :
  (∃ σ' route,
     optimize_route (optimizer (answering nan_length) offline) diesel_truck depot
       [stop1] fresh = (Ok [route], σ')
     ∧ (total_distance route =? py_sum (distance <$> segments route))%float = false
     ∧ (total_emissions route =? py_sum (emissions <$> segments route))%float = false)
  ∧ (∃ σ' route,
       optimize_route (optimizer offline offline) overloaded_electric_truck depot
         [stop1] fresh = (Ok [route], σ')
       ∧ (total_emissions route =? py_sum (emissions <$> segments route))%float = false).
Proof.
  split.
  - eexists _, _. split; [vm_compute; reflexivity|]. split; vm_compute; reflexivity.
  - eexists _, _. split; [vm_compute; reflexivity|]. vm_compute; reflexivity.
Qed.

(** C2, as the code has it.  For every route [optimize_route] produces,
    the total distance and the sum of the distances of its segments are
    the same number, and so are the total duration and the sum of their
    durations, and the total emissions and the sum of their emissions:
    total and sum are equal as [==] has it whenever the total is a number,
    and the sum is not a number when the total is not. *)
Theorem route_totals_are_segment_sums {World} (self : RouteOptimizer World)
    (vehicle : Vehicle) (start : Location) (destinations : list Location)
    (σ σ' : state World) (routes : list Route) (route : Route) :
  optimize_route self vehicle start destinations σ = (Ok routes, σ') →
  route ∈ routes →
  same_number (total_distance route) (py_sum (distance <$> segments route)) = true
  ∧ same_number (total_duration route) (py_sum (duration <$> segments route)) = true
  ∧ same_number (total_emissions route) (py_sum (emissions <$> segments route)) = true
  ∧ (is_nan (total_distance route) = false →
     (total_distance route =? py_sum (distance <$> segments route))%float = true)
  ∧ (is_nan (total_duration route) = false →
     (total_duration route =? py_sum (duration <$> segments route))%float = true)
  ∧ (is_nan (total_emissions route) = false →
     (total_emissions route =? py_sum (emissions <$> segments route))%float = true).
Proof.
  intros Hrun Hin. apply optimize_route_Ok in Hrun.
  apply list_elem_of_lookup in Hin as [i Hi].
  destruct (completes_lookup _ _ _ _ _ _ _ _ _ Hrun Hi)
    as (leg & td & wd & ? & ? & ? & _ & _ & _ & Hb).
  apply build_route_Ok in Hb
    as (dist & dur & delay & weather & e & air & _ & _ & _ & _ & _ & _ & ->).
  simpl. repeat split; auto using py_sum_singleton, same_number_eqb.
Qed.

(** C2, at the first route of the run over three stops with both
    providers on their fallback data. *)
Lemma route_totals_are_segment_sums_witness :
  ∃ routes σ' route,
    optimize_route (optimizer offline offline) diesel_truck depot
      [stop1; stop2; stop3] fresh = (Ok routes, σ')
    ∧ routes !! 0 = Some route
    ∧ same_number (total_distance route) (py_sum (distance <$> segments route)) = true
    ∧ same_number (total_duration route) (py_sum (duration <$> segments route)) = true
    ∧ same_number (total_emissions route) (py_sum (emissions <$> segments route)) = true
    ∧ (is_nan (total_distance route) = false →
       (total_distance route =? py_sum (distance <$> segments route))%float = true)
    ∧ (is_nan (total_duration route) = false →
       (total_duration route =? py_sum (duration <$> segments route))%float = true)
    ∧ (is_nan (total_emissions route) = false →
       (total_emissions route =? py_sum (emissions <$> segments route))%float = true).
Proof.
  eexists _, _, _. split; [vm_compute; reflexivity|]. split; [reflexivity|].
  eapply (route_totals_are_segment_sums (optimizer offline offline) diesel_truck depot
            [stop1; stop2; stop3] fresh).
  - vm_compute. reflexivity.
  - left.
Defined.



(** The traffic client answers a failed request with its simulated data. *)
Lemma TomTomAPI_fallback {World} (traffic : session World) start end_ (w : World) :
  (traffic (CalculateRoute start end_) w).1 = Timeout
  ∨ (traffic (CalculateRoute start end_) w).1 = RequestException →
  TomTomAPI.get_data traffic start end_ w
  = (Ok (TomTomAPI._get_simulated_route_data start end_),
     (traffic (CalculateRoute start end_) w).2).
Proof.
  unfold TomTomAPI.get_data.
  destruct (traffic (CalculateRoute start end_) w) as [r w']. simpl.
  by intros [->| ->].
Qed.

Lemma simulated_route_data_readable start end_ :
  readable_traffic (TomTomAPI._get_simulated_route_data start end_).
Proof.
  eexists _, _, _, _. split; [reflexivity|]. split; [reflexivity|].
  split; [reflexivity|]. intros field Hf.
  repeat (apply elem_of_cons in Hf as [->|Hf]; [eexists; split; [reflexivity|by eexists]|]).
  by apply elem_of_nil in Hf.
Qed.

(** C8.  When every request of the traffic client fails, so that it
    returns its fallback (50000 m, 3600 s, 300 s of delay) each time, every
    segment [optimize_route] produces has a distance of exactly 50 km, a
    duration of exactly 60 minutes and a traffic delay of exactly 5
    minutes; and with a weather provider that answers readably and a
    non-zero cargo capacity it produces one such route per destination. *)
Theorem fallback_on_every_segment {World} (traffic : session World)
    (weather : Location → World → result pyval * World)
    (vehicle : Vehicle) (start : Location) (destinations : list Location)
    (σ : state World) :
  (∀ s e w, (traffic (CalculateRoute s e) w).1 = Timeout
            ∨ (traffic (CalculateRoute s e) w).1 = RequestException) →
  let self := {| traffic_api := TomTomAPI.get_data traffic; weather_api := weather |} in
  (∀ routes σ',
     optimize_route self vehicle start destinations σ = (Ok routes, σ') →
     length routes = length destinations
     ∧ ∀ route segment, route ∈ routes → segment ∈ segments route →
         distance segment = 50%float
         ∧ duration segment = 60%float
         ∧ traffic_delay segment = 5%float)
  ∧ ((∀ l w, ∃ payload w', weather l w = (Ok payload, w') ∧ readable_weather payload) →
     (cargo_capacity vehicle =? 0)%float = false →
     ∃ routes σ', optimize_route self vehicle start destinations σ = (Ok routes, σ')).
Proof.
  intros Hfail self. split.
  - intros routes σ' Hrun. apply optimize_route_Ok in Hrun.
    split; [by eapply completes_length|].
    intros route segment Hroute Hseg.
    apply list_elem_of_lookup in Hroute as [i Hi].
    destruct (completes_lookup _ _ _ _ _ _ _ _ _ Hrun Hi)
      as (leg & td & wd & w & w1 & w2 & _ & Ht & _ & Hb).
    simpl in Ht. rewrite (TomTomAPI_fallback _ _ _ _ (Hfail _ _ _)) in Ht.
    injection Ht as <- _.
    apply build_route_Ok in Hb
      as (dist & dur & delay & weather' & e & air & Hdist & Hdur & Hdelay & _ & _ & _ & ->).
    simpl in Hseg. apply list_elem_of_singleton in Hseg as ->. simpl.
    vm_compute in Hdist, Hdur, Hdelay.
    by injection Hdist as <-; injection Hdur as <-; injection Hdelay as <-.
  - intros Hw Hcap.
    destruct (optimize_loop_completes self vehicle start destinations σ) as (new & σ' & Hc);
      [|done|done|].
    + intros s e w. eexists _, _. split.
      * simpl. by apply TomTomAPI_fallback.
      * apply simulated_route_data_readable.
    + exists new, σ'. by apply optimize_route_Ok.
Qed.

(** C8, on the run over three stops with the network down. *)
Lemma fallback_on_every_segment_witness :
  ∃ routes σ',
    optimize_route (optimizer offline offline) diesel_truck depot
      [stop1; stop2; stop3] fresh = (Ok routes, σ')
    ∧ length routes = 3
    ∧ ∀ route segment, route ∈ routes → segment ∈ segments route →
        distance segment = 50%float
        ∧ duration segment = 60%float
        ∧ traffic_delay segment = 5%float.
Proof.
  eexists _, _. split; [vm_compute; reflexivity|].
  eapply (proj1 (fallback_on_every_segment offline (WeatherAPI.get_data offline)
                  diesel_truck depot [stop1; stop2; stop3] fresh
                  (λ _ _ _, or_introl eq_refl))).
  vm_compute. reflexivity.
Defined.






(** The caller of [optimize_route] in [app.py] turns an exception of the
    optimizer that derives from [Exception], as those of the lookups and
    of the arithmetic do, into an empty list of routes. *)
Lemma plan_route_on_failure {World} (self : RouteOptimizer World)
    (vehicle : Vehicle) (start : Location) (destinations : list Location)
    (σ σ' : state World) (e : exn) :
  optimize_route self vehicle start destinations σ = (Raise e, σ') →
  is_Exception e = true →
  DynamicRoutingSystem.plan_route self vehicle start destinations σ = (Ok [], σ').
Proof. intros H He. unfold DynamicRoutingSystem.plan_route. by rewrite H, He. Qed.

End OptimizerTheorems.

(** ** The route summary *)

Module SummaryTheorems.
Import DynamicRoutingSystem.

(** C10 fails at a route whose mappings are present and hold a reading
    that is not a number: for a weather response whose air quality index is
    a string, [optimize_route] returns a route of 50 km and 60 minutes,
    and its summary is the one of the handler, with totals 0 and no
    alert. *)
Lemma get_route_summary_counterexample :
  ∃ σ' route weather air,
    RouteOptimizer.optimize_route
      (Sample.optimizer Sample.offline (Sample.answering Sample.no_aqi_reading))
      Sample.diesel_truck Sample.depot [Sample.stop1] Sample.fresh = (Ok [route], σ')
    ∧ weather_conditions route = PyDict weather
    ∧ air_quality route = PyDict air
    ∧ get_route_summary route
      = {| total_distance_km := 0; total_duration_mins := 0; total_emissions_kg := 0;
           weather_alerts := false; air_quality_alerts := false |}
    ∧ (total_distance_km (get_route_summary route) =? total_distance route)%float = false
    ∧ (total_duration_mins (get_route_summary route) =? total_duration route)%float = false
    ∧ (total_emissions_kg (get_route_summary route) =? total_emissions route)%float = false.
Proof.
  eexists _, _, _, _. split; [vm_compute; reflexivity|].
  repeat apply conj; vm_compute; reflexivity.
Qed.

(** C10, as the code has it.  For a route whose weather conditions and air
    quality are mappings, with numbers for precipitation, wind speed and
    aqi where they are present (a missing key counting as 0), the summary
    carries the route's three totals unchanged, its weather alert is
    raised exactly when precipitation > 10 or wind_speed > 30, and its
    air quality alert exactly when aqi > 100. *)
Theorem get_route_summary_reports (route : Route) (weather air : gmap string pyval)
    (precipitation wind_speed aqi : float) :
  weather_conditions route = PyDict weather →
  air_quality route = PyDict air →
  reading weather "precipitation" = Some precipitation →
  reading weather "wind_speed" = Some wind_speed →
  reading air "aqi" = Some aqi →
  total_distance_km (get_route_summary route) = total_distance route
  ∧ total_duration_mins (get_route_summary route) = total_duration route
  ∧ total_emissions_kg (get_route_summary route) = total_emissions route
  ∧ (weather_alerts (get_route_summary route) = true
     ↔ (10 <? precipitation)%float = true ∨ (30 <? wind_speed)%float = true)
  ∧ (air_quality_alerts (get_route_summary route) = true
     ↔ (100 <? aqi)%float = true).
Proof.
  intros Hw Ha Hp Hs Hq.
  unfold get_route_summary, build_summary. rewrite Hw, Ha. simpl.
  unfold reading in Hp, Hs, Hq. unfold py_gt. rewrite Hp. simpl.
  destruct (10 <? precipitation)%float eqn:Ep; simpl.
  - rewrite Hq. simpl. intuition congruence.
  - rewrite Hs. simpl. rewrite Hq. simpl.
    destruct (30 <? wind_speed)%float eqn:Es; simpl; intuition congruence.
Qed.

(** C10, at a route under heavy rain and poor air. *)
Lemma get_route_summary_reports_witness :
  let route :=
    {| segments := []; total_distance := 50; total_duration := 60;
       total_emissions := 49.5;
       weather_conditions := PyDict {[ "precipitation" := PyNum 12;
                                       "wind_speed" := PyNum 10 ]};
       air_quality := PyDict {[ "aqi" := PyNum 150 ]} |} in
  total_distance_km (get_route_summary route) = 50%float
  ∧ total_duration_mins (get_route_summary route) = 60%float
  ∧ total_emissions_kg (get_route_summary route) = 49.5%float
  ∧ (weather_alerts (get_route_summary route) = true
     ↔ (10 <? 12)%float = true ∨ (30 <? 10)%float = true)
  ∧ (air_quality_alerts (get_route_summary route) = true
     ↔ (100 <? 150)%float = true).
Proof.
  intros route.
  apply (get_route_summary_reports route
           {[ "precipitation" := PyNum 12; "wind_speed" := PyNum 10 ]}
           {[ "aqi" := PyNum 150 ]} 12 10 150);
    reflexivity.
Defined.

End SummaryTheorems.

(** ** Further properties of the emission formula *)

Module EmissionBehaviour.
Import EmissionCalculator FloatFacts Properties EmissionProps OptimizerProps.

(** X1.  [calculate_emissions] reads the fuel type, the cargo capacity and
    the current load of the vehicle, and the precipitation and the wind
    speed of the weather conditions, and nothing else: vehicles that agree
    on the three fields and conditions that agree on the two keys give the
    same outcome, whatever the identifier, the type and the fuel efficiency
    of the vehicles and the other readings are. *)
Theorem calculate_emissions_inputs (v1 v2 : Vehicle) (distance : float)
    (w1 w2 : gmap string pyval) :
  fuel_type v1 = fuel_type v2 →
  cargo_capacity v1 = cargo_capacity v2 →
  current_load v1 = current_load v2 →
  w1 !! "precipitation" = w2 !! "precipitation" →
  w1 !! "wind_speed" = w2 !! "wind_speed" →
  calculate_emissions v1 distance (PyDict w1) = calculate_emissions v2 distance (PyDict w2).
Proof.
  intros Hf Hc Hl Hp Hw.
  unfold calculate_emissions, base_emission, weather_factor, load_factor. simpl.
  by rewrite Hf, Hc, Hl, Hp, Hw.
Qed.

(** X1, at two diesel vehicles of different fuel efficiency, under the same
    rain and different temperatures. *)
Lemma calculate_emissions_inputs_witness :
  calculate_emissions
    {| id := "T1"; type := "truck"; fuel_type := "diesel"; fuel_efficiency := 8;
       cargo_capacity := 1000; current_load := 500 |} 100
    (PyDict {[ "precipitation" := PyNum 3; "temperature" := PyNum 40 ]})
  = calculate_emissions
      {| id := "T2"; type := "van"; fuel_type := "diesel"; fuel_efficiency := 2.5;
         cargo_capacity := 1000; current_load := 500 |} 100
      (PyDict {[ "precipitation" := PyNum 3; "temperature" := PyNum (-5);
                 "humidity" := PyStr "high" ]}).
Proof.
  apply (calculate_emissions_inputs
           {| id := "T1"; type := "truck"; fuel_type := "diesel"; fuel_efficiency := 8;
              cargo_capacity := 1000; current_load := 500 |}
           {| id := "T2"; type := "van"; fuel_type := "diesel"; fuel_efficiency := 2.5;
              cargo_capacity := 1000; current_load := 500 |}); reflexivity.
Defined.

(** The weather adjustment, when it is computed, is one of four numbers. *)
Lemma weather_factor_values (weather : pyval) (wf : float) :
  weather_factor weather = Ok wf →
  wf ∈ [1.0; 1.1; 1.15; 1.265]%float.
Proof.
  unfold weather_factor. intros H.
  apply result_bind_Ok in H as (p & _ & H).
  apply result_bind_Ok in H as (rain & _ & H).
  apply result_bind_Ok in H as (w & _ & H).
  apply result_bind_Ok in H as (wind & _ & H).
  injection H as <-.
  destruct rain, wind; vm_compute; set_solver.
Qed.

(** X2.  Whenever [calculate_emissions] returns, the factor it applied for
    the weather is one of 1.0, 1.1, 1.15 and 1.265 (none below 1.0): the
    emission returned is the base emission times that factor times the
    load factor. *)
Theorem weather_factor_one_of_four (vehicle : Vehicle) (distance : float)
    (weather : pyval) (e : float) :
  calculate_emissions vehicle distance weather = Ok e →
  ∃ wf lf,
    weather_factor weather = Ok wf
    ∧ load_factor vehicle = Ok lf
    ∧ wf ∈ [1.0; 1.1; 1.15; 1.265]%float
    ∧ (1.0 <=? wf)%float = true
    ∧ e = (base_emission vehicle distance * wf * lf)%float.
Proof.
  unfold calculate_emissions. intros H.
  apply result_bind_Ok in H as (wf & Hwf & H).
  apply result_bind_Ok in H as (lf & Hlf & H).
  injection H as <-.
  exists wf, lf. pose proof (weather_factor_values _ _ Hwf) as Hv.
  repeat split; try done.
  repeat (apply elem_of_cons in Hv as [->|Hv]; [done|]).
  by apply elem_of_nil in Hv.
Qed.

(** X2, at a half-loaded diesel truck over 100 km in rain and wind. *)
Lemma weather_factor_one_of_four_witness :
  ∃ wf lf,
    weather_factor (float_dict {[ "precipitation" := 5%float; "wind_speed" := 25%float ]})
      = Ok wf
    ∧ load_factor Sample.diesel_truck = Ok lf
    ∧ wf ∈ [1.0; 1.1; 1.15; 1.265]%float
    ∧ (1.0 <=? wf)%float = true
    ∧ 125.235%float = (base_emission Sample.diesel_truck 100 * wf * lf)%float.
Proof.
  apply (weather_factor_one_of_four Sample.diesel_truck 100
           (float_dict {[ "precipitation" := 5%float; "wind_speed" := 25%float ]})).
  vm_compute. reflexivity.
Defined.

(** What the weather adjustment raises. *)
Lemma weather_factor_raises (weather : pyval) (e : exn) :
  weather_factor weather = Raise e ↔
    (e = AttributeError ∧ ∀ m, weather ≠ PyDict m)
    ∨ (e = TypeError
       ∧ ∃ m, weather = PyDict m
              ∧ (reading m "precipitation" = None ∨ reading m "wind_speed" = None)).
Proof.
  unfold weather_factor, reading, py_gt.
  destruct weather as [| | | | |m]; simpl;
    try (split; [intros [= <-]; left; by split|intros [[-> _]|(_ & m & [=] & _)]; done]).
  destruct (as_number (default (PyNum 0) (m !! "precipitation"))) as [p|] eqn:Ep; simpl.
  - destruct (as_number (default (PyNum 0) (m !! "wind_speed"))) as [w|] eqn:Ew; simpl.
    + split; [done|].
      intros [[_ H]|(_ & m' & [= <-] & [H|H])]; [by destruct (H m)|congruence..].
    + split.
      * intros [= <-]. right. split; [done|]. exists m. split; [done|]. by right.
      * intros [[_ H]|(-> & _)]; [by destruct (H m)|done].
  - split.
    + intros [= <-]. right. split; [done|]. exists m. split; [done|]. by left.
    + intros [[_ H]|(-> & _)]; [by destruct (H m)|done].
Qed.

(** X3.  The exceptions of [calculate_emissions], and when each is raised:
    [AttributeError] when the weather conditions are not a dictionary;
    [TypeError] when they are one whose precipitation or wind speed is not
    a number; [ZeroDivisionError] when both are numbers (or missing) and the
    cargo capacity is zero.  The weather is read before the capacity
    divides, so a vehicle without capacity goes unnoticed under unreadable
    weather; and nothing else is ever raised. *)
Theorem calculate_emissions_raises (vehicle : Vehicle) (distance : float)
    (weather : pyval) (e : exn) :
  calculate_emissions vehicle distance weather = Raise e ↔
    (e = AttributeError ∧ ∀ m, weather ≠ PyDict m)
    ∨ (e = TypeError
       ∧ ∃ m, weather = PyDict m
              ∧ (reading m "precipitation" = None ∨ reading m "wind_speed" = None))
    ∨ (e = ZeroDivisionError
       ∧ (cargo_capacity vehicle =? 0)%float = true
       ∧ ∃ m, weather = PyDict m
              ∧ is_Some (reading m "precipitation")
              ∧ is_Some (reading m "wind_speed")).
Proof.
  unfold calculate_emissions. rewrite result_bind_Raise, weather_factor_raises.
  split.
  - intros [[H|H]|(wf & Hwf & H)]; [by left|by right; left|].
    right; right.
    apply result_bind_Raise in H as [H|(lf & _ & [=])].
    unfold load_factor, float_div in H.
    destruct (cargo_capacity vehicle =? 0)%float eqn:Ec; [|done].
    injection H as <-. split; [done|]. split; [done|].
    destruct weather as [| | | | |m]; try done.
    exists m. split; [done|].
    unfold weather_factor, py_gt in Hwf. simpl in Hwf. unfold reading.
    destruct (as_number (default (PyNum 0) (m !! "precipitation"))); [|done].
    destruct (as_number (default (PyNum 0) (m !! "wind_speed"))); [|done].
    by split.
  - intros [H|[H|(-> & Hc & m & -> & [p Hp] & [w Hw])]]; [by left; left|by left; right|].
    right. unfold weather_factor, py_gt, reading in *. simpl. rewrite Hp. simpl.
    rewrite Hw. simpl. eexists. split; [done|].
    by rewrite (load_factor_zero _ Hc).
Qed.

End EmissionBehaviour.

(** ** Further properties of the route optimizer *)

Module OptimizerBehaviour.
Import EmissionCalculator ApiClients RouteOptimizer Trace Properties Sample Variations.
Import FloatFacts EmissionProps OptimizerProps.

Section Run.
Context {World : Type}.

(** The routes collected before the loop is entered stay in front of the
    ones it appends. *)
Lemma optimize_loop_acc (self : RouteOptimizer World) vehicle cur destinations acc σ :
  optimize_loop self vehicle cur destinations acc σ
  = match optimize_loop self vehicle cur destinations [] σ with
    | (Ok new, σ') => (Ok (acc ++ new), σ')
    | (Raise e, σ') => (Raise e, σ')
    end.
Proof.
  revert cur acc σ. induction destinations as [|d rest IH]; intros cur acc σ.
  - simpl. by rewrite app_nil_r.
  - cbn [optimize_loop]. unfold mbind, M_bind.
    destruct (route_to self vehicle cur d σ) as [[r|e] σ1]; [|done].
    rewrite (IH d (acc ++ [r])), (IH d ([] ++ [r])).
    destruct (optimize_loop self vehicle d rest [] σ1) as [[new|e] σ2]; [|done].
    by rewrite <- app_assoc.
Qed.

(** X4.  A run over a list of destinations is the run over an initial part
    of the list followed by the run over the rest from where the first
    ended, in the state it left: when the first returns, the whole run
    returns its routes followed by those of the second, or raises what the
    second raises. *)
Theorem optimize_route_app (self : RouteOptimizer World) (vehicle : Vehicle)
    (start : Location) (first second : list Location) (σ σ1 : state World)
    (routes1 : list Route) :
  optimize_route self vehicle start first σ = (Ok routes1, σ1) →
  optimize_route self vehicle start (first ++ second) σ
  = match optimize_route self vehicle (List.last first start) second σ1 with
    | (Ok routes2, σ2) => (Ok (routes1 ++ routes2), σ2)
    | (Raise e, σ2) => (Raise e, σ2)
    end.
Proof.
  intros H1. pose proof H1 as Hc. apply optimize_route_Ok in Hc.
  destruct second as [|d rest].
  - rewrite app_nil_r, H1. simpl. by rewrite app_nil_r.
  - unfold optimize_route.
    rewrite (optimize_loop_app _ _ _ _ _ _ _ _ _ _ Hc). simpl app.
    apply optimize_loop_acc.
Qed.

(** X5.  An exception that a provider raises during a leg ends the run with
    that exception, in the state the provider left.  After a failure of the
    traffic provider the weather provider is not asked for the leg; in
    either case no later leg is looked up and the routes of the legs
    completed before are not returned.  [plan_route] then returns an empty
    list when the class of the exception derives from [Exception], and
    lets the exception through when it does not. *)
Theorem provider_exception_ends_run (self : RouteOptimizer World) (vehicle : Vehicle)
    (start : Location) (before : list Location) (d : Location) (rest : list Location)
    (σ σ1 : state World) (routes : list Route) :
  optimize_route self vehicle start before σ = (Ok routes, σ1) →
  let cur := List.last before start in
  (∀ e w1,
     traffic_api self cur d (world σ1) = (Raise e, w1) →
     let σ2 := {| world := w1; lookups := lookups σ1 ++ [TrafficLookup cur d] |} in
     optimize_route self vehicle start (before ++ d :: rest) σ = (Raise e, σ2)
     ∧ DynamicRoutingSystem.plan_route self vehicle start (before ++ d :: rest) σ
       = (if is_Exception e then Ok [] else Raise e, σ2))
  ∧ (∀ traffic_data w1 e w2,
       traffic_api self cur d (world σ1) = (Ok traffic_data, w1) →
       weather_api self d w1 = (Raise e, w2) →
       let σ2 := {| world := w2;
                    lookups := lookups σ1 ++ [TrafficLookup cur d; WeatherLookup d] |} in
       optimize_route self vehicle start (before ++ d :: rest) σ = (Raise e, σ2)
       ∧ DynamicRoutingSystem.plan_route self vehicle start (before ++ d :: rest) σ
         = (if is_Exception e then Ok [] else Raise e, σ2)).
Proof.
  intros H1 cur.
  assert (optimize_route self vehicle start (before ++ d :: rest) σ
          = match route_to self vehicle cur d σ1 with
            | (Ok r, σ2) => optimize_loop self vehicle d rest (routes ++ [r]) σ2
            | (Raise e, σ2) => (Raise e, σ2)
            end) as Hrun.
  { apply optimize_route_Ok in H1. unfold optimize_route.
    rewrite (optimize_loop_app _ _ _ _ _ _ _ _ _ _ H1). reflexivity. }
  unfold DynamicRoutingSystem.plan_route. rewrite Hrun, route_to_unfold. fold cur.
  split.
  - intros e w1 ->. by destruct (is_Exception e).
  - intros td w1 e w2 -> ->. by destruct (is_Exception e).
Qed.

(** X6.  Every route that [optimize_route] returns carries weather
    conditions that are a dictionary whose precipitation and wind speed are
    numbers where present, and its total emissions are what
    [calculate_emissions] gives for the vehicle, the total distance of the
    route and those conditions; a run that returns a route was given a
    vehicle whose cargo capacity is not zero. *)
Theorem route_emissions_recomputed (self : RouteOptimizer World) (vehicle : Vehicle)
    (start : Location) (destinations : list Location) (σ σ' : state World)
    (routes : list Route) (route : Route) :
  optimize_route self vehicle start destinations σ = (Ok routes, σ') →
  route ∈ routes →
  calculate_emissions vehicle (total_distance route) (weather_conditions route)
    = Ok (total_emissions route)
  ∧ (cargo_capacity vehicle =? 0)%float = false
  ∧ ∃ m, weather_conditions route = PyDict m
         ∧ is_Some (reading m "precipitation")
         ∧ is_Some (reading m "wind_speed").
Proof.
  intros Hrun Hin. apply optimize_route_Ok in Hrun.
  apply list_elem_of_lookup in Hin as [i Hi].
  destruct (completes_lookup _ _ _ _ _ _ _ _ _ Hrun Hi)
    as (leg & td & wd & ? & ? & ? & _ & _ & _ & Hb).
  apply build_route_Ok in Hb
    as (dist & dur & delay & weather & e & air & _ & _ & _ & _ & He & _ & ->).
  simpl. split; [done|].
  unfold calculate_emissions in He.
  apply result_bind_Ok in He as (wf & Hwf & He).
  apply result_bind_Ok in He as (lf & Hlf & _).
  split.
  - unfold load_factor, float_div in Hlf.
    by destruct (cargo_capacity vehicle =? 0)%float.
  - unfold weather_factor, py_gt in Hwf.
    destruct weather as [| | | | |m]; try done. simpl in Hwf.
    exists m. split; [done|]. unfold reading.
    destruct (as_number (default (PyNum 0) (m !! "precipitation"))); [|done].
    destruct (as_number (default (PyNum 0) (m !! "wind_speed"))); [|done].
    by split.
Qed.

(** The fields of the summary of a traffic response are those of the
    summary of its first route. *)
Lemma summary_field_first_route traffic_data field divisor :
  summary_field (first_route_only traffic_data) field divisor
  = summary_field traffic_data field divisor.
Proof.
  destruct traffic_data as [| | | | |p]; try done.
  unfold first_route_only.
  destruct (p !! "routes") as [[| | | |[|r others]|]|] eqn:Hp; try done.
  unfold summary_field. simpl. by rewrite lookup_insert_eq, Hp.
Qed.

Lemma build_route_first_route vehicle cur d traffic_data weather_data :
  build_route vehicle cur d (first_route_only traffic_data) weather_data
  = build_route vehicle cur d traffic_data weather_data.
Proof. unfold build_route. by rewrite !summary_field_first_route. Qed.

(** X7.  Of a traffic response [optimize_route] reads the first route
    only: with every response cut down to its first route, the run has the
    same outcome and ends in the same state.  The further routes a provider
    offers for a leg are never looked at. *)
Theorem optimize_route_reads_first_route (self : RouteOptimizer World)
    (vehicle : Vehicle) (start : Location) (destinations : list Location)
    (σ : state World) :
  optimize_route (with_traffic first_route_only self) vehicle start destinations σ
  = optimize_route self vehicle start destinations σ.
Proof.
  unfold optimize_route. generalize (@nil Route) as acc. revert start σ.
  induction destinations as [|d rest IH]; intros cur σ acc; [done|].
  cbn [optimize_loop]. unfold mbind, M_bind.
  rewrite !route_to_unfold. simpl.
  destruct (traffic_api self cur d (world σ)) as [[td|e] w1]; [|done].
  destruct (weather_api self d w1) as [[wd|e] w2]; [|done].
  rewrite build_route_first_route.
  destruct (build_route vehicle cur d td wd) as [r|e]; [|done].
  apply IH.
Qed.

(** The exceptions of the lookups and of the arithmetic derive from
    [Exception]. *)
Lemma builtin_is_Exception (e : exn) : builtin e → is_Exception e = true.
Proof. by destruct e. Qed.

(** An exception of a run is one of the lookups and of the arithmetic of
    an iteration, or one that a provider raised. *)
Lemma optimize_loop_Raise (self : RouteOptimizer World) vehicle cur destinations acc
    σ e σ' :
  optimize_loop self vehicle cur destinations acc σ = (Raise e, σ') →
  builtin e
  ∨ ∃ s d w w', traffic_api self s d w = (Raise e, w')
                ∨ weather_api self d w = (Raise e, w').
Proof.
  revert cur acc σ. induction destinations as [|d rest IH]; intros cur acc σ; [done|].
  cbn [optimize_loop]. unfold mbind, M_bind. rewrite route_to_unfold.
  destruct (traffic_api self cur d (world σ)) as [[td|e1] w1] eqn:Ht.
  - destruct (weather_api self d w1) as [[wd|e2] w2] eqn:Hw.
    + destruct (build_route vehicle cur d td wd) as [r|e3] eqn:Hb.
      * apply IH.
      * intros [= <- <-]. left. by eapply build_route_builtin.
    + intros [= <- <-]. right. exists cur, d, w1, w2. by right.
  - intros [= <- <-]. right. exists cur, d, (world σ), w1. by left.
Qed.

(** X8.  [plan_route] returns all or nothing: the list it returns holds
    one route per destination, the run of the optimizer having returned
    it, or no route at all, the run having raised an exception that derives
    from [Exception]; it is never a part of the routes.  [plan_route]
    raises only what a provider raised, of a class that does not derive
    from [Exception].  The state is the one the run ended in, so that the
    lookups issued before a failure have been issued. *)
Theorem plan_route_all_or_nothing (self : RouteOptimizer World) (vehicle : Vehicle)
    (start : Location) (destinations : list Location) (σ : state World) :
  let planned := DynamicRoutingSystem.plan_route self vehicle start destinations σ in
  let run := optimize_route self vehicle start destinations σ in
  planned.2 = run.2
  ∧ ((∃ routes, planned.1 = Ok routes ∧ run.1 = Ok routes
                ∧ length routes = length destinations)
     ∨ (planned.1 = Ok [] ∧ ∃ e, run.1 = Raise e ∧ is_Exception e = true)
     ∨ (∃ e, planned.1 = Raise e ∧ run.1 = Raise e ∧ is_Exception e = false
             ∧ ∃ s d w w', traffic_api self s d w = (Raise e, w')
                           ∨ weather_api self d w = (Raise e, w'))).
Proof.
  intros planned run. subst planned run. unfold DynamicRoutingSystem.plan_route.
  destruct (optimize_route self vehicle start destinations σ) as [[routes|e] σ'] eqn:Hrun;
    simpl.
  - split; [done|]. left. exists routes. split; [done|]. split; [done|].
    apply optimize_route_Ok in Hrun. by eapply completes_length.
  - destruct (is_Exception e) eqn:He; simpl.
    + split; [done|]. right. left. eauto.
    + split; [done|]. right. right. exists e. do 3 (split; [done|]).
      apply optimize_loop_Raise in Hrun as [Hb|Hp]; [|done].
      apply builtin_is_Exception in Hb. congruence.
Qed.

End Run.

(** X5, at a traffic provider that answers for the first leg and raises
    for the second: the run over three stops ends there, after three
    lookups.  A [ValueError] is caught by [plan_route]; a
    [KeyboardInterrupt] is not. *)
Lemma provider_exception_ends_run_witness :
  let self cls :=
    {| traffic_api := λ s e w, if w : bool
                               then (Ok (TomTomAPI._get_simulated_route_data s e), false)
                               else (Raise (OtherError cls), false);
       weather_api := WeatherAPI.get_data (λ _ w, (Timeout, w)) |} in
  let σ2 := {| world := false;
               lookups := [TrafficLookup depot stop1; WeatherLookup stop1;
                           TrafficLookup stop1 stop2] |} in
  (optimize_route (self "ValueError") diesel_truck depot ([stop1] ++ stop2 :: [stop3])
     {| world := true; lookups := [] |}
   = (Raise (OtherError "ValueError"), σ2)
   ∧ DynamicRoutingSystem.plan_route (self "ValueError") diesel_truck depot
       ([stop1] ++ stop2 :: [stop3]) {| world := true; lookups := [] |}
     = (Ok [], σ2))
  ∧ (optimize_route (self "KeyboardInterrupt") diesel_truck depot
       ([stop1] ++ stop2 :: [stop3]) {| world := true; lookups := [] |}
     = (Raise (OtherError "KeyboardInterrupt"), σ2)
     ∧ DynamicRoutingSystem.plan_route (self "KeyboardInterrupt") diesel_truck depot
         ([stop1] ++ stop2 :: [stop3]) {| world := true; lookups := [] |}
       = (Raise (OtherError "KeyboardInterrupt"), σ2)).
Proof.
  intros self σ2. split.
  - refine (proj1 (provider_exception_ends_run (self "ValueError") diesel_truck depot
                     [stop1] stop2 [stop3]
                     {| world := true; lookups := [] |}
                     {| world := false;
                        lookups := [TrafficLookup depot stop1; WeatherLookup stop1] |}
                     _ _) (OtherError "ValueError") false _).
    + vm_compute. reflexivity.
    + reflexivity.
  - refine (proj1 (provider_exception_ends_run (self "KeyboardInterrupt") diesel_truck
                     depot [stop1] stop2 [stop3]
                     {| world := true; lookups := [] |}
                     {| world := false;
                        lookups := [TrafficLookup depot stop1; WeatherLookup stop1] |}
                     _ _) (OtherError "KeyboardInterrupt") false _).
    + vm_compute. reflexivity.
    + reflexivity.
Defined.

(** X4, at the run over three stops with both providers on their fallback
    data, split after the first stop. *)
Lemma optimize_route_app_witness :
  ∃ routes1 σ1,
    optimize_route (optimizer offline offline) diesel_truck depot [stop1] fresh
      = (Ok routes1, σ1)
    ∧ optimize_route (optimizer offline offline) diesel_truck depot
        ([stop1] ++ [stop2; stop3]) fresh
      = match optimize_route (optimizer offline offline) diesel_truck
                (List.last [stop1] depot) [stop2; stop3] σ1 with
        | (Ok routes2, σ2) => (Ok (routes1 ++ routes2), σ2)
        | (Raise e, σ2) => (Raise e, σ2)
        end.
Proof.
  eexists _, _. split; [vm_compute; reflexivity|].
  apply (optimize_route_app (optimizer offline offline) diesel_truck depot
           [stop1] [stop2; stop3] fresh).
  vm_compute. reflexivity.
Defined.

(** X6, at the routes of the run over three stops with both providers on
    their fallback data. *)
Lemma route_emissions_recomputed_witness :
  ∃ routes σ',
    optimize_route (optimizer offline offline) diesel_truck depot
      [stop1; stop2; stop3] fresh = (Ok routes, σ')
    ∧ ∀ route, route ∈ routes →
        calculate_emissions diesel_truck (total_distance route) (weather_conditions route)
          = Ok (total_emissions route)
        ∧ (cargo_capacity diesel_truck =? 0)%float = false
        ∧ ∃ m, weather_conditions route = PyDict m
               ∧ is_Some (reading m "precipitation")
               ∧ is_Some (reading m "wind_speed").
Proof.
  eexists _, _. split; [vm_compute; reflexivity|].
  intros route.
  eapply (route_emissions_recomputed (optimizer offline offline) diesel_truck depot
            [stop1; stop2; stop3] fresh).
  vm_compute. reflexivity.
Defined.

End OptimizerBehaviour.

(** ** Order on binary64 numbers *)

Module FloatOrder.
Import FloatFacts.

Lemma SFltb_trans (x y z : spec_float) :
  SFltb x y = true → SFltb y z = true → SFltb x z = true.
Proof.
  unfold SFltb.
  destruct x as [sx|sx| |sx mx ex], y as [sy|sy| |sy my ey], z as [sz|sz| |sz mz ez];
    simpl; try done;
    repeat match goal with s : bool |- _ => destruct s end; simpl; try done.
  - destruct (Z.compare_spec ex ey), (Z.compare_spec ey ez), (Z.compare_spec ex ez);
      simpl; try done; try lia; subst.
    change (Pos.compare_cont Eq ?a ?b) with (Pos.compare a b).
    destruct (Pos.compare_spec mx my), (Pos.compare_spec my mz), (Pos.compare_spec mx mz);
      simpl; try done; lia.
  - destruct (Z.compare_spec ex ey), (Z.compare_spec ey ez), (Z.compare_spec ex ez);
      simpl; try done; try lia; subst.
    change (Pos.compare_cont Eq ?a ?b) with (Pos.compare a b).
    destruct (Pos.compare_spec mx my), (Pos.compare_spec my mz), (Pos.compare_spec mx mz);
      simpl; try done; lia.
Qed.

(** [<] on floats is transitive. *)
Lemma ltb_trans (x y z : float) :
  (x <? y)%float = true → (y <? z)%float = true → (x <? z)%float = true.
Proof. rewrite !FloatAxioms.ltb_spec. apply SFltb_trans. Qed.

End FloatOrder.

(** ** Further properties of the route summary *)

Module SummaryBehaviour.
Import EmissionCalculator ApiClients RouteOptimizer Trace Properties Sample Variations.
Import DynamicRoutingSystem.
Import FloatFacts FloatOrder EmissionProps OptimizerProps.

(** X9.  [get_route_summary] answers a route it cannot read with the
    summary of its [except] branch, in which the three totals are 0
    whatever the totals of the route are: so it does when the weather
    conditions or the air quality are not a dictionary, when the
    precipitation or the air quality index is not a number, and when the
    precipitation is a number not above 10 and the wind speed is not a
    number. *)
Theorem get_route_summary_falls_back (route : Route) :
  ((∀ m, weather_conditions route ≠ PyDict m) → get_route_summary route = zero_summary)
  ∧ ((∀ m, air_quality route ≠ PyDict m) → get_route_summary route = zero_summary)
  ∧ (∀ w, weather_conditions route = PyDict w →
          reading w "precipitation" = None →
          get_route_summary route = zero_summary)
  ∧ (∀ w p, weather_conditions route = PyDict w →
            reading w "precipitation" = Some p → (10 <? p)%float = false →
            reading w "wind_speed" = None →
            get_route_summary route = zero_summary)
  ∧ (∀ a, air_quality route = PyDict a →
          reading a "aqi" = None →
          get_route_summary route = zero_summary).
Proof.
  unfold get_route_summary, build_summary, reading, py_gt.
  split; [|split; [|split; [|split]]].
  - intros H. destruct (weather_conditions route) as [| | | | |m]; try done.
    by destruct (H m).
  - intros H.
    assert (dict_get (air_quality route) "aqi" (PyNum 0) = Raise AttributeError) as ->.
    { destruct (air_quality route) as [| | | | |m]; try done. by destruct (H m). }
    assert (∀ {A B} (r : result A) (k : A → result B),
              (∀ a, ∃ e, k a = Raise e) → ∃ e, r ≫= k = Raise e) as Hends.
    { intros A B [a|e] k Hk; simpl; eauto. }
    edestruct (Hends pyval) as [e ->]; [|done].
    intros p. apply Hends. intros s. apply Hends. intros b. by eexists.
  - intros w -> Hp. simpl. unfold py_gt. by rewrite Hp.
  - intros w p -> Hp H10 Hs. simpl. unfold py_gt. rewrite Hp. simpl. rewrite H10.
    by rewrite Hs.
  - intros a -> Ha. destruct (weather_conditions route) as [| | | | |m]; try done.
    simpl. unfold py_gt.
    destruct (as_number (default (PyNum 0) (m !! "precipitation"))) as [p|]; [|done]. simpl.
    destruct (10 <? p)%float; simpl.
    + by rewrite Ha.
    + destruct (as_number (default (PyNum 0) (m !! "wind_speed"))) as [s|]; [|done].
      simpl. rewrite Ha. by destruct (30 <? s)%float.
Qed.

(** X9, at a route of 50 km whose wind speed is a string, and at one whose
    weather conditions are missing. *)
Lemma get_route_summary_falls_back_witness :
  get_route_summary
    {| segments := []; total_distance := 50; total_duration := 60; total_emissions := 49.5;
       weather_conditions := PyDict {[ "precipitation" := PyNum 2;
                                       "wind_speed" := PyStr "strong" ]};
       air_quality := PyDict {[ "aqi" := PyNum 150 ]} |} = zero_summary
  ∧ get_route_summary
      {| segments := []; total_distance := 50; total_duration := 60; total_emissions := 49.5;
         weather_conditions := PyNone;
         air_quality := PyDict {[ "aqi" := PyNum 150 ]} |} = zero_summary.
Proof.
  split.
  - apply (proj1 (proj2 (proj2 (proj2 (get_route_summary_falls_back
             {| segments := []; total_distance := 50; total_duration := 60;
                total_emissions := 49.5;
                weather_conditions := PyDict {[ "precipitation" := PyNum 2;
                                                "wind_speed" := PyStr "strong" ]};
                air_quality := PyDict {[ "aqi" := PyNum 150 ]} |}))))
           {[ "precipitation" := PyNum 2; "wind_speed" := PyStr "strong" ]} 2%float);
      reflexivity.
  - apply (proj1 (get_route_summary_falls_back
             {| segments := []; total_distance := 50; total_duration := 60;
                total_emissions := 49.5; weather_conditions := PyNone;
                air_quality := PyDict {[ "aqi" := PyNum 150 ]} |})).
    done.
Defined.

(** X10.  The weather alert is decided at the first reading above its
    threshold: with a precipitation above 10 the wind speed is not
    compared, so that the summary carries the totals of the route and a
    weather alert whatever is stored under the wind speed, a value that is
    not a number included. *)
Theorem weather_alert_short_circuits (route : Route) (w a : gmap string pyval)
    (p aqi : float) :
  weather_conditions route = PyDict w →
  air_quality route = PyDict a →
  reading w "precipitation" = Some p →
  (10 <? p)%float = true →
  reading a "aqi" = Some aqi →
  get_route_summary route
  = {| total_distance_km := total_distance route;
       total_duration_mins := total_duration route;
       total_emissions_kg := total_emissions route;
       weather_alerts := true;
       air_quality_alerts := (100 <? aqi)%float |}.
Proof.
  intros Hw Ha Hp H10 Hq.
  unfold get_route_summary, build_summary, reading, py_gt in *.
  rewrite Hw, Ha. simpl. unfold py_gt. rewrite Hp. simpl. rewrite H10, Hq. done.
Qed.

(** X10, at a route under heavy rain whose wind speed is a string. *)
Lemma weather_alert_short_circuits_witness :
  get_route_summary
    {| segments := []; total_distance := 50; total_duration := 60; total_emissions := 49.5;
       weather_conditions := PyDict {[ "precipitation" := PyNum 12;
                                       "wind_speed" := PyStr "strong" ]};
       air_quality := PyDict {[ "aqi" := PyNum 40 ]} |}
  = {| total_distance_km := 50; total_duration_mins := 60; total_emissions_kg := 49.5;
       weather_alerts := true; air_quality_alerts := false |}.
Proof.
  apply (weather_alert_short_circuits
           {| segments := []; total_distance := 50; total_duration := 60;
              total_emissions := 49.5;
              weather_conditions := PyDict {[ "precipitation" := PyNum 12;
                                              "wind_speed" := PyStr "strong" ]};
              air_quality := PyDict {[ "aqi" := PyNum 40 ]} |}
           {[ "precipitation" := PyNum 12; "wind_speed" := PyStr "strong" ]}
           {[ "aqi" := PyNum 40 ]} 12 40); reflexivity.
Defined.

(** A weather alert tells of a reading above the threshold of the
    alert. *)
Lemma weather_alerts_true (route : Route) :
  weather_alerts (get_route_summary route) = true →
  ∃ w, weather_conditions route = PyDict w
       ∧ ((∃ p, reading w "precipitation" = Some p ∧ (10 <? p)%float = true)
          ∨ (∃ s, reading w "wind_speed" = Some s ∧ (30 <? s)%float = true)).
Proof.
  unfold get_route_summary, build_summary, reading.
  destruct (weather_conditions route) as [| | | | |w]; try done. simpl. unfold py_gt.
  destruct (as_number (default (PyNum 0) (w !! "precipitation"))) as [p|] eqn:Ep; [|done].
  simpl. destruct (10 <? p)%float eqn:H10; simpl.
  - intros _. exists w. split; [done|]. left. exists p. split; [exact Ep|done].
  - destruct (as_number (default (PyNum 0) (w !! "wind_speed"))) as [s|] eqn:Es; [|done].
    simpl. destruct (30 <? s)%float eqn:H30; simpl.
    + intros _. exists w. split; [done|]. right. exists s. split; [exact Es|done].
    + destruct (dict_get (air_quality route) "aqi" (PyNum 0)) as [q|]; simpl; [|done].
      by destruct (as_number q).
Qed.

(** X11.  The thresholds of the weather alert (precipitation above 10, wind
    speed above 30) lie above those of the emission formula (above 0, above
    20): whenever the summary of a route that [optimize_route] returned
    carries a weather alert, the emissions of that route were computed with
    a weather factor of 1.1, 1.15 or 1.265, never with 1.0. *)
Theorem weather_alert_implies_adjustment {World} (self : RouteOptimizer World)
    (vehicle : Vehicle) (start : Location) (destinations : list Location)
    (σ σ' : state World) (routes : list Route) (route : Route) :
  optimize_route self vehicle start destinations σ = (Ok routes, σ') →
  route ∈ routes →
  weather_alerts (get_route_summary route) = true →
  ∃ wf lf,
    wf ∈ [1.1; 1.15; 1.265]%float
    ∧ weather_factor (weather_conditions route) = Ok wf
    ∧ load_factor vehicle = Ok lf
    ∧ total_emissions route
      = (base_emission vehicle (total_distance route) * wf * lf)%float.
Proof.
  intros Hrun Hin Halert. apply optimize_route_Ok in Hrun.
  apply list_elem_of_lookup in Hin as [i Hi].
  destruct (completes_lookup _ _ _ _ _ _ _ _ _ Hrun Hi)
    as (leg & td & wd & ? & ? & ? & _ & _ & _ & Hb).
  apply build_route_Ok in Hb
    as (dist & dur & delay & weather & e & air & _ & _ & _ & _ & He & _ & ->).
  apply weather_alerts_true in Halert as (w & Hw & Hreading). simpl in *. subst weather.
  unfold calculate_emissions in He.
  apply result_bind_Ok in He as (wf & Hwf & He).
  apply result_bind_Ok in He as (lf & Hlf & [= <-]).
  exists wf, lf. split; [|done].
  unfold weather_factor, py_gt, reading in *. simpl in Hwf.
  destruct (as_number (default (PyNum 0) (w !! "precipitation"))) as [p|]; [|done].
  destruct (as_number (default (PyNum 0) (w !! "wind_speed"))) as [s|]; [|done].
  simpl in Hwf. injection Hwf as <-.
  destruct Hreading as [(p' & [= <-] & H10)|(s' & [= <-] & H30)].
  - rewrite (ltb_trans 0 10 p eq_refl H10).
    destruct (20 <? s)%float; vm_compute; set_solver.
  - rewrite (ltb_trans 20 30 s eq_refl H30).
    destruct (0 <? p)%float; vm_compute; set_solver.
Qed.

(** X11, at a weather provider that reports heavy rain. *)
Lemma weather_alert_implies_adjustment_witness :
  let rainy :=
    PyDict {[ "weather" := PyDict {[ "precipitation" := PyNum 12 ]};
              "air" := PyDict {[ "aqi" := PyNum 40 ]} ]} in
  ∃ routes σ' route,
    optimize_route (optimizer offline (answering rainy)) diesel_truck depot [stop1] fresh
      = (Ok routes, σ')
    ∧ routes !! 0 = Some route
    ∧ ∃ wf lf,
        wf ∈ [1.1; 1.15; 1.265]%float
        ∧ weather_factor (weather_conditions route) = Ok wf
        ∧ load_factor diesel_truck = Ok lf
        ∧ total_emissions route
          = (base_emission diesel_truck (total_distance route) * wf * lf)%float.
Proof.
  intros rainy. eexists _, _, _. split; [vm_compute; reflexivity|]. split; [reflexivity|].
  eapply (weather_alert_implies_adjustment (optimizer offline (answering rainy))
            diesel_truck depot [stop1] fresh).
  - vm_compute. reflexivity.
  - left.
  - reflexivity.
Defined.

(** The weather client answers a failed request with its simulated
    data. *)
Lemma WeatherAPI_fallback {World} (weather : session World) location (w : World) :
  (weather (Nearest location) w).1 = Timeout
  ∨ (weather (Nearest location) w).1 = RequestException →
  WeatherAPI.get_data weather location w
  = (Ok WeatherAPI._get_simulated_weather_data, (weather (Nearest location) w).2).
Proof.
  unfold WeatherAPI.get_data.
  destruct (weather (Nearest location) w) as [r w']. simpl.
  by intros [->| ->].
Qed.

Lemma TomTomAPI_unreachable {World} (traffic : session World) start end_ (w : World) :
  unreachable traffic →
  TomTomAPI.get_data traffic start end_ w
  = (Ok (TomTomAPI._get_simulated_route_data start end_),
     (traffic (CalculateRoute start end_) w).2).
Proof.
  intros H. unfold TomTomAPI.get_data.
  destruct (H (CalculateRoute start end_) w) as [Hr|Hr];
    destruct (traffic (CalculateRoute start end_) w) as [r w']; simpl in *; by subst.
Qed.

(** The route built from the simulated data of both clients. *)
Lemma build_route_simulated vehicle cur d r :
  build_route vehicle cur d (TomTomAPI._get_simulated_route_data cur d)
    WeatherAPI._get_simulated_weather_data = Ok r →
  total_distance r = 50%float
  ∧ total_duration r = 60%float
  ∧ total_emissions r
    = (base_emission vehicle 50 * 1.0
       * (1.0 + (current_load vehicle / cargo_capacity vehicle) * 0.2))%float
  ∧ weather_conditions r
    = PyDict {[ "precipitation" := PyNum 0; "wind_speed" := PyNum 10;
                "temperature" := PyNum 25 ]}
  ∧ air_quality r = PyDict {[ "aqi" := PyNum 50 ]}.
Proof.
  intros Hb. apply build_route_Ok in Hb
    as (dist & dur & delay & weather & e & air & Hdist & Hdur & _ & Hw & He & Ha & ->).
  vm_compute in Hdist, Hdur. injection Hdist as <-. injection Hdur as <-.
  change (subscript_key WeatherAPI._get_simulated_weather_data "weather")
    with (Ok (PyDict {[ "precipitation" := PyNum 0; "wind_speed" := PyNum 10;
                        "temperature" := PyNum 25 ]})) in Hw.
  change (subscript_key WeatherAPI._get_simulated_weather_data "air")
    with (Ok (PyDict {[ "aqi" := PyNum 50 ]})) in Ha.
  injection Hw as <-. injection Ha as <-.
  unfold calculate_emissions in He.
  change (weather_factor _) with (Ok 1.0%float) in He. simpl in He.
  unfold load_factor, float_div in He.
  destruct (cargo_capacity vehicle =? 0)%float; [done|].
  simpl in He. injection He as <-. done.
Qed.

(** X12.  With neither provider reachable, every request ending in a
    timeout or in another request failure, the run over any destinations
    returns one route per destination for any vehicle whose cargo capacity
    is not zero, and the summary of each of these routes is the same: 50 km,
    60 minutes, the emission over 50 km with no weather adjustment, and
    neither alert. *)
Theorem unreachable_providers_summary {World} (traffic weather : session World)
    (vehicle : Vehicle) (start : Location) (destinations : list Location)
    (σ : state World) :
  unreachable traffic →
  unreachable weather →
  (cargo_capacity vehicle =? 0)%float = false →
  let self := {| traffic_api := TomTomAPI.get_data traffic;
                 weather_api := WeatherAPI.get_data weather |} in
  ∃ routes σ',
    optimize_route self vehicle start destinations σ = (Ok routes, σ')
    ∧ length routes = length destinations
    ∧ ∀ route, route ∈ routes →
        get_route_summary route
        = {| total_distance_km := 50;
             total_duration_mins := 60;
             total_emissions_kg :=
               (base_emission vehicle 50 * 1.0
                * (1.0 + (current_load vehicle / cargo_capacity vehicle) * 0.2))%float;
             weather_alerts := false;
             air_quality_alerts := false |}.
Proof.
  intros Ht Hw Hcap self.
  destruct (optimize_loop_completes self vehicle start destinations σ) as (routes & σ' & Hc);
    [| |done|].
  - intros s e w. eexists _, _. split; [by apply TomTomAPI_unreachable|].
    apply OptimizerTheorems.simulated_route_data_readable.
  - intros l w. eexists _, _. split; [apply WeatherAPI_fallback, Hw|].
    eexists _, _, _. split; [reflexivity|]. split; [reflexivity|].
    split; [by eexists|]. split; [by eexists|]. reflexivity.
  - exists routes, σ'. split; [by apply optimize_route_Ok|].
    split; [by eapply completes_length|].
    intros route Hin. apply list_elem_of_lookup in Hin as [i Hi].
    destruct (completes_lookup _ _ _ _ _ _ _ _ _ Hc Hi)
      as (leg & td & wd & w & w1 & w2 & _ & Htd & Hwd & Hb).
    simpl in Htd, Hwd.
    rewrite (TomTomAPI_unreachable _ _ _ _ Ht) in Htd. injection Htd as <- _.
    rewrite (WeatherAPI_fallback _ _ _ (Hw _ _)) in Hwd. injection Hwd as <- _.
    apply build_route_simulated in Hb as (Hd & Hdur & He & Hwc & Haq).
    unfold get_route_summary, build_summary. rewrite Hwc, Haq, Hd, Hdur, He.
    reflexivity.
Qed.

(** X12, at the run over three stops with the network down. *)
Lemma unreachable_providers_summary_witness :
  ∃ routes σ',
    optimize_route (optimizer offline offline) diesel_truck depot [stop1; stop2; stop3] fresh
      = (Ok routes, σ')
    ∧ length routes = 3
    ∧ ∀ route, route ∈ routes →
        get_route_summary route
        = {| total_distance_km := 50; total_duration_mins := 60;
             total_emissions_kg := 49.50000000000001;
             weather_alerts := false; air_quality_alerts := false |}.
Proof.
  exact (unreachable_providers_summary offline offline diesel_truck depot
           [stop1; stop2; stop3] fresh
           (λ _ _, or_introl eq_refl) (λ _ _, or_introl eq_refl) eq_refl).
Defined.

End SummaryBehaviour.

(** ** The construction, the loaders and the writer of app.py *)

Module AppBehaviour.
Import App Documents OptimizerProps.

(** X13.  The constructor of the system raises [ValueError] exactly when
    one of TOMTOM_API_KEY and AQICN_API_KEY is unset or set to the empty
    string, and raises nothing else; when it returns, the traffic client
    holds the first key, the weather client the second, both keys are not
    empty, and the optimizer holds these two clients. *)
Theorem init_requires_both_keys (environ : gmap string string) :
  (__init__ environ = Raise ValueError ↔
     environ !! "TOMTOM_API_KEY" = None ∨ environ !! "TOMTOM_API_KEY" = Some EmptyString
     ∨ environ !! "AQICN_API_KEY" = None ∨ environ !! "AQICN_API_KEY" = Some EmptyString)
  ∧ (∀ e, __init__ environ = Raise e → e = ValueError)
  ∧ (∀ sys, __init__ environ = Ok sys →
       ∃ t a, t ≠ EmptyString ∧ a ≠ EmptyString
              ∧ environ !! "TOMTOM_API_KEY" = Some t
              ∧ environ !! "AQICN_API_KEY" = Some a
              ∧ api_key (tomtom_api sys) = Some t
              ∧ api_key (weather_api sys) = Some a
              ∧ base_url (tomtom_api sys) = "https://api.tomtom.com/routing/1"
              ∧ base_url (weather_api sys) = "https://api.aqicn.org/v2"
              ∧ route_optimizer sys = (tomtom_api sys, weather_api sys)).
Proof.
  unfold __init__. split; [|split].
  - destruct (environ !! "TOMTOM_API_KEY") as [[|c t]|];
      destruct (environ !! "AQICN_API_KEY") as [[|c' a]|]; simpl;
      (split; [intros H; try done; auto|intros H; try done; intuition discriminate]).
  - intros e. by case_match; intros [= <-].
  - intros sys.
    destruct (environ !! "TOMTOM_API_KEY") as [[|c t]|];
      destruct (environ !! "AQICN_API_KEY") as [[|c' a]|]; simpl; try done.
    intros [= <-]. simpl. by eexists (String c t), (String c' a).
Qed.

(** *** Objects from JSON *)

Lemma dom_vehicle_json (v : Vehicle) :
  dom (vehicle_json v) =@{gset string} list_to_set Vehicle_fields.
Proof.
  unfold vehicle_json. rewrite !dom_insert_L, dom_singleton_L. simpl.
  by rewrite union_empty_r_L.
Qed.

Lemma Vehicle_of_vehicle_json (v : Vehicle) : Vehicle_of (vehicle_json v) = Some v.
Proof. by destruct v. Qed.

Lemma dataclass_call_Ok (fields : list string) (data : pyval) (o : gmap string pyval) :
  dataclass_call fields data = Ok o ↔
  data = PyDict o ∧ dom o =@{gset string} list_to_set fields.
Proof.
  unfold dataclass_call. destruct data as [| | | | |m]; try (split; [done|by intros [[=] _]]).
  case_decide as Hd; split.
  - by intros [= <-].
  - by intros [[= <-] _].
  - done.
  - intros [[= <-] H]. done.
Qed.

Lemma dataclass_call_Raise (fields : list string) (data : pyval) (e : exn) :
  dataclass_call fields data = Raise e → e = TypeError.
Proof.
  unfold dataclass_call. destruct data; try by intros [= <-].
  case_decide; [done|by intros [= <-]].
Qed.

(** X14.  [load_vehicle_data] raises [FileNotFoundError] for a missing
    file and [ValueError] for a file that is not JSON.  Of a decoded
    document it accepts exactly the objects whose keys are the six fields
    of [Vehicle], and returns the members as they are, of whatever type:
    a document that is not an object, one that lacks a field and one with
    a key that is no field raise [TypeError], which is passed on.  The
    object of a vehicle is read back as that vehicle. *)
Theorem load_vehicle_data_outcomes (read : string → read_outcome) (file_path : string) :
  (read file_path = FileNotFound →
   load_vehicle_data read file_path = Raise FileNotFoundError)
  ∧ (read file_path = JSONDecodeError →
     load_vehicle_data read file_path = Raise ValueError)
  ∧ (∀ data, read file_path = Decoded data →
       (∀ o, load_vehicle_data read file_path = Ok o ↔
             data = PyDict o ∧ ∀ k, is_Some (o !! k) ↔ k ∈ Vehicle_fields)
       ∧ (∀ e, load_vehicle_data read file_path = Raise e → e = TypeError)
       ∧ ((∀ m, data ≠ PyDict m) → load_vehicle_data read file_path = Raise TypeError)
       ∧ (∀ m k, data = PyDict m → k ∈ Vehicle_fields → m !! k = None →
                 load_vehicle_data read file_path = Raise TypeError)
       ∧ (∀ m k, data = PyDict m → k ∉ Vehicle_fields → is_Some (m !! k) →
                 load_vehicle_data read file_path = Raise TypeError)
       ∧ (∀ v, data = PyDict (vehicle_json v) →
               ∃ o, load_vehicle_data read file_path = Ok o ∧ Vehicle_of o = Some v)).
Proof.
  unfold load_vehicle_data, new_Vehicle.
  split; [by intros ->|]. split; [by intros ->|].
  intros data ->.
  assert (∀ m : gmap string pyval,
            dom m =@{gset string} list_to_set Vehicle_fields ↔
            ∀ k, is_Some (m !! k) ↔ k ∈ Vehicle_fields) as Hdom.
  { intros m. rewrite set_eq. apply forall_proper. intros k.
    by rewrite elem_of_dom, elem_of_list_to_set. }
  assert (∀ m, ¬ (∀ k, is_Some (m !! k) ↔ k ∈ Vehicle_fields) →
               dataclass_call Vehicle_fields (PyDict m) = Raise TypeError) as Hbad.
  { intros m Hm. simpl. rewrite decide_False; [done|]. by rewrite Hdom. }
  split; [|split; [|split; [|split; [|split]]]].
  - intros o. by rewrite dataclass_call_Ok, Hdom.
  - apply dataclass_call_Raise.
  - intros H. destruct data as [| | | | |m]; try done. by destruct (H m).
  - intros m k -> Hk Hnone. apply Hbad. intros H.
    apply H in Hk. rewrite Hnone in Hk. by destruct Hk.
  - intros m k -> Hk Hsome. apply Hbad. intros H. by apply H in Hsome.
  - intros v ->. exists (vehicle_json v). split; [|apply Vehicle_of_vehicle_json].
    apply dataclass_call_Ok. split; [done|apply dom_vehicle_json].
Qed.

(** *** Lists of objects *)

Lemma mapM_Ok {A B} (f : A → result B) (l : list A) (k : list B) :
  mapM f l = Ok k ↔ Forall2 (λ x y, f x = Ok y) l k.
Proof.
  revert k. induction l as [|x l IH]; intros k; simpl.
  - split; [intros [= <-]; constructor|by inversion 1].
  - rewrite result_bind_Ok. split.
    + intros (y & Hy & H). apply result_bind_Ok in H as (k' & Hk' & [= <-]).
      constructor; [done|by apply IH].
    + inversion 1 as [|? y ? k' Hy Hk']; subst. exists y. split; [done|].
      apply result_bind_Ok. exists k'. split; [by apply IH|done].
Qed.

Lemma mapM_Raise {A B} (f : A → result B) (l : list A) (e : exn) :
  mapM f l = Raise e → ∃ x, x ∈ l ∧ f x = Raise e.
Proof.
  induction l as [|x l IH]; simpl; [done|].
  intros H. apply result_bind_Raise in H as [H|(y & _ & H)].
  - exists x. split; [left|done].
  - apply result_bind_Raise in H as [H|(k' & _ & [=])].
    destruct (IH H) as (x' & Hin & Hx'). exists x'. split; [by right|done].
Qed.

Lemma mapM_Raise_at {A B} (f : A → result B) (l : list A) (x : A) (e : exn) :
  x ∈ l → f x = Raise e → (∀ y e', f y = Raise e' → e' = e) → mapM f l = Raise e.
Proof.
  intros Hin Hx Hall.
  destruct (mapM f l) as [k|e'] eqn:Hm.
  - apply mapM_Ok in Hm. apply list_elem_of_lookup in Hin as [i Hi].
    destruct (Forall2_lookup_l _ _ _ _ _ Hm Hi) as (y & _ & Hy). congruence.
  - apply mapM_Raise in Hm as (y & _ & Hy). by rewrite (Hall _ _ Hy).
Qed.

(** X15.  [load_locations] returns all the locations of a file or none:
    of a decoded list it returns one object per item, in the order of the
    list, when every item is an object whose keys are lat, lon and address,
    and raises [TypeError] as soon as one item is not; an empty list, and
    an empty object or string as well, gives no locations and no error; a
    number, a truth value and null raise [TypeError].  A missing file
    raises [FileNotFoundError] and a file that is not JSON [ValueError]. *)
Theorem load_locations_outcomes (read : string → read_outcome) (file_path : string) :
  (read file_path = FileNotFound →
   load_locations read file_path = Raise FileNotFoundError)
  ∧ (read file_path = JSONDecodeError →
     load_locations read file_path = Raise ValueError)
  ∧ (∀ items, read file_path = Decoded (PyList items) →
       (∀ locs, load_locations read file_path = Ok locs ↔
                Forall2 (λ item o, item = PyDict o
                                   ∧ ∀ k, is_Some (o !! k) ↔ k ∈ Location_fields)
                        items locs)
       ∧ (∀ locs, load_locations read file_path = Ok locs → length locs = length items)
       ∧ (∀ item, item ∈ items → (∀ o, new_Location item ≠ Ok o) →
                  load_locations read file_path = Raise TypeError)
       ∧ (items = [] → load_locations read file_path = Ok []))
  ∧ (read file_path = Decoded (PyDict ∅) ∨ read file_path = Decoded (PyStr EmptyString) →
     load_locations read file_path = Ok [])
  ∧ (∀ data, read file_path = Decoded data →
       (∀ e, load_locations read file_path = Raise e → e = TypeError)
       ∧ (data = PyNone ∨ (∃ b, data = PyBool b) ∨ (∃ x, data = PyNum x) →
          load_locations read file_path = Raise TypeError)).
Proof.
  unfold load_locations.
  split; [by intros ->|]. split; [by intros ->|].
  split; [|split].
  - intros items ->. simpl.
    assert (∀ locs, mapM new_Location items = Ok locs ↔
                    Forall2 (λ item o, item = PyDict o
                                       ∧ ∀ k, is_Some (o !! k) ↔ k ∈ Location_fields)
                            items locs) as Hok.
    { assert (∀ item (o : gmap string pyval), new_Location item = Ok o ↔
                        item = PyDict o ∧ ∀ k, is_Some (o !! k) ↔ k ∈ Location_fields)
        as Hone.
      { intros item o. unfold new_Location. rewrite dataclass_call_Ok.
        apply and_iff_compat_l. rewrite set_eq. apply forall_proper. intros k.
        by rewrite elem_of_dom, elem_of_list_to_set. }
      intros locs. rewrite mapM_Ok.
      split; intros H; (eapply Forall2_impl; [exact H|]); intros item o; apply Hone. }
    split; [exact Hok|]. split; [|split].
    + intros locs H. apply Hok in H. symmetry. by eapply Forall2_length.
    + intros item Hin Hbad. apply (mapM_Raise_at _ _ item); [done| |].
      * destruct (new_Location item) as [o|e] eqn:He; [by destruct (Hbad o)|].
        by rewrite (dataclass_call_Raise _ _ _ He).
      * intros y e'. apply dataclass_call_Raise.
    + by intros ->.
  - by intros [-> | ->].
  - intros data ->. split.
    + intros e H. apply result_bind_Raise in H as [H|(locs & _ & H)].
      * destruct data; try done; by injection H as <-.
      * apply mapM_Raise in H as (x & _ & H). by apply dataclass_call_Raise in H.
    + by intros [->|[[b ->]|[x ->]]].
Qed.

(** *** What is written *)

(** X16.  [save_route_data] writes, for each route in order, the three
    totals and, for each segment in order, its two ends, its distance, its
    duration and its emissions.  The traffic delay of a segment, the
    weather conditions and the air quality of a route are not written:
    routes that differ in these alone are saved as the same document.
    When the file cannot be opened the exception is passed on and no file
    changes; otherwise the document replaces what the file held and the
    other files stay as they were. *)
Theorem save_route_data_leaves_out (open_w : string → option string)
    (routes : list Route) (file_path : string) (files : gmap string pyval) :
  save_route_data open_w (without_unsaved <$> routes) file_path files
  = save_route_data open_w routes file_path files
  ∧ (∀ cls, open_w file_path = Some cls →
       save_route_data open_w routes file_path files = (Raise (OtherError cls), files))
  ∧ (open_w file_path = None →
     ∃ docs files',
       save_route_data open_w routes file_path files = (Ok (), files')
       ∧ files' !! file_path = Some (PyList docs)
       ∧ (∀ other, other ≠ file_path → files' !! other = files !! other)
       ∧ length docs = length routes
       ∧ ∀ i route, routes !! i = Some route →
           ∃ d segs,
             docs !! i = Some (PyDict d)
             ∧ (∀ k, is_Some (d !! k) ↔
                     k ∈ ["total_distance"; "total_duration"; "total_emissions"; "segments"])
             ∧ d !! "total_distance" = Some (PyNum (total_distance route))
             ∧ d !! "total_duration" = Some (PyNum (total_duration route))
             ∧ d !! "total_emissions" = Some (PyNum (total_emissions route))
             ∧ d !! "segments" = Some (PyList segs)
             ∧ length segs = length (segments route)
             ∧ ∀ j seg, segments route !! j = Some seg →
                 ∃ s, segs !! j = Some (PyDict s)
                      ∧ (∀ k, is_Some (s !! k) ↔
                              k ∈ ["start"; "end"; "distance"; "duration"; "emissions"])
                      ∧ s !! "start" = Some (location_dict (seg_start seg))
                      ∧ s !! "end" = Some (location_dict (seg_end seg))
                      ∧ s !! "distance" = Some (PyNum (distance seg))
                      ∧ s !! "duration" = Some (PyNum (duration seg))
                      ∧ s !! "emissions" = Some (PyNum (emissions seg))).
Proof.
  split; [|split].
  - unfold save_route_data, route_data. rewrite <- list_fmap_compose.
    assert (∀ route, route_dict (without_unsaved route) = route_dict route) as Hr.
    { intros route. unfold route_dict, without_unsaved. simpl.
      by rewrite <- list_fmap_compose. }
    assert (route_dict ∘ without_unsaved <$> routes = route_dict <$> routes) as ->; [|done].
    apply list_fmap_ext. intros i route _. apply Hr.
  - intros cls H. unfold save_route_data. by rewrite H.
  - intros H. unfold save_route_data. rewrite H. eexists _, _. split; [done|].
    split; [by rewrite lookup_insert_eq|].
    split; [by intros other Ho; rewrite lookup_insert_ne|].
    split; [by rewrite length_fmap|].
    intros i route Hi. eexists _, _. split; [by rewrite list_lookup_fmap, Hi|].
    split.
    { intros k. rewrite <- elem_of_dom, !dom_insert_L, dom_singleton_L, !elem_of_union,
        !elem_of_singleton, !elem_of_cons, elem_of_nil. tauto. }
    do 4 (split; [done|]). split; [by rewrite length_fmap|].
    intros j seg Hj. eexists. split; [by rewrite list_lookup_fmap, Hj|].
    split; [|done].
    intros k. rewrite <- elem_of_dom, !dom_insert_L, dom_singleton_L, !elem_of_union,
      !elem_of_singleton, !elem_of_cons, elem_of_nil. tauto.
Qed.

(** X17.  A location is written by [save_route_data] in the form in which
    [load_locations] reads one: a file that holds a list of locations as
    the writer puts them is loaded as these locations, in their order,
    each object standing for the location it was written from. *)
Theorem written_locations_load_back (read : string → read_outcome) (file_path : string)
    (locations : list Location) :
  read file_path = Decoded (PyList (location_dict <$> locations)) →
  ∃ objects,
    load_locations read file_path = Ok objects
    ∧ Location_of <$> objects = Some <$> locations.
Proof.
  intros Hread. unfold load_locations. rewrite Hread. simpl.
  exists ((λ l, {[ "lat" := PyNum (lat l); "lon" := PyNum (lon l);
                   "address" := PyStr (address l) ]}) <$> locations).
  split.
  - apply mapM_Ok, Forall2_fmap, Forall_Forall2_diag, Forall_forall.
    intros l _. unfold new_Location, location_dict. simpl.
    rewrite decide_True; [done|].
    rewrite !dom_insert_L, dom_singleton_L. simpl. by rewrite union_empty_r_L.
  - rewrite <- list_fmap_compose. apply list_fmap_ext. intros i l _. by destruct l.
Qed.

(** X17, at a file that holds the depot and the first stop. *)
Lemma written_locations_load_back_witness :
  ∃ objects,
    load_locations
      (λ _, Decoded (PyList [location_dict Sample.depot; location_dict Sample.stop1]))
      "locations.json" = Ok objects
    ∧ Location_of <$> objects = [Some Sample.depot; Some Sample.stop1].
Proof.
  apply (written_locations_load_back
           (λ _, Decoded (PyList [location_dict Sample.depot; location_dict Sample.stop1]))
           "locations.json" [Sample.depot; Sample.stop1]).
  reflexivity.
Defined.

End AppBehaviour.

(** ** Rounding of quotients and sums to binary64 *)

Module QuotientFacts.
Import Rounding Quotients FloatFacts RoundingFacts.
#[local] Open Scope Z_scope.

(** *** Integer rounding of a quotient *)

Lemma rne_rq (v n : Z) : rne v n = rq v (2 ^ n).
Proof. reflexivity. Qed.

Lemma rq_bounds (a d : Z) : a / d ≤ rq a d ≤ a / d + 1.
Proof.
  unfold rq. destruct (2 * (a mod d) ?= d); [destruct (Z.even _)|..]; lia.
Qed.

Lemma rq_mono (a1 a2 d : Z) : 0 < d → a1 ≤ a2 → rq a1 d ≤ rq a2 d.
Proof.
  intros Hd Ha.
  pose proof (Z.div_le_mono a1 a2 d Hd Ha) as Hq.
  destruct (Z.eq_dec (a1 / d) (a2 / d)) as [Heq|Hne].
  - pose proof (Z.div_mod a1 d ltac:(lia)) as H1.
    pose proof (Z.div_mod a2 d ltac:(lia)) as H2.
    assert (a1 mod d ≤ a2 mod d) as Hr by (rewrite Heq in H1; lia).
    unfold rq. rewrite Heq.
    destruct (Z.compare_spec (2 * (a1 mod d)) d);
      destruct (Z.compare_spec (2 * (a2 mod d)) d);
      destruct (Z.even (a2 / d)); lia.
  - pose proof (rq_bounds a1 d). pose proof (rq_bounds a2 d). lia.
Qed.

Lemma rq_scale (a d k : Z) : 0 < d → 0 < k → rq (a * k) (d * k) = rq a d.
Proof.
  intros Hd Hk. unfold rq.
  rewrite Z.div_mul_cancel_r by lia.
  rewrite Z.mul_mod_distr_r by lia.
  replace (2 * (a mod d * k)) with (2 * (a mod d) * k) by ring.
  rewrite <- Zmult_compare_compat_r by lia. done.
Qed.

Lemma rq_exact (q d : Z) : 0 < d → rq (q * d) d = q.
Proof.
  intros Hd. unfold rq. rewrite Z.div_mul, Z.mod_mul by lia.
  assert ((2 * 0 ?= d) = Lt) as -> by (apply Z.compare_lt_iff; lia). done.
Qed.

(** *** A mantissa with its location *)

Lemma loc_code_bounds (l : location) : 0 ≤ loc_code l ≤ 3.
Proof. destruct l as [|[]]; simpl; lia. Qed.

Lemma shifted_of_loc (m : Z) (l : location) :
  shifted 2 (coded m l) (shr_record_of_loc m l).
Proof.
  unfold coded. destruct l as [|[]]; simpl.
  - exists 0, false. simpl. repeat split; lia.
  - exists 0, true. simpl. repeat split; lia.
  - exists 1, false. simpl. repeat split; lia.
  - exists 1, true. simpl. repeat split; lia.
Qed.

Lemma shifted_iter_from (k : Z) (v : Z) (mrs : shr_record) (n : nat) :
  1 ≤ k → 0 ≤ v → shifted k v mrs →
  shifted (k + Z.of_nat n) v (Nat.iter n shr_1 mrs).
Proof.
  intros Hk Hv Hs. induction n as [|n IH].
  - by rewrite Z.add_0_r.
  - replace (k + Z.of_nat (S n)) with (k + Z.of_nat n + 1) by lia.
    rewrite Nat.iter_succ. apply shifted_step; [lia|done|done].
Qed.

(** The quotient of a coded mantissa is that of the mantissa. *)
Lemma coded_div (m : Z) (l : location) (n : Z) :
  0 ≤ n → coded m l / 2 ^ (n + 2) = m / 2 ^ n.
Proof.
  intros Hn. unfold coded. pose proof (loc_code_bounds l).
  rewrite Z.pow_add_r by lia. change (2 ^ 2) with 4.
  rewrite (Z.mul_comm (2 ^ n) 4), <- Z.div_div by (try apply Z.pow_pos_nonneg; lia).
  f_equal. symmetry. apply (Z.div_unique _ 4 m (loc_code l)); lia.
Qed.

(** The first shift of the rounding, from a mantissa with a location. *)
Lemma shr_fexp_round_loc (m E : Z) (l : location) :
  0 ≤ m →
  E ≤ fexp prec emax (Zdigits2 m + E) →
  ∃ mrs,
    shr_fexp prec emax m E l = (mrs, fexp prec emax (Zdigits2 m + E))
    ∧ round_nearest_even (shr_m mrs) (loc_of_shr_record mrs)
      = rne (coded m l) (fexp prec emax (Zdigits2 m + E) - E + 2).
Proof.
  intros Hm Hpre. unfold shr_fexp.
  set (e' := fexp prec emax (Zdigits2 m + E)) in *.
  assert (0 ≤ coded m l) as Hc by (unfold coded; pose proof (loc_code_bounds l); lia).
  unfold shr. destruct (e' - E) as [|n|n] eqn:En; [| |lia].
  - eexists. split; [f_equal; lia|].
    apply shifted_round; [lia|done|apply shifted_of_loc].
  - eexists. split; [f_equal; lia|].
    rewrite iter_pos_nat.
    apply shifted_round; [lia|done|].
    replace (Z.pos n + 2) with (2 + Z.of_nat (Pos.to_nat n)) by lia.
    apply shifted_iter_from; [lia|done|apply shifted_of_loc].
Qed.

Lemma Zdigits2_bounds (m : Z) : 0 ≤ m → m < 2 ^ Zdigits2 m ∧ 0 ≤ Zdigits2 m.
Proof.
  intros Hm. destruct m as [|p|p]; [done| |lia]. simpl.
  pose proof (digits2_bounds p). lia.
Qed.

(** The rounded mantissa has at most 53 bits, or is [2^53]; above the
    smallest exponent it has all of its bits. *)
Lemma rne_coded_bounds (m E : Z) (l : location) :
  let e' := fexp prec emax (Zdigits2 m + E) in
  0 ≤ m → E ≤ e' →
  0 ≤ rne (coded m l) (e' - E + 2) ≤ 2 ^ 53
  ∧ (-1074 < e' → 2 ^ 52 ≤ rne (coded m l) (e' - E + 2)).
Proof.
  intros e' Hm Hpre. subst e'. rewrite fexp64_eq in *.
  set (D := Zdigits2 m) in *.
  set (n := Z.max (D + E - 53) (-1074) - E) in *.
  destruct (Zdigits2_bounds m Hm) as [Hhi HD]. fold D in Hhi, HD.
  assert (0 ≤ n) as Hn by lia.
  assert (0 < 2 ^ n) as Hp by (apply Z.pow_pos_nonneg; lia).
  pose proof (rne_bounds (coded m l) (n + 2)) as [Hq1 Hq2].
  rewrite coded_div in Hq1, Hq2 by done.
  assert (0 ≤ m / 2 ^ n) by (apply Z.div_pos; lia).
  assert (m / 2 ^ n < 2 ^ 53) as Hq.
  { apply Z.div_lt_upper_bound; [done|].
    rewrite <- Z.pow_add_r by lia.
    assert (2 ^ D ≤ 2 ^ (n + 53)) by (apply Z.pow_le_mono_r; lia). lia. }
  split; [lia|]. intros He.
  assert (n = D - 53) as Hn' by lia.
  assert (2 ^ 52 ≤ m / 2 ^ n); [|lia].
  destruct m as [|p|p]; [simpl in *; lia| |lia].
  pose proof (digits2_bounds p) as [Hlo _]. change (Z.pos (digits2_pos p)) with D in Hlo.
  apply Z.div_le_lower_bound; [done|].
  rewrite <- Z.pow_add_r by lia.
  replace (n + 52) with (D - 1) by lia. done.
Qed.

(** What the rounding returns once the first shift and its rounding are
    known. *)
Lemma binary_round_aux_from (s : bool) (m E : Z) (l : location) (mrs : shr_record)
    (e' R : Z) :
  shr_fexp prec emax m E l = (mrs, e') →
  round_nearest_even (shr_m mrs) (loc_of_shr_record mrs) = R →
  0 ≤ R ≤ 2 ^ 53 → -1074 ≤ e' →
  binary_round_aux prec emax s m E l = round_result s R e'.
Proof.
  intros Hshr Hround Hb He.
  unfold binary_round_aux. rewrite Hshr, Hround.
  unfold round_result, shr_fexp. cbn [shr_record_of_loc].
  destruct (Z.eqb_spec R 0) as [->|Hm0].
  - cbn [Zdigits2]. rewrite fexp64_eq. unfold shr.
    destruct (Z.max (0 + e' - 53) (-1074) - e') eqn:En; [done| lia |done].
  - destruct (Z.eqb_spec R (2 ^ 53)) as [->|Hm53].
    + change (Zdigits2 (2 ^ 53)) with 54. rewrite fexp64_eq.
      replace (Z.max (54 + e' - 53) (-1074) - e') with 1 by lia.
      reflexivity.
    + destruct R as [|p|p]; [done| |lia]. cbn [Zdigits2].
      assert (Z.pos (digits2_pos p) ≤ 53) by (apply digits2_le; lia).
      rewrite fexp64_eq. unfold shr.
      destruct (Z.max (Z.pos (digits2_pos p) + e' - 53) (-1074) - e') eqn:En;
        [done| lia |done].
Qed.

(** What rounding a mantissa with a location returns. *)
Lemma binary_round_aux_loc (s : bool) (m E : Z) (l : location) :
  let e' := fexp prec emax (Zdigits2 m + E) in
  0 ≤ m → E ≤ e' →
  binary_round_aux prec emax s m E l
  = round_result s (rne (coded m l) (e' - E + 2)) e'.
Proof.
  intros e' Hm Hpre.
  destruct (rne_coded_bounds m E l Hm Hpre) as [Hb _]. fold e' in Hb.
  destruct (shr_fexp_round_loc m E l Hm Hpre) as (mrs & Hshr & Hround).
  fold e' in Hshr, Hround.
  apply (binary_round_aux_from s m E l mrs); try done.
  unfold e'. rewrite fexp64_eq. lia.
Qed.

End QuotientFacts.

Module DivisionFacts.
Import Rounding Quotients FloatFacts RoundingFacts QuotientFacts.
#[local] Open Scope Z_scope.

(** The location of a remainder [r] of a division by [d]. *)
Lemma new_location_code (d r : Z) :
  0 < d → 0 ≤ r < d →
  loc_code (new_location d r)
  = if r =? 0 then 0
    else match 2 * r ?= d with
         | Lt => 1
         | Eq => 2
         | Gt => 3
         end.
Proof.
  intros Hd Hr. unfold new_location.
  destruct (Z.even d) eqn:Ev; unfold new_location_even, new_location_odd;
    destruct (Z.eqb_spec r 0) as [->|Hr0]; try done.
  assert (Z.odd d = true) as Hodd by (by rewrite <- Z.negb_even, Ev).
  apply Z.odd_spec in Hodd as [k Hk].
  destruct (Z.compare_spec (2 * r + 1) d); destruct (Z.compare_spec (2 * r) d);
    simpl; try done; lia.
Qed.

(** The rounding of a quotient with its location, as the first shift of
    the rounding performs it, is the rounding of the exact quotient. *)
Lemma rne_coded_rq (a d n : Z) :
  0 ≤ a → 0 < d → 0 ≤ n →
  rne (coded (a / d) (new_location d (a mod d))) (n + 2) = rq a (d * 2 ^ n).
Proof.
  intros Ha Hd Hn.
  set (q := a / d). set (r := a mod d).
  set (H := 2 ^ n). set (t := q mod H). set (Q := q / H).
  assert (0 < H) as HH by (apply Z.pow_pos_nonneg; lia).
  assert (a = d * q + r) as Ea by (apply Z.div_mod; lia).
  assert (0 ≤ r < d) as Hr by (apply Z.mod_pos_bound; lia).
  assert (q = H * Q + t) as Eqt by (apply Z.div_mod; lia).
  assert (0 ≤ t < H) as Ht by (apply Z.mod_pos_bound; lia).
  set (c := loc_code (new_location d r)).
  assert (c = if r =? 0 then 0
              else match 2 * r ?= d with
                   | Lt => 1
                   | Eq => 2
                   | Gt => 3
                   end) as Hc by (by apply new_location_code).
  assert (0 ≤ c ≤ 3) as Hcb by apply loc_code_bounds.
  assert (0 ≤ d * t) as Hdt0 by nia.
  assert (d * t ≤ d * (H - 1)) as Hdt by (apply Z.mul_le_mono_nonneg_l; lia).
  assert (0 ≤ r + d * t < d * H) as Hrem by lia.
  assert (a = d * H * Q + (r + d * t)) as Ea' by (rewrite Ea, Eqt; ring).
  assert (coded q (new_location d r) = 4 * H * Q + (c + 4 * t)) as Ec.
  { unfold coded. fold c. rewrite Eqt at 1. ring. }
  assert (0 ≤ c + 4 * t < 4 * H) as Hrem' by lia.
  unfold rne, rq. rewrite Z.pow_add_r by lia. change (2 ^ 2) with 4. fold H.
  rewrite (Z.mul_comm H 4).
  rewrite <- (Z.div_unique _ _ Q _ (or_introl Hrem') Ec).
  rewrite <- (Z.mod_unique _ _ Q _ (or_introl Hrem') Ec).
  rewrite <- (Z.div_unique _ _ Q _ (or_introl Hrem) Ea').
  rewrite <- (Z.mod_unique _ _ Q _ (or_introl Hrem) Ea').
  assert ((2 * (c + 4 * t) ?= 4 * H) = (2 * (r + d * t) ?= d * H)) as ->; [|done].
  destruct (Z.eq_dec n 0) as [->|Hn0].
  - assert (H = 1) as HH1 by done. assert (t = 0) as -> by lia.
    rewrite HH1, !Z.mul_0_r, !Z.add_0_r, !Z.mul_1_r. rewrite Hc.
    destruct (Z.eqb_spec r 0) as [->|Hr0].
    + transitivity Lt; [done|]. symmetry. apply Z.compare_lt_iff. lia.
    + destruct (Z.compare_spec (2 * r) d); done.
  - assert (H = 2 * 2 ^ (n - 1)) as HH2.
    { unfold H. replace n with (Z.succ (n - 1)) at 1 by lia. by rewrite Z.pow_succ_r by lia. }
    set (H' := 2 ^ (n - 1)) in *.
    assert (0 < H') by (apply Z.pow_pos_nonneg; lia).
    destruct (Z.lt_trichotomy t H') as [Hlt|[Heq|Hgt]].
    + assert (d * t ≤ d * (H' - 1)) by (apply Z.mul_le_mono_nonneg_l; lia).
      assert (d * H = 2 * (d * H')) by (rewrite HH2; ring).
      assert ((2 * (c + 4 * t) ?= 4 * H) = Lt) as -> by (apply Z.compare_lt_iff; lia).
      symmetry. apply Z.compare_lt_iff. lia.
    + assert (d * H = 2 * (d * t)) by (rewrite HH2, Heq; ring).
      rewrite Hc. destruct (Z.eqb_spec r 0) as [->|Hr0].
      * assert ((2 * (0 + 4 * t) ?= 4 * H) = Eq) as -> by (apply Z.compare_eq_iff; lia).
        symmetry. apply Z.compare_eq_iff. lia.
      * assert ((2 * (r + d * t) ?= d * H) = Gt) as -> by (apply Z.compare_gt_iff; lia).
        apply Z.compare_gt_iff. destruct (2 * r ?= d); lia.
    + assert (d * (H' + 1) ≤ d * t) by (apply Z.mul_le_mono_nonneg_l; lia).
      assert (d * H = 2 * (d * H')) by (rewrite HH2; ring).
      assert ((2 * (c + 4 * t) ?= 4 * H) = Gt) as -> by (apply Z.compare_gt_iff; lia).
      symmetry. apply Z.compare_gt_iff. lia.
Qed.

(** *** The quotient of two positive finite floats *)

Section Quotient.
Variables (mx mc : positive) (ex ec : Z).

#[local] Abbreviation e_div := (Quotients.e_div mx ex mc ec).
#[local] Abbreviation dividend := (Quotients.dividend mx ex mc ec).
#[local] Abbreviation quotient := (Quotients.quotient mx ex mc ec).
#[local] Abbreviation e_quot := (Quotients.e_quot mx ex mc ec).

Lemma e_div_le : e_div ≤ ex - ec.
Proof. unfold Quotients.e_div. lia. Qed.

Lemma dividend_pos : 0 < dividend.
Proof.
  pose proof e_div_le. unfold Quotients.dividend.
  assert (0 < 2 ^ (ex - ec - e_div)) by (apply Z.pow_pos_nonneg; lia). lia.
Qed.

Lemma quotient_nonneg : 0 ≤ quotient.
Proof. pose proof dividend_pos. apply Z.div_pos; lia. Qed.

Lemma SFdiv_core_spec :
  SFdiv_core_binary prec emax (Z.pos mx) ex (Z.pos mc) ec
  = (quotient, e_div, new_location (Z.pos mc) (dividend mod Z.pos mc)).
Proof.
  unfold SFdiv_core_binary. cbn [Zdigits2]. fold e_div.
  pose proof e_div_le as Hle.
  assert (match ex - ec - e_div with
          | 0 => Z.pos mx
          | Z.pos _ => Z.shiftl (Z.pos mx) (ex - ec - e_div)
          | Z.neg _ => 0
          end = dividend) as ->.
  { unfold Quotients.dividend. destruct (ex - ec - e_div) as [|p|p] eqn:Es; [lia| |lia].
    by rewrite Z.shiftl_mul_pow2. }
  unfold Quotients.quotient, Z.div, Z.modulo.
  by destruct (Z.div_eucl dividend (Z.pos mc)).
Qed.

(** Above the smallest exponent the quotient has its 53 bits. *)
Lemma quotient_digits : -1074 < e_div → 2 ^ 52 ≤ quotient.
Proof.
  intros He. unfold Quotients.quotient, Quotients.dividend.
  pose proof He as He'. unfold Quotients.e_div in He'. rewrite fexp64_eq in He'.
  set (d1 := Z.pos (digits2_pos mx)) in *. set (d2 := Z.pos (digits2_pos mc)) in *.
  assert (e_div ≤ d1 + ex - (d2 + ec) - 53) as Hed by (unfold Quotients.e_div; rewrite fexp64_eq; lia).
  pose proof e_div_le as Hle.
  set (s := ex - ec - e_div) in *.
  assert (53 - d1 + d2 ≤ s) as Hs by lia.
  pose proof (digits2_bounds mx) as [Hlo _]. pose proof (digits2_bounds mc) as [_ Hhi].
  fold d1 in Hlo. fold d2 in Hhi.
  assert (0 < d1) by (unfold d1; lia). assert (0 < d2) by (unfold d2; lia).
  apply Z.div_le_lower_bound; [lia|].
  assert (2 ^ (52 + d2) ≤ 2 ^ (d1 - 1 + s)) as Hpow by (apply Z.pow_le_mono_r; lia).
  rewrite !Z.pow_add_r in Hpow by lia.
  assert (0 < 2 ^ s) by (apply Z.pow_pos_nonneg; lia).
  assert (0 < 2 ^ 52) by done.
  assert (2 ^ (d1 - 1) * 2 ^ s ≤ Z.pos mx * 2 ^ s) by nia.
  assert (Z.pos mc * 2 ^ 52 ≤ 2 ^ d2 * 2 ^ 52) by nia.
  lia.
Qed.

Lemma e_div_le_e_quot : e_div ≤ e_quot.
Proof.
  unfold Quotients.e_quot. rewrite fexp64_eq.
  destruct (Z.le_gt_cases e_div (-1074)) as [|Hgt]; [lia|].
  pose proof (quotient_digits Hgt) as Hq.
  destruct quotient as [|p|p] eqn:Eq; [done| |lia]. cbn [Zdigits2].
  pose proof (digits2_gt p 52 Hq). lia.
Qed.

(** The quotient of two positive finite floats: the exact quotient of the
    shifted mantissas, rounded to the nearest integer at the exponent of
    its binade. *)
Lemma SFdiv_finite :
  SFdiv prec emax (S754_finite false mx ex) (S754_finite false mc ec)
  = round_result false (rq dividend (Z.pos mc * 2 ^ (e_quot - e_div))) e_quot.
Proof.
  unfold SFdiv. rewrite SFdiv_core_spec. simpl xorb.
  rewrite binary_round_aux_loc; [|apply quotient_nonneg|apply e_div_le_e_quot].
  fold e_quot. f_equal. unfold Quotients.quotient.
  pose proof dividend_pos. pose proof e_div_le_e_quot.
  apply rne_coded_rq; lia.
Qed.

Lemma rq_quotient_bounds :
  0 ≤ rq dividend (Z.pos mc * 2 ^ (e_quot - e_div)) ≤ 2 ^ 53
  ∧ (-1074 < e_quot → 2 ^ 52 ≤ rq dividend (Z.pos mc * 2 ^ (e_quot - e_div))).
Proof.
  pose proof dividend_pos. pose proof e_div_le_e_quot.
  rewrite <- (rne_coded_rq dividend (Z.pos mc) (e_quot - e_div)) by lia.
  apply (rne_coded_bounds quotient e_div); [apply quotient_nonneg|done].
Qed.

Lemma e_quot_ge : -1074 ≤ e_quot.
Proof. unfold Quotients.e_quot. rewrite fexp64_eq. lia. Qed.

End Quotient.

End DivisionFacts.

Module DivisionOrder.
Import Rounding Quotients FloatFacts RoundingFacts QuotientFacts DivisionFacts.
#[local] Open Scope Z_scope.

(** An order of values can be read at any exponent below both. *)
Lemma value_le_at (m1 e1 m2 e2 base : Z) :
  value_le m1 e1 m2 e2 → base ≤ e1 → base ≤ e2 →
  m1 * 2 ^ (e1 - base) ≤ m2 * 2 ^ (e2 - base).
Proof.
  unfold value_le. intros Hv H1 H2. set (K := Z.min e1 e2) in *.
  replace (e1 - base) with ((e1 - K) + (K - base)) by lia.
  replace (e2 - base) with ((e2 - K) + (K - base)) by lia.
  rewrite !Z.pow_add_r by lia.
  assert (0 < 2 ^ (K - base)) by (apply Z.pow_pos_nonneg; lia).
  rewrite !Z.mul_assoc. apply Z.mul_le_mono_nonneg_r; [lia|done].
Qed.

(** The order of two valid positive floats is the order of their
    values. *)
Lemma value_le_of_leb (m1 m2 : positive) (e1 e2 : Z) :
  valid_binary (S754_finite false m1 e1) = true →
  valid_binary (S754_finite false m2 e2) = true →
  SFleb (S754_finite false m1 e1) (S754_finite false m2 e2) = true →
  value_le (Z.pos m1) e1 (Z.pos m2) e2.
Proof.
  intros Hv1 Hv2 Hle.
  pose proof (value_le_mul m1 m2 1 e1 e2 0 Hv1 Hv2 Hle) as H.
  by rewrite !Pos.mul_1_r, !Z.add_0_r in H.
Qed.

Section TwoQuotients.
Variables (m1 m2 mc : positive) (e1 e2 ec : Z).
Hypothesis Hv : value_le (Z.pos m1) e1 (Z.pos m2) e2.

#[local] Abbreviation ed1 := (e_div m1 e1 mc ec).
#[local] Abbreviation ed2 := (e_div m2 e2 mc ec).
#[local] Abbreviation a1 := (dividend m1 e1 mc ec).
#[local] Abbreviation a2 := (dividend m2 e2 mc ec).
#[local] Abbreviation q1 := (quotient m1 e1 mc ec).
#[local] Abbreviation q2 := (quotient m2 e2 mc ec).
#[local] Abbreviation eq1 := (e_quot m1 e1 mc ec).
#[local] Abbreviation eq2 := (e_quot m2 e2 mc ec).

(** The dividends, read at the smaller of their exponents, are in the
    order of the values. *)
Lemma dividends_le :
  a1 * 2 ^ (ed1 - Z.min ed1 ed2) ≤ a2 * 2 ^ (ed2 - Z.min ed1 ed2).
Proof.
  set (L := Z.min ed1 ed2).
  pose proof (e_div_le m1 mc e1 ec). pose proof (e_div_le m2 mc e2 ec).
  unfold dividend. rewrite <- !Z.mul_assoc, <- !Z.pow_add_r by lia.
  replace (e1 - ec - ed1 + (ed1 - L)) with (e1 - (ec + L)) by lia.
  replace (e2 - ec - ed2 + (ed2 - L)) with (e2 - (ec + L)) by lia.
  apply value_le_at; [done|lia|lia].
Qed.

(** The binade of the quotient grows with the value. *)
Lemma quotient_binade_mono :
  0 < q1 → Zdigits2 q1 + ed1 ≤ Zdigits2 q2 + ed2.
Proof.
  intros Hq1. pose proof dividends_le as Hd. set (L := Z.min ed1 ed2) in *.
  pose proof (quotient_nonneg m2 mc e2 ec) as Hq2.
  destruct (Zdigits2_bounds q2 Hq2) as [Hhi2 Hdg2].
  assert (0 < Zdigits2 q1 ∧ 2 ^ (Zdigits2 q1 - 1) ≤ q1) as [Hdg1 Hlo1].
  { destruct q1 as [|p|p]; [lia| |lia]. simpl. pose proof (digits2_bounds p). lia. }
  pose proof (Z.mul_div_le a1 (Z.pos mc) ltac:(lia)) as Hm1. fold q1 in Hm1.
  pose proof (Z.mul_succ_div_gt a2 (Z.pos mc) ltac:(lia)) as Hm2. fold q2 in Hm2.
  destruct (Z.le_gt_cases (Zdigits2 q1 + ed1) (Zdigits2 q2 + ed2)) as [|Hgt]; [done|exfalso].
  assert (2 ^ (Zdigits2 q2 + (ed2 - L)) ≤ 2 ^ (Zdigits2 q1 - 1 + (ed1 - L))) as Hpow
    by (apply Z.pow_le_mono_r; lia).
  rewrite !Z.pow_add_r in Hpow by lia.
  assert (0 < 2 ^ (ed1 - L)) by (apply Z.pow_pos_nonneg; lia).
  assert (0 < 2 ^ (ed2 - L)) by (apply Z.pow_pos_nonneg; lia).
  assert (0 < 2 ^ (Zdigits2 q1 - 1)) by (apply Z.pow_pos_nonneg; lia).
  assert (0 < 2 ^ Zdigits2 q2) by (apply Z.pow_pos_nonneg; lia).
  generalize dependent (2 ^ (ed1 - L)). generalize dependent (2 ^ (ed2 - L)).
  generalize dependent (2 ^ (Zdigits2 q1 - 1)). generalize dependent (2 ^ Zdigits2 q2).
  intros P2 ? ? P1 ? ? S2 ? S1 ? ? ?.
  assert (Z.pos mc * P1 * S1 ≤ a1 * S1) by nia.
  assert (a2 * S2 < Z.pos mc * P2 * S2) by nia.
  assert (Z.pos mc * (P2 * S2) ≤ Z.pos mc * (P1 * S1)) by nia.
  lia.
Qed.

(** The exponent of the binade of the quotient grows with the value. *)
Lemma e_quot_mono : eq1 ≤ eq2.
Proof.
  pose proof (e_quot_ge m2 mc e2 ec) as Hge2.
  pose proof (quotient_nonneg m1 mc e1 ec) as Hq1.
  destruct (Z.eq_dec q1 0) as [Hq0|Hq0].
  - assert (ed1 ≤ -1074) as Hlow.
    { destruct (Z.le_gt_cases ed1 (-1074)) as [|Hhigh]; [done|].
      pose proof (quotient_digits m1 mc e1 ec Hhigh). lia. }
    unfold e_quot at 1. rewrite fexp64_eq, Hq0. simpl Zdigits2. lia.
  - pose proof (quotient_binade_mono ltac:(lia)).
    unfold e_quot. rewrite !fexp64_eq. lia.
Qed.

(** Within a binade the rounded quotients are in the order of the
    values. *)
Lemma rq_quotient_mono :
  eq1 = eq2 →
  rq a1 (Z.pos mc * 2 ^ (eq1 - ed1)) ≤ rq a2 (Z.pos mc * 2 ^ (eq2 - ed2)).
Proof.
  intros Heq. pose proof dividends_le as Hd. set (L := Z.min ed1 ed2) in *.
  pose proof (e_div_le_e_quot m1 mc e1 ec). pose proof (e_div_le_e_quot m2 mc e2 ec).
  assert (0 < 2 ^ (ed1 - L)) by (apply Z.pow_pos_nonneg; lia).
  assert (0 < 2 ^ (ed2 - L)) by (apply Z.pow_pos_nonneg; lia).
  assert (0 < 2 ^ (eq1 - ed1)) by (apply Z.pow_pos_nonneg; lia).
  assert (0 < 2 ^ (eq2 - ed2)) by (apply Z.pow_pos_nonneg; lia).
  rewrite <- (rq_scale a1 _ (2 ^ (ed1 - L))) by lia.
  rewrite <- (rq_scale a2 _ (2 ^ (ed2 - L))) by lia.
  rewrite <- !Z.mul_assoc, <- !Z.pow_add_r by lia.
  replace (eq1 - ed1 + (ed1 - L)) with (eq2 - L) by lia.
  replace (eq2 - ed2 + (ed2 - L)) with (eq2 - L) by lia.
  apply rq_mono; [|done].
  assert (0 < 2 ^ (eq2 - L)) by (apply Z.pow_pos_nonneg; lia). lia.
Qed.

(** Division by a positive finite float keeps the order of two positive
    finite floats. *)
Lemma SFdiv_finite_mono :
  SFleb (SFdiv prec emax (S754_finite false m1 e1) (S754_finite false mc ec))
        (SFdiv prec emax (S754_finite false m2 e2) (S754_finite false mc ec)) = true.
Proof.
  rewrite !SFdiv_finite.
  destruct (rq_quotient_bounds m1 mc e1 ec) as [Hb1 _].
  destruct (rq_quotient_bounds m2 mc e2 ec) as [Hb2 Hn2].
  pose proof (e_quot_ge m1 mc e1 ec). pose proof e_quot_mono as He.
  apply round_result_le; try done.
  destruct (Z.eq_dec eq1 eq2) as [Heq|Hne]; [right|left; lia].
  split; [done|]. by apply rq_quotient_mono.
Qed.

End TwoQuotients.

(** A positive finite float divided by itself is 1. *)
Lemma SFdiv_self (mc : positive) (ec : Z) :
  SFdiv prec emax (S754_finite false mc ec) (S754_finite false mc ec) = Prim2SF 1.
Proof.
  rewrite SFdiv_finite.
  assert (e_div mc ec mc ec = -53) as Hed.
  { unfold e_div.
    replace (Z.pos (digits2_pos mc) + ec - (Z.pos (digits2_pos mc) + ec)) with 0 by lia.
    replace (ec - ec) with 0 by lia. reflexivity. }
  assert (dividend mc ec mc ec = 2 ^ 53 * Z.pos mc) as Hdv.
  { unfold dividend. rewrite Hed. replace (ec - ec - -53) with 53 by lia. lia. }
  assert (quotient mc ec mc ec = 2 ^ 53) as Hq.
  { unfold quotient. rewrite Hdv. apply Z.div_mul. lia. }
  assert (e_quot mc ec mc ec = -52) as Heq.
  { unfold e_quot. by rewrite Hq, Hed. }
  rewrite Heq, Hed, Hdv.
  replace (2 ^ 53 * Z.pos mc) with (2 ^ 52 * (Z.pos mc * 2 ^ (-52 - -53))).
  - rewrite rq_exact; [reflexivity|]. change (2 ^ (-52 - -53)) with 2. lia.
  - change (2 ^ (-52 - -53)) with 2. change (2 ^ 53) with (2 ^ 52 * 2). ring.
Qed.

(** Division by a positive finite float keeps the order of two floats
    that are zero or positive, and keeps them so. *)
Lemma SFdiv_mono (x1 x2 : spec_float) (mc : positive) (ec : Z) :
  valid_binary x1 = true →
  valid_binary x2 = true →
  SFleb (S754_zero false) x1 = true →
  SFleb x1 x2 = true →
  SFleb (SFdiv prec emax x1 (S754_finite false mc ec))
        (SFdiv prec emax x2 (S754_finite false mc ec)) = true
  ∧ SFleb (S754_zero false) (SFdiv prec emax x1 (S754_finite false mc ec)) = true.
Proof.
  intros Hv1 Hv2 H0 Hle.
  assert (∀ m e, SFleb (S754_zero false)
                   (SFdiv prec emax (S754_finite false m e) (S754_finite false mc ec))
                 = true) as Hnonneg.
  { intros m e. rewrite SFdiv_finite. apply round_result_nonneg.
    by destruct (rq_quotient_bounds m mc e ec) as [[? _] _]. }
  destruct x1 as [s1|s1| |s1 m1 e1], x2 as [s2|s2| |s2 m2 e2];
    try done; try (by destruct s1); try (by destruct s2);
    try (by destruct s1, s2).
  - (* zero, finite *)
    destruct s2; [by destruct s1|].
    split; [|by destruct s1].
    specialize (Hnonneg m2 e2). cbn [SFdiv xorb] in *.
    by destruct s1.
  - (* finite, infinity *)
    destruct s1; [done|]. destruct s2; [done|].
    split; [|apply Hnonneg].
    rewrite SFdiv_finite. apply round_result_le_infinity.
  - (* finite, finite *)
    destruct s1; [done|]. destruct s2; [done|].
    split; [|apply Hnonneg].
    apply SFdiv_finite_mono. by apply value_le_of_leb.
Qed.

(** *** On primitive floats *)

Lemma div_le_mono (x1 x2 c : float) :
  (0 <=? x1)%float = true → (x1 <=? x2)%float = true →
  (0 <? c)%float = true → is_finite c = true →
  (x1 / c <=? x2 / c)%float = true ∧ (0 <=? x1 / c)%float = true.
Proof.
  rewrite !FloatAxioms.leb_spec, FloatAxioms.ltb_spec, !FloatAxioms.div_spec.
  change (Prim2SF 0) with (S754_zero false).
  intros H0 Hle Hc Hfin. apply FloatFacts.is_finite_spec in Hfin.
  destruct (Prim2SF c) as [sc|sc| |sc mc ec]; try done.
  destruct sc; [done|].
  apply SFdiv_mono; auto using Prim2SF_valid.
Qed.

Lemma div_self (c : float) :
  (0 <? c)%float = true → is_finite c = true → (c / c = 1)%float.
Proof.
  rewrite FloatAxioms.ltb_spec. change (Prim2SF 0) with (S754_zero false).
  intros Hc Hfin. apply FloatFacts.is_finite_spec in Hfin.
  apply Prim2SF_inj. rewrite FloatAxioms.div_spec.
  destruct (Prim2SF c) as [sc|sc| |sc mc ec]; try done.
  destruct sc; [done|]. apply SFdiv_self.
Qed.

End DivisionOrder.

Module AdditionOrder.
Import Rounding Quotients FloatFacts RoundingFacts QuotientFacts DivisionOrder.
#[local] Open Scope Z_scope.

(** *** Shifting a mantissa to the left *)

Lemma iter_xO_value (m d : positive) :
  Z.pos (Pos.iter xO m d) = Z.pos m * 2 ^ Z.pos d.
Proof.
  induction d as [|d IH] using Pos.peano_ind.
  - simpl. lia.
  - rewrite Pos.iter_succ, Pos2Z.inj_xO, IH, Pos2Z.inj_succ, Z.pow_succ_r by lia. ring.
Qed.

Lemma iter_xO_digits (m d : positive) :
  Z.pos (digits2_pos (Pos.iter xO m d)) = Z.pos (digits2_pos m) + Z.pos d.
Proof.
  induction d as [|d IH] using Pos.peano_ind.
  - simpl. lia.
  - rewrite Pos.iter_succ. cbn [digits2_pos]. rewrite Pos2Z.inj_succ, IH. lia.
Qed.

(** Aligning a mantissa at an exponent takes it to the smaller of the two
    exponents, and keeps its value and its binade. *)
Lemma shl_align_spec (mx : positive) (ex ex' : Z) :
  (shl_align mx ex ex').2 = Z.min ex ex'
  ∧ Z.pos (shl_align mx ex ex').1 = Z.pos mx * 2 ^ (ex - Z.min ex ex')
  ∧ Z.pos (digits2_pos (shl_align mx ex ex').1) + Z.min ex ex'
    = Z.pos (digits2_pos mx) + ex.
Proof.
  unfold shl_align. destruct (ex' - ex) as [|d|d] eqn:Ed; simpl.
  - rewrite Z.min_l by lia. rewrite Z.sub_diag. lia.
  - rewrite Z.min_l by lia. rewrite Z.sub_diag. lia.
  - rewrite Z.min_r by lia. rewrite iter_xO_value, iter_xO_digits.
    replace (ex - ex') with (Z.pos d) by lia. lia.
Qed.

(** An order of values read at an exponent below both is an order of
    values. *)
Lemma value_le_intro (m1 e1 m2 e2 base : Z) :
  base ≤ e1 → base ≤ e2 →
  m1 * 2 ^ (e1 - base) ≤ m2 * 2 ^ (e2 - base) →
  value_le m1 e1 m2 e2.
Proof.
  intros H1 H2 Hle. unfold value_le. set (K := Z.min e1 e2).
  replace (e1 - base) with ((e1 - K) + (K - base)) in Hle by lia.
  replace (e2 - base) with ((e2 - K) + (K - base)) in Hle by lia.
  rewrite !Z.pow_add_r, !Z.mul_assoc in Hle by lia.
  assert (0 < 2 ^ (K - base)) by (apply Z.pow_pos_nonneg; lia).
  by apply Z.mul_le_mono_pos_r in Hle.
Qed.

(** *** Rounding a mantissa at any exponent *)

(** What [binary_round] rounds: the mantissa aligned at the exponent of
    its binade, which needs no further shift to the left. *)
Lemma binary_round_aligned (M : positive) (E : Z) :
  let M' := (shl_align M E (fexp prec emax (Z.pos (digits2_pos M) + E))).1 in
  let E' := Z.min E (fexp prec emax (Z.pos (digits2_pos M) + E)) in
  binary_round prec emax false M E = binary_round_aux prec emax false (Z.pos M') E' loc_Exact
  ∧ E' ≤ fexp prec emax (Z.pos (digits2_pos M') + E')
  ∧ Z.pos M' = Z.pos M * 2 ^ (E - E').
Proof.
  intros M' E'.
  destruct (shl_align_spec M E (fexp prec emax (Z.pos (digits2_pos M) + E)))
    as (He & Hm & Hd).
  fold M' E' in He, Hm, Hd.
  split; [|split; [|done]].
  - unfold binary_round.
    destruct (shl_align M E (fexp prec emax (Z.pos (digits2_pos M) + E))) as [mz ez] eqn:Es.
    simpl in He. subst M'. simpl. by rewrite He.
  - rewrite Hd. unfold E'. lia.
Qed.

(** Rounding at any exponent is monotone in the value rounded. *)
Lemma binary_round_mono (M1 M2 : positive) (E1 E2 : Z) :
  value_le (Z.pos M1) E1 (Z.pos M2) E2 →
  SFleb (binary_round prec emax false M1 E1) (binary_round prec emax false M2 E2) = true.
Proof.
  intros Hv.
  destruct (binary_round_aligned M1 E1) as (-> & Hpre1 & Hm1).
  destruct (binary_round_aligned M2 E2) as (-> & Hpre2 & Hm2).
  set (E1' := Z.min E1 (fexp prec emax (Z.pos (digits2_pos M1) + E1))) in *.
  set (E2' := Z.min E2 (fexp prec emax (Z.pos (digits2_pos M2) + E2))) in *.
  apply binary_round_aux_mono; [done|done|].
  apply (value_le_intro _ _ _ _ (Z.min E1' E2')); [lia|lia|].
  rewrite Hm1, Hm2. rewrite <- !Z.mul_assoc, <- !Z.pow_add_r by lia.
  replace (E1 - E1' + (E1' - Z.min E1' E2')) with (E1 - Z.min E1' E2') by lia.
  replace (E2 - E2' + (E2' - Z.min E1' E2')) with (E2 - Z.min E1' E2') by lia.
  apply value_le_at; [done|lia|lia].
Qed.

(** A valid float is the rounding of its own mantissa. *)
Lemma binary_round_valid (m : positive) (e : Z) :
  valid_binary (S754_finite false m e) = true →
  binary_round prec emax false m e = S754_finite false m e.
Proof.
  intros Hv. destruct (valid_finite _ _ _ Hv) as [He Hmax].
  destruct (valid_mantissa_bounds _ _ _ Hv) as [Hhi _].
  destruct (binary_round_aligned m e) as (-> & Hpre & Hm).
  rewrite fexp64_eq, <- He, Z.min_id in *.
  rewrite Z.sub_diag, Z.mul_1_r in Hm. injection Hm as ->.
  rewrite binary_round_aux_exact by (rewrite fexp64_eq; lia).
  rewrite fexp64_eq, <- He, Z.sub_diag, rne_0.
  unfold round_result.
  destruct (Z.eqb_spec (Z.pos m) 0) as [|_]; [lia|].
  destruct (Z.eqb_spec (Z.pos m) (2 ^ 53)) as [|_]; [lia|].
  destruct (Z.leb_spec e 971); [done|lia].
Qed.

(** The rounding of a mantissa is zero or positive, and a number. *)
Lemma binary_round_shape (M : positive) (E : Z) :
  ∃ R e', binary_round prec emax false M E = round_result false R e' ∧ 0 ≤ R.
Proof.
  destruct (binary_round_aligned M E) as (-> & Hpre & _).
  rewrite binary_round_aux_exact by done.
  eexists _, _. split; [done|].
  by destruct (rne_mantissa_bounds _ _ Hpre) as [[? _] _].
Qed.

(** *** The sum of two positive finite floats *)

Section Sum.
Variables (mx : positive) (ex : Z).

Lemma SFadd_finite (my : positive) (ey : Z) :
  SFadd prec emax (S754_finite false mx ex) (S754_finite false my ey)
  = binary_round prec emax false
      ((shl_align mx ex (Z.min ex ey)).1 + (shl_align my ey (Z.min ex ey)).1)%positive
      (Z.min ex ey).
Proof. reflexivity. Qed.

(** The mantissa of the sum, at the smaller exponent. *)
Lemma sum_value (my : positive) (ey : Z) :
  Z.pos ((shl_align mx ex (Z.min ex ey)).1 + (shl_align my ey (Z.min ex ey)).1)
  = Z.pos mx * 2 ^ (ex - Z.min ex ey) + Z.pos my * 2 ^ (ey - Z.min ex ey).
Proof.
  destruct (shl_align_spec mx ex (Z.min ex ey)) as (_ & Hx & _).
  destruct (shl_align_spec my ey (Z.min ex ey)) as (_ & Hy & _).
  rewrite Pos2Z.inj_add, Hx, Hy.
  by rewrite (Z.min_r ex (Z.min ex ey)), (Z.min_r ey (Z.min ex ey)) by lia.
Qed.

Lemma SFadd_finite_mono (my1 my2 : positive) (ey1 ey2 : Z) :
  value_le (Z.pos my1) ey1 (Z.pos my2) ey2 →
  SFleb (SFadd prec emax (S754_finite false mx ex) (S754_finite false my1 ey1))
        (SFadd prec emax (S754_finite false mx ex) (S754_finite false my2 ey2)) = true.
Proof.
  intros Hv. rewrite !SFadd_finite. apply binary_round_mono.
  apply (value_le_intro _ _ _ _ (Z.min (Z.min ex ey1) (Z.min ex ey2))); [lia|lia|].
  rewrite !sum_value.
  set (z1 := Z.min ex ey1). set (z2 := Z.min ex ey2). set (K := Z.min z1 z2).
  rewrite !Z.mul_add_distr_r, <- !Z.mul_assoc, <- !Z.pow_add_r by lia.
  replace (ex - z1 + (z1 - K)) with (ex - K) by lia.
  replace (ex - z2 + (z2 - K)) with (ex - K) by lia.
  replace (ey1 - z1 + (z1 - K)) with (ey1 - K) by lia.
  replace (ey2 - z2 + (z2 - K)) with (ey2 - K) by lia.
  pose proof (value_le_at _ _ _ _ K Hv ltac:(lia) ltac:(lia)). lia.
Qed.

Lemma SFadd_finite_ge (my : positive) (ey : Z) :
  valid_binary (S754_finite false mx ex) = true →
  SFleb (S754_finite false mx ex)
        (SFadd prec emax (S754_finite false mx ex) (S754_finite false my ey)) = true.
Proof.
  intros Hv. rewrite <- (binary_round_valid mx ex Hv) at 1.
  rewrite SFadd_finite. apply binary_round_mono.
  apply (value_le_intro _ _ _ _ (Z.min ex ey)); [lia|lia|].
  rewrite sum_value. set (z := Z.min ex ey). rewrite Z.sub_diag, Z.mul_1_r.
  assert (0 < 2 ^ (ey - z)) by (apply Z.pow_pos_nonneg; lia). lia.
Qed.

End Sum.

Lemma SFleb_refl_finite (m : positive) (e : Z) :
  SFleb (S754_finite false m e) (S754_finite false m e) = true.
Proof. apply SFleb_finite. right. split; [done|lia]. Qed.

(** Adding to a positive finite float keeps the order of two floats that
    are zero or positive, and gives at least the float added to. *)
Lemma SFadd_mono (mx : positive) (ex : Z) (y1 y2 : spec_float) :
  valid_binary (S754_finite false mx ex) = true →
  valid_binary y1 = true →
  valid_binary y2 = true →
  SFleb (S754_zero false) y1 = true →
  SFleb y1 y2 = true →
  SFleb (SFadd prec emax (S754_finite false mx ex) y1)
        (SFadd prec emax (S754_finite false mx ex) y2) = true
  ∧ SFleb (S754_finite false mx ex) (SFadd prec emax (S754_finite false mx ex) y1) = true.
Proof.
  intros Hvx Hv1 Hv2 H0 Hle.
  destruct y1 as [s1|s1| |s1 m1 e1], y2 as [s2|s2| |s2 m2 e2];
    try done; try (by destruct s1); try (by destruct s2);
    try (by destruct s1, s2).
  - (* zero, zero *)
    cbn [SFadd]. split; apply SFleb_refl_finite.
  - (* zero, infinity *)
    destruct s2; [by destruct s1|]. cbn [SFadd]. split; [done|apply SFleb_refl_finite].
  - (* zero, finite *)
    destruct s2; [by destruct s1|]. split; [|apply SFleb_refl_finite].
    change (SFadd prec emax (S754_finite false mx ex) (S754_zero s1))
      with (S754_finite false mx ex).
    by apply SFadd_finite_ge.
  - (* finite, infinity *)
    destruct s1; [done|]. destruct s2; [done|].
    split; [|by apply SFadd_finite_ge].
    rewrite SFadd_finite.
    destruct (binary_round_shape
                ((shl_align mx ex (Z.min ex e1)).1 + (shl_align m1 e1 (Z.min ex e1)).1)
                (Z.min ex e1)) as (R & e' & -> & _).
    apply round_result_le_infinity.
  - (* finite, finite *)
    destruct s1; [done|]. destruct s2; [done|].
    split; [|by apply SFadd_finite_ge].
    apply SFadd_finite_mono. by apply value_le_of_leb.
Qed.

(** Multiplication does not depend on the order of its operands. *)
Lemma SFmul_comm (x y : spec_float) : SFmul prec emax x y = SFmul prec emax y x.
Proof.
  destruct x as [sx|sx| |sx mx ex], y as [sy|sy| |sy my ey]; simpl;
    try done; try (by rewrite xorb_comm).
  by rewrite xorb_comm, Pos.mul_comm, Z.add_comm.
Qed.

(** Multiplying a float that is zero or positive by two positive finite
    floats in their order gives products in that order, zero or
    positive. *)
Lemma SFmul_mono_l (x c1 c2 : spec_float) :
  valid_binary x = true → valid_binary c1 = true → valid_binary c2 = true →
  SFleb (S754_zero false) x = true →
  SFltb (S754_zero false) c1 = true →
  SFleb c1 c2 = true →
  c2 ≠ S754_infinity false →
  SFleb (SFmul prec emax x c1) (SFmul prec emax x c2) = true
  ∧ SFleb (S754_zero false) (SFmul prec emax x c1) = true.
Proof.
  intros Hvx Hv1 Hv2 H0 Hpos Hle Hfin.
  destruct c1 as [s1|s1| |s1 m1 e1]; try done; [by destruct s1, c2 as [| [] | |[]]|].
  destruct s1; [done|].
  destruct c2 as [s2|s2| |s2 m2 e2]; try done; [by destruct s2|].
  destruct s2; [done|].
  destruct x as [sx|sx| |sx mx ex]; try done.
  - by destruct sx.
  - destruct sx; [done|].
    rewrite (SFmul_comm _ (S754_finite false m1 e1)), (SFmul_comm _ (S754_finite false m2 e2)).
    by apply SFmul_mono.
Qed.

(** *** On primitive floats *)

Lemma add_le_mono (x y1 y2 : float) :
  (0 <? x)%float = true → is_finite x = true →
  (0 <=? y1)%float = true → (y1 <=? y2)%float = true →
  (x + y1 <=? x + y2)%float = true ∧ (x <=? x + y1)%float = true.
Proof.
  rewrite !FloatAxioms.leb_spec, FloatAxioms.ltb_spec, !FloatAxioms.add_spec.
  change (Prim2SF 0) with (S754_zero false).
  intros Hx Hfin H0 Hle. apply FloatFacts.is_finite_spec in Hfin.
  pose proof (Prim2SF_valid x) as Hvx.
  destruct (Prim2SF x) as [sx|sx| |sx mx ex]; try done.
  destruct sx; [done|].
  apply SFadd_mono; auto using Prim2SF_valid.
Qed.

Lemma mul_le_mono_l (x c1 c2 : float) :
  (0 <=? x)%float = true →
  (0 <? c1)%float = true → (c1 <=? c2)%float = true → is_finite c2 = true →
  (x * c1 <=? x * c2)%float = true ∧ (0 <=? x * c1)%float = true.
Proof.
  rewrite !FloatAxioms.leb_spec, FloatAxioms.ltb_spec, !FloatAxioms.mul_spec.
  change (Prim2SF 0) with (S754_zero false).
  intros H0 Hpos Hle Hfin. apply FloatFacts.is_finite_spec in Hfin.
  apply SFmul_mono_l; auto using Prim2SF_valid.
  intros Hinf. by rewrite Hinf in Hfin.
Qed.

End AdditionOrder.

(** ** The load of the vehicle in the emission formula *)

Module LoadBehaviour.
Import EmissionCalculator FloatFacts RoundingFacts Properties EmissionProps OptimizerProps.
Import FloatOrder DivisionOrder AdditionOrder EmissionBehaviour.

Lemma SFleb_trans (x y z : spec_float) :
  SFleb x y = true → SFleb y z = true → SFleb x z = true.
Proof.
  unfold SFleb.
  destruct x as [sx|sx| |sx mx ex], y as [sy|sy| |sy my ey], z as [sz|sz| |sz mz ez];
    simpl; try done;
    repeat match goal with s : bool |- _ => destruct s end; simpl; try done.
  - destruct (Z.compare_spec ex ey), (Z.compare_spec ey ez), (Z.compare_spec ex ez);
      simpl; try done; try lia; subst.
    change (Pos.compare_cont Eq ?a ?b) with (Pos.compare a b).
    destruct (Pos.compare_spec mx my), (Pos.compare_spec my mz), (Pos.compare_spec mx mz);
      simpl; try done; lia.
  - destruct (Z.compare_spec ex ey), (Z.compare_spec ey ez), (Z.compare_spec ex ez);
      simpl; try done; try lia; subst.
    change (Pos.compare_cont Eq ?a ?b) with (Pos.compare a b).
    destruct (Pos.compare_spec mx my), (Pos.compare_spec my mz), (Pos.compare_spec mx mz);
      simpl; try done; lia.
Qed.

Lemma leb_trans (x y z : float) :
  (x <=? y)%float = true → (y <=? z)%float = true → (x <=? z)%float = true.
Proof. rewrite !FloatAxioms.leb_spec. apply SFleb_trans. Qed.

(** A float above a positive number is positive. *)
Lemma positive_above (a x : float) :
  (0 <? a)%float = true → (a <=? x)%float = true → (0 <? x)%float = true.
Proof.
  rewrite !FloatAxioms.ltb_spec, FloatAxioms.leb_spec.
  change (Prim2SF 0) with (S754_zero false).
  destruct (Prim2SF a) as [sa|sa| |sa ma ea], (Prim2SF x) as [sx|sx| |sx mx ex];
    try done; repeat match goal with s : bool |- _ => destruct s end; done.
Qed.

(** A float that is zero or positive is a number. *)
Lemma leb_refl_nonneg (x : float) : (0 <=? x)%float = true → (x <=? x)%float = true.
Proof.
  rewrite !FloatAxioms.leb_spec. change (Prim2SF 0) with (S754_zero false).
  destruct (Prim2SF x) as [s|s| |s m e]; try done; destruct s; try done.
  intros _. apply SFleb_refl_finite.
Qed.

Lemma zero_nonneg (x : float) : is_zero_float x → (0 <=? x)%float = true.
Proof. intros [s Hs]. by rewrite FloatAxioms.leb_spec, Hs. Qed.

Lemma ltb_leb (x y : float) : (x <? y)%float = true → (x <=? y)%float = true.
Proof.
  rewrite FloatAxioms.ltb_spec, FloatAxioms.leb_spec. unfold SFltb, SFleb.
  by destruct (SFcompare (Prim2SF x) (Prim2SF y)) as [[]|].
Qed.

(** The product of a distance that is zero or positive, an emission
    factor of the table and a weather factor is zero or positive. *)
Lemma base_times_weather_nonneg (vehicle : Vehicle) (distance wf : float) :
  (0 <=? distance)%float = true → is_finite distance = true →
  wf ∈ [1.0; 1.1; 1.15; 1.265]%float →
  (0 <=? base_emission vehicle distance * wf)%float = true.
Proof.
  intros Hd Hfin Hwf. unfold base_emission. rewrite emission_factor_lookup.
  assert ((0 <=? distance * Spec.emission_factor (fuel_type vehicle))%float = true) as Hb.
  { assert (∀ f, (0 <? f)%float = true → is_finite f = true →
                 (0 <=? distance * f)%float = true) as Hpos.
    { intros f Hf Hff.
      by destruct (mul_le_mono distance distance f Hd (leb_refl_nonneg _ Hd) Hf Hff). }
    assert (∀ f, is_zero_float f → (0 <=? distance * f)%float = true) as Hzero.
    { intros f Hf. by apply zero_nonneg, finite_mul_zero. }
    unfold Spec.emission_factor. repeat case_decide.
    - by apply Hpos.
    - apply Hzero. by exists false.
    - by apply Hpos.
    - apply Hzero. by exists false. }
  assert ((0 <? wf)%float = true ∧ is_finite wf = true) as [Hwpos Hwfin].
  { repeat (apply elem_of_cons in Hwf as [->|Hwf]; [done|]). by apply elem_of_nil in Hwf. }
  by destruct (mul_le_mono _ _ wf Hb (leb_refl_nonneg _ Hb) Hwpos Hwfin).
Qed.

(** The load factor grows with the load, from 1.0 on. *)
Lemma load_multiplier_mono (load1 load2 capacity : float) :
  (0 <? capacity)%float = true → is_finite capacity = true →
  (0 <=? load1)%float = true → (load1 <=? load2)%float = true →
  (1.0 + load1 / capacity * 0.2 <=? 1.0 + load2 / capacity * 0.2)%float = true
  ∧ (1.0 <=? 1.0 + load1 / capacity * 0.2)%float = true.
Proof.
  intros Hc Hfin H0 Hle.
  destruct (div_le_mono load1 load2 capacity H0 Hle Hc Hfin) as [Hr Hr0].
  destruct (mul_le_mono _ _ 0.2 Hr0 Hr eq_refl eq_refl) as [Hp Hp0].
  by apply add_le_mono.
Qed.

(** From no load to a full load the load factor goes from 1.0 to 1.2. *)
Lemma load_multiplier_range (load capacity : float) :
  (0 <? capacity)%float = true → is_finite capacity = true →
  (0 <=? load)%float = true → (load <=? capacity)%float = true →
  (1.0 <=? 1.0 + load / capacity * 0.2)%float = true
  ∧ (1.0 + load / capacity * 0.2 <=? 1.2)%float = true.
Proof.
  intros Hc Hfin H0 Hle.
  destruct (load_multiplier_mono load capacity capacity Hc Hfin H0 Hle) as [Hm Hlo].
  split; [done|]. by rewrite (div_self _ Hc Hfin) in Hm.
Qed.

(** X18.  For a vehicle with a positive finite cargo capacity and a load
    between zero and that capacity, the load factor of
    [calculate_emissions] lies between 1.0 and 1.2: it is exactly 1.0 with
    no load and exactly 1.2 with a full load.  Over a finite distance that
    is zero or positive, the emission returned is then zero or positive,
    at least the base emission times the weather factor times 1.0, and at
    most that product times 1.2. *)
Theorem load_factor_in_range (vehicle : Vehicle) (distance : float) (weather : pyval)
    (wf : float) :
  (0 <? cargo_capacity vehicle)%float = true →
  is_finite (cargo_capacity vehicle) = true →
  (0 <=? current_load vehicle)%float = true →
  (current_load vehicle <=? cargo_capacity vehicle)%float = true →
  (0 <=? distance)%float = true → is_finite distance = true →
  weather_factor weather = Ok wf →
  ∃ lf e,
    load_factor vehicle = Ok lf
    ∧ (1.0 <=? lf)%float = true ∧ (lf <=? 1.2)%float = true
    ∧ (current_load vehicle = 0%float → lf = 1.0%float)
    ∧ (current_load vehicle = cargo_capacity vehicle → lf = 1.2%float)
    ∧ calculate_emissions vehicle distance weather = Ok e
    ∧ e = (base_emission vehicle distance * wf * lf)%float
    ∧ (0 <=? e)%float = true
    ∧ (base_emission vehicle distance * wf * 1.0 <=? e)%float = true
    ∧ (e <=? base_emission vehicle distance * wf * 1.2)%float = true.
Proof.
  intros Hc Hfin H0 Hle Hd Hdfin Hwf.
  pose proof (load_factor_nonzero vehicle (positive_nonzero _ Hc)) as Hlf.
  unfold Spec.load_multiplier in Hlf.
  destruct (load_multiplier_range _ _ Hc Hfin H0 Hle) as [Hlo Hhi].
  set (lf := (1.0 + current_load vehicle / cargo_capacity vehicle * 0.2)%float) in *.
  pose proof (base_times_weather_nonneg vehicle distance wf Hd Hdfin
                (weather_factor_values _ _ Hwf)) as Hx.
  set (x := (base_emission vehicle distance * wf)%float) in *.
  exists lf, (x * lf)%float.
  split; [done|]. split; [done|]. split; [done|].
  split; [|split; [|split; [|split]]].
  - intros Hz. unfold lf. by rewrite Hz, (zero_div_positive _ Hc).
  - intros Hfull. unfold lf. by rewrite Hfull, (div_self _ Hc Hfin).
  - unfold calculate_emissions. by rewrite Hwf, Hlf.
  - done.
  - assert (is_finite lf = true) as Hlfin.
    { apply (nonneg_le_finite lf 1.2); [|done|done].
      apply (leb_trans 0 1.0 lf); done. }
    destruct (mul_le_mono_l x 1.0 lf Hx eq_refl Hlo Hlfin) as [H1 H1'].
    destruct (mul_le_mono_l x lf 1.2 Hx (positive_above 1.0 lf eq_refl Hlo) Hhi eq_refl)
      as [H2 H2'].
    done.
Qed.

(** X18, at a diesel truck of capacity 1000 that carries 250, over 80 km
    in the rain. *)
Lemma load_factor_in_range_witness :
  let truck :=
    {| id := "T1"; type := "truck"; fuel_type := "diesel"; fuel_efficiency := 8;
       cargo_capacity := 1000; current_load := 250 |} in
  let rain := float_dict {[ "precipitation" := 3%float ]} in
  ∃ lf e,
    load_factor truck = Ok lf
    ∧ (1.0 <=? lf)%float = true ∧ (lf <=? 1.2)%float = true
    ∧ (current_load truck = 0%float → lf = 1.0%float)
    ∧ (current_load truck = cargo_capacity truck → lf = 1.2%float)
    ∧ calculate_emissions truck 80 rain = Ok e
    ∧ e = (base_emission truck 80 * 1.1 * lf)%float
    ∧ (0 <=? e)%float = true
    ∧ (base_emission truck 80 * 1.1 * 1.0 <=? e)%float = true
    ∧ (e <=? base_emission truck 80 * 1.1 * 1.2)%float = true.
Proof.
  intros truck rain.
  apply (load_factor_in_range truck 80 rain 1.1); reflexivity.
Defined.

(** X19.  The emission does not go down when the load goes up: for two
    vehicles of the same fuel type and the same positive finite cargo
    capacity, whose loads are l1 and l2 with 0 <= l1 <= l2 and l2 at most
    the capacity, and for the same finite distance that is zero or
    positive and the same weather conditions, [calculate_emissions]
    returns for the first an emission that is zero or positive and at most
    the emission it returns for the second. *)
Theorem emissions_nondecreasing_in_load (v1 v2 : Vehicle) (distance : float)
    (weather : pyval) (wf : float) :
  fuel_type v1 = fuel_type v2 →
  cargo_capacity v1 = cargo_capacity v2 →
  (0 <? cargo_capacity v1)%float = true →
  is_finite (cargo_capacity v1) = true →
  (0 <=? current_load v1)%float = true →
  (current_load v1 <=? current_load v2)%float = true →
  (current_load v2 <=? cargo_capacity v2)%float = true →
  (0 <=? distance)%float = true → is_finite distance = true →
  weather_factor weather = Ok wf →
  ∃ e1 e2,
    calculate_emissions v1 distance weather = Ok e1
    ∧ calculate_emissions v2 distance weather = Ok e2
    ∧ (0 <=? e1)%float = true
    ∧ (e1 <=? e2)%float = true.
Proof.
  intros Hfuel Hcap Hc Hfin H0 Hle Hle2 Hd Hdfin Hwf.
  pose proof (load_factor_nonzero v1 (positive_nonzero _ Hc)) as Hlf1.
  assert ((0 <? cargo_capacity v2)%float = true) as Hc2 by (by rewrite <- Hcap).
  pose proof (load_factor_nonzero v2 (positive_nonzero _ Hc2)) as Hlf2.
  unfold Spec.load_multiplier in Hlf1, Hlf2. rewrite <- Hcap in Hlf2, Hle2.
  destruct (load_multiplier_mono _ _ _ Hc Hfin H0 Hle) as [Hmono Hlo].
  destruct (load_multiplier_range (current_load v2) _ Hc Hfin
              (leb_trans _ _ _ H0 Hle) Hle2) as [Hlo2 Hhi2].
  set (lf1 := (1.0 + current_load v1 / cargo_capacity v1 * 0.2)%float) in *.
  set (lf2 := (1.0 + current_load v2 / cargo_capacity v1 * 0.2)%float) in *.
  pose proof (base_times_weather_nonneg v1 distance wf Hd Hdfin
                (weather_factor_values _ _ Hwf)) as Hx.
  assert (base_emission v2 distance = base_emission v1 distance) as Hbase
    by (unfold base_emission; by rewrite Hfuel).
  exists (base_emission v1 distance * wf * lf1)%float,
         (base_emission v1 distance * wf * lf2)%float.
  unfold calculate_emissions. rewrite Hwf, Hlf1, Hlf2, Hbase.
  split; [done|]. split; [done|].
  assert (is_finite lf2 = true) as Hlfin.
  { apply (nonneg_le_finite lf2 1.2); [|done|done].
    apply (leb_trans 0 1.0 lf2); done. }
  destruct (mul_le_mono_l _ lf1 lf2 Hx (positive_above 1.0 lf1 eq_refl Hlo) Hmono Hlfin)
    as [H1 H2].
  done.
Qed.

(** X19, at two diesel trucks of capacity 1000 that carry 250 and 900, over
    80 km in the rain. *)
Lemma emissions_nondecreasing_in_load_witness :
  ∃ e1 e2,
    calculate_emissions
      {| id := "T1"; type := "truck"; fuel_type := "diesel"; fuel_efficiency := 8;
         cargo_capacity := 1000; current_load := 250 |} 80
      (float_dict {[ "precipitation" := 3%float ]}) = Ok e1
    ∧ calculate_emissions
        {| id := "T2"; type := "truck"; fuel_type := "diesel"; fuel_efficiency := 8;
           cargo_capacity := 1000; current_load := 900 |} 80
        (float_dict {[ "precipitation" := 3%float ]}) = Ok e2
    ∧ (0 <=? e1)%float = true
    ∧ (e1 <=? e2)%float = true.
Proof.
  apply (emissions_nondecreasing_in_load
           {| id := "T1"; type := "truck"; fuel_type := "diesel"; fuel_efficiency := 8;
              cargo_capacity := 1000; current_load := 250 |}
           {| id := "T2"; type := "truck"; fuel_type := "diesel"; fuel_efficiency := 8;
              cargo_capacity := 1000; current_load := 900 |}
           80 (float_dict {[ "precipitation" := 3%float ]}) 1.1); reflexivity.
Defined.

End LoadBehaviour.
